(** * Sentinel code-execution service: executor and dispatcher

    A shallow embedding of the executor ([executeCode], [runCommand],
    [hashContent]) and of the dispatcher's load balancer
    ([selectContainer], [getContainersForLanguage]).

    JavaScript strings are sequences of UTF-16 code units; file-system,
    clock, uuid and child-process behaviour is supplied by an explicit
    world that every effectful call consults and logs into. *)

From Stdlib Require Import ZArith NArith Lia String Ascii.
From stdpp Require Import gmap list.

Local Open Scope Z_scope.

(** ** JavaScript strings *)

Module JS.

(** A string value: its UTF-16 code units. *)
Abbreviation jsstring := (list N).

(** A literal of the source, written with Latin-1 characters. *)
Definition js (s : string) : jsstring :=
  map N_of_ascii (list_ascii_of_string s).

(** [s.length] *)
Definition jslength (s : jsstring) : Z := Z.of_nat (length s).

Definition jseqb (a b : jsstring) : bool := bool_decide (a = b).

(** Truthiness of a string: only the empty string is falsy. *)
Definition truthy (s : jsstring) : bool :=
  match s with [] => false | _ :: _ => true end.

(** [a || b] on strings. *)
Definition or_else (a b : jsstring) : jsstring :=
  if truthy a then a else b.

(** WhiteSpace and LineTerminator code points of ECMAScript, the ones
    [String.prototype.trim] strips. *)
Definition is_white (c : N) : bool :=
  ((9 <=? c) && (c <=? 13) || (c =? 32) || (c =? 160) || (c =? 5760)
   || (8192 <=? c) && (c <=? 8202) || (c =? 8232) || (c =? 8233)
   || (c =? 8239) || (c =? 8287) || (c =? 12288) || (c =? 65279))%N.

Fixpoint trimStart (s : jsstring) : jsstring :=
  match s with
  | c :: s' => if is_white c then trimStart s' else s
  | [] => []
  end.

Definition trimEnd (s : jsstring) : jsstring := rev (trimStart (rev s)).

(** [s.trim()] *)
Definition trim (s : jsstring) : jsstring := trimEnd (trimStart s).

(** [l.join(sep)] *)
Fixpoint join (sep : jsstring) (l : list jsstring) : jsstring :=
  match l with
  | [] => []
  | [x] => x
  | x :: rest => x ++ sep ++ join sep rest
  end.

Fixpoint startsWith (pat s : jsstring) : bool :=
  match pat, s with
  | [], _ => true
  | p :: pat', c :: s' => (p =? c)%N && startsWith pat' s'
  | _ :: _, [] => false
  end.

(** The split of [s] around the leftmost occurrence of [pat]
    ([s.indexOf(pat)] and the two substrings around the match). *)
Fixpoint splitFirst (pat s : jsstring) : option (jsstring * jsstring) :=
  if startsWith pat s then Some ([], drop (length pat) s)
  else match s with
       | [] => None
       | c :: s' =>
           match splitFirst pat s' with
           | Some (pre, post) => Some (c :: pre, post)
           | None => None
           end
       end.

(** GetSubstitution for a string pattern (no captures): [$$], [$&],
    [$`] and [$'] are expanded, every other [$] is literal. *)
Fixpoint getSubstitution (matched before after tpl : jsstring) : jsstring :=
  match tpl with
  | [] => []
  | c :: rest =>
      if (c =? 36)%N then
        match rest with
        | [] => [c]
        | d :: rest' =>
            if (d =? 36)%N then 36%N :: getSubstitution matched before after rest'
            else if (d =? 38)%N then matched ++ getSubstitution matched before after rest'
            else if (d =? 96)%N then before ++ getSubstitution matched before after rest'
            else if (d =? 39)%N then after ++ getSubstitution matched before after rest'
            else c :: getSubstitution matched before after rest
        end
      else c :: getSubstitution matched before after rest
  end.

(** [s.replace(pat, rep)] with a string pattern: the leftmost match only. *)
Definition replace (s pat rep : jsstring) : jsstring :=
  match splitFirst pat s with
  | None => s
  | Some (pre, post) => pre ++ getSubstitution pat pre post rep ++ post
  end.

(** [pat] occurs in [s]. *)
Definition occurs (pat s : jsstring) : Prop :=
  exists pre post, s = pre ++ pat ++ post.

(** The occurrence of [pat] right after [pre] is the leftmost one of
    [pre ++ pat ++ post]. *)
Definition leftmost (pat pre post : jsstring) : Prop :=
  forall pre' post',
    pre ++ pat ++ post = pre' ++ pat ++ post' -> (length pre <= length pre')%nat.

(** A replacement text without [$]: it is inserted as it is. *)
Definition plain (rep : jsstring) : Prop := 36%N ∉ rep.

End JS.
Import JS.

(** ** SHA-256 ([crypto.createHash('sha256')], FIPS 180-4) *)

Module Sha256.

(** [Buffer.from(s, 'utf8')]: the UTF-8 bytes of a string of UTF-16 code
    units; a surrogate that is not part of a pair becomes U+FFFD. *)
Fixpoint utf8 (s : jsstring) : list Z :=
  match s with
  | [] => []
  | c :: rest =>
      let u := Z.of_N c in
      if u <? 128 then u :: utf8 rest
      else if u <? 2048 then
        Z.lor 192 (Z.shiftr u 6) :: Z.lor 128 (Z.land u 63) :: utf8 rest
      else if (55296 <=? u) && (u <? 56320) then
        match rest with
        | d :: rest' =>
            let v := Z.of_N d in
            if (56320 <=? v) && (v <? 57344) then
              let p := 65536 + Z.shiftl (u - 55296) 10 + (v - 56320) in
              Z.lor 240 (Z.shiftr p 18)
                :: Z.lor 128 (Z.land (Z.shiftr p 12) 63)
                :: Z.lor 128 (Z.land (Z.shiftr p 6) 63)
                :: Z.lor 128 (Z.land p 63) :: utf8 rest'
            else 239 :: 191 :: 189 :: utf8 rest
        | [] => [239; 191; 189]
        end
      else if (56320 <=? u) && (u <? 57344) then 239 :: 191 :: 189 :: utf8 rest
      else
        Z.lor 224 (Z.shiftr u 12)
          :: Z.lor 128 (Z.land (Z.shiftr u 6) 63)
          :: Z.lor 128 (Z.land u 63) :: utf8 rest
  end.

Definition w32 (x : Z) : Z := x mod 4294967296.
Definition add32 (x y : Z) : Z := w32 (x + y).
Definition rotr (n x : Z) : Z :=
  w32 (Z.lor (Z.shiftr x n) (Z.shiftl x (32 - n))).

Definition Ch (x y z : Z) : Z :=
  Z.lxor (Z.land x y) (Z.land (Z.lxor x 4294967295) z).
Definition Maj (x y z : Z) : Z :=
  Z.lxor (Z.lxor (Z.land x y) (Z.land x z)) (Z.land y z).
Definition Sigma0 (x : Z) : Z := Z.lxor (Z.lxor (rotr 2 x) (rotr 13 x)) (rotr 22 x).
Definition Sigma1 (x : Z) : Z := Z.lxor (Z.lxor (rotr 6 x) (rotr 11 x)) (rotr 25 x).
Definition sigma0 (x : Z) : Z := Z.lxor (Z.lxor (rotr 7 x) (rotr 18 x)) (Z.shiftr x 3).
Definition sigma1 (x : Z) : Z := Z.lxor (Z.lxor (rotr 17 x) (rotr 19 x)) (Z.shiftr x 10).

Definition isPrime (n : Z) : bool :=
  forallb (fun d => negb (n mod Z.of_nat d =? 0)) (seq 2 (Z.to_nat n - 2)).

(** The first sixty-four primes. *)
Definition primes : list Z :=
  Eval vm_compute in filter (fun n => isPrime n = true) (map Z.of_nat (seq 2 310)).

(** The integer cube root, bit by bit from bit [bits - 1] down. *)
Fixpoint icbrt (bits : nat) (n r : Z) : Z :=
  match bits with
  | O => r
  | S b =>
      let r' := r + Z.shiftl 1 (Z.of_nat b) in
      icbrt b n (if r' * r' * r' <=? n then r' else r)
  end.

(** The round constants: the first thirty-two bits of the fractional
    parts of the cube roots of the first sixty-four primes. *)
Definition K : list Z :=
  Eval vm_compute in
    map (fun p => w32 (icbrt 40 (Z.shiftl p 96) 0)) primes.

(** The initial hash value: the same of the square roots of the first
    eight primes. *)
Definition H0 : list Z :=
  Eval vm_compute in
    map (fun p => w32 (Z.sqrt (Z.shiftl p 64))) (take 8 primes).

(** Big-endian bytes of [x], [n] of them. *)
Fixpoint be_bytes (n : nat) (x : Z) : list Z :=
  match n with
  | O => []
  | S n' => be_bytes n' (Z.shiftr x 8) ++ [Z.land x 255]
  end.

(** The message followed by 0x80, zero bytes up to 56 modulo 64, and the
    bit length on 64 bits. *)
Definition pad (msg : list Z) : list Z :=
  let len := Z.of_nat (length msg) in
  msg ++ [128] ++ repeat 0 (Z.to_nat ((55 - len) mod 64)) ++ be_bytes 8 (8 * len).

Fixpoint chunks (fuel : nat) (n : nat) (l : list Z) : list (list Z) :=
  match fuel with
  | O => []
  | S fuel' =>
      match l with
      | [] => []
      | _ :: _ => take n l :: chunks fuel' n (drop n l)
      end
  end.

Definition be_word (bs : list Z) : Z :=
  fold_left (fun acc b => Z.lor (Z.shiftl acc 8) b) bs 0.

Definition words (block : list Z) : list Z :=
  map be_word (chunks 16 4 block).

(** The message schedule: [n] more words after the ones of [w]. *)
Fixpoint schedule (n : nat) (w : list Z) : list Z :=
  match n with
  | O => w
  | S n' =>
      let t := length w in
      let at' (i : nat) := nth (t - i) w 0 in
      schedule n'
        (w ++ [add32 (add32 (sigma1 (at' 2%nat)) (at' 7%nat))
                     (add32 (sigma0 (at' 15%nat)) (at' 16%nat))])
  end.

Definition round (st : list Z) (kw : Z * Z) : list Z :=
  match st with
  | [a; b; c; d; e; f; g; h] =>
      let t1 := add32 (add32 (add32 h (Sigma1 e)) (add32 (Ch e f g) kw.1)) kw.2 in
      let t2 := add32 (Sigma0 a) (Maj a b c) in
      [add32 t1 t2; a; b; c; add32 d t1; e; f; g]
  | _ => st
  end.

Definition compress (h : list Z) (block : list Z) : list Z :=
  let w := schedule 48 (words block) in
  zip_with add32 h (fold_left round (zip K w) h).

Definition hexdigit (d : Z) : N :=
  Z.to_N (if d <? 10 then 48 + d else 87 + d).

Definition hex_byte (b : Z) : jsstring :=
  [hexdigit (Z.shiftr b 4); hexdigit (Z.land b 15)].

(** The digest of a byte string, in lower-case hexadecimal. *)
Definition digest_hex (bytes : list Z) : jsstring :=
  let msg := pad bytes in
  let h := fold_left compress (chunks (length msg) 64 msg) H0 in
  concat (map hex_byte (concat (map (be_bytes 4) h))).

(** [createHash('sha256').update(s).digest('hex')] *)
Definition sha256_hex (s : jsstring) : jsstring := digest_hex (utf8 s).

(** A low surrogate, the second half of a pair. *)
Definition lowSurrogate (c : N) : bool :=
  (56320 <=? Z.of_N c) && (Z.of_N c <? 57344).

End Sha256.

(** ** Data model ([types.ts]) *)

Record CompileConfig := {
  c_command : jsstring;
  c_args : list jsstring;
  c_timeout : Z
}.

Record LanguageConfig := {
  name : jsstring;
  displayName : jsstring;
  extension : jsstring;
  command : jsstring;
  args : list jsstring;
  timeout : Z;
  compile : option CompileConfig;
  filename : option jsstring
}.

Record TestCase := {
  tc_input : jsstring;
  tc_expected : jsstring
}.

Record TestCaseResult := {
  tr_input : jsstring;
  tr_expected : jsstring;
  tr_actualOutput : jsstring;
  tr_passed : bool;
  tr_error : option jsstring;
  tr_executionTime : Z
}.

Inductive Status := StatusSuccess | StatusError.

Record ExecutionResult := {
  output : jsstring;
  error : jsstring;
  executionTime : Z;
  status : Status;
  testCases : option (list TestCaseResult)
}.

Record CommandResult := {
  stdout : jsstring;
  stderr : jsstring;
  exitCode : Z
}.

(** A thrown value: an [Error] with its message, or anything else. *)
Inductive thrown :=
| ErrorObj (message : jsstring)
| NonError.

(** [error instanceof Error ? error.message : 'Unknown error'] *)
Definition messageOf (e : thrown) : jsstring :=
  match e with
  | ErrorObj m => m
  | NonError => js "Unknown error"
  end.

(** ** The child process of [runCommand] *)

Definition MAX_OUTPUT_SIZE : Z := 1024 * 1024.

(** What happens to one [runCommand] call. Either [spawn] throws before
    there is a child, as it does for a [timeout] that is not a non-negative
    integer or for an empty command ([SpawnThrew], and nothing follows it);
    or the event loop delivers, for the child: data chunks (already decoded
    by [data.toString()]), the [close] and [error] events, and the firing of
    the timer set by [setTimeout]. *)
Inductive proc_event :=
| StdoutData (data : jsstring)
| StderrData (data : jsstring)
| Close (code : option Z)
| ProcError (message : jsstring)
| TimerFired
| SpawnThrew (message : jsstring).

Inductive settlement :=
| Resolved (r : CommandResult)
| Rejected (e : thrown).

(** The closure state of one [runCommand] call: the three [let]
    variables, whether the timer is still pending, the SIGKILLs sent and
    the promise (settled at most once). *)
Record proc_state := {
  ps_stdout : jsstring;
  ps_stderr : jsstring;
  ps_killed : bool;
  ps_timer : bool;
  ps_sigkills : nat;
  ps_promise : option settlement
}.

Definition ps_init : proc_state :=
  {| ps_stdout := []; ps_stderr := []; ps_killed := false; ps_timer := true;
     ps_sigkills := 0; ps_promise := None |}.

(** [resolve(..)] and [reject(..)]: only the first call has an effect. *)
Definition settle (s : settlement) (st : proc_state) : proc_state :=
  match ps_promise st with
  | Some _ => st
  | None =>
      {| ps_stdout := ps_stdout st; ps_stderr := ps_stderr st;
         ps_killed := ps_killed st; ps_timer := ps_timer st;
         ps_sigkills := ps_sigkills st; ps_promise := Some s |}
  end.

(** [killed = true; process.kill('SIGKILL'); reject(new Error(msg))] *)
Definition killAndReject (msg : jsstring) (st : proc_state) : proc_state :=
  settle (Rejected (ErrorObj msg))
    {| ps_stdout := ps_stdout st; ps_stderr := ps_stderr st;
       ps_killed := true; ps_timer := ps_timer st;
       ps_sigkills := S (ps_sigkills st); ps_promise := ps_promise st |}.

Definition clearTimeout (st : proc_state) : proc_state :=
  {| ps_stdout := ps_stdout st; ps_stderr := ps_stderr st;
     ps_killed := ps_killed st; ps_timer := false;
     ps_sigkills := ps_sigkills st; ps_promise := ps_promise st |}.

(** [code || 0] *)
Definition exitCodeOf (code : option Z) : Z :=
  match code with
  | Some c => c
  | None => 0
  end.

(** One handler invocation; or, for [SpawnThrew], the executor of the
    promise throwing at [spawn] (line 273), which rejects the promise with
    what was thrown. *)
Definition handle (st : proc_state) (ev : proc_event) : proc_state :=
  match ev with
  | SpawnThrew message => settle (Rejected (ErrorObj message)) st
  | TimerFired =>
      if ps_timer st
      then killAndReject (js "Execution timeout") (clearTimeout st)
      else st
  | StdoutData data =>
      let st' :=
        {| ps_stdout := ps_stdout st ++ data; ps_stderr := ps_stderr st;
           ps_killed := ps_killed st; ps_timer := ps_timer st;
           ps_sigkills := ps_sigkills st; ps_promise := ps_promise st |} in
      if jslength (ps_stdout st') >? MAX_OUTPUT_SIZE
      then killAndReject (js "Output size exceeded limit") st'
      else st'
  | StderrData data =>
      let st' :=
        {| ps_stdout := ps_stdout st; ps_stderr := ps_stderr st ++ data;
           ps_killed := ps_killed st; ps_timer := ps_timer st;
           ps_sigkills := ps_sigkills st; ps_promise := ps_promise st |} in
      if jslength (ps_stderr st') >? MAX_OUTPUT_SIZE
      then killAndReject (js "Error output size exceeded limit") st'
      else st'
  | Close code =>
      let st' := clearTimeout st in
      if ps_killed st' then st'
      else settle (Resolved {| stdout := trim (ps_stdout st');
                               stderr := trim (ps_stderr st');
                               exitCode := exitCodeOf code |}) st'
  | ProcError message =>
      let st' := clearTimeout st in
      if ps_killed st' then st'
      else settle (Rejected (ErrorObj message)) st'
  end.

Definition childProcess (events : list proc_event) : proc_state :=
  fold_left handle events ps_init.

(** The promise of [runCommand]. While it is pending the timer is still
    set, so once the child is silent the timer fires and rejects. *)
Definition awaitChild (events : list proc_event) : settlement :=
  match ps_promise (childProcess events) with
  | Some s => s
  | None => Rejected (ErrorObj (js "Execution timeout"))
  end.

(** ** The world: clock, uuids, file system, children, and the call log *)

Record dirent := {
  d_name : jsstring;
  isDirectory : bool;
  isFile : bool
}.

(** The answer of the file system to one [fs] call: success (with the
    directory listing, used by [readdir] only) or a thrown value. *)
Inductive fs_answer :=
| FsOk (entries : list dirent)
| FsThrow (e : thrown).

Inductive call :=
| Mkdir (p : jsstring)
| WriteFile (p data : jsstring)
| Stat (p : jsstring)
| CopyFile (src dest : jsstring)
| Readdir (p : jsstring)
| Rm (p : jsstring)
| Spawn (cmd : jsstring) (argv : list jsstring) (cwd input : jsstring) (ms : Z)
| ConsoleError (msg : jsstring).

Record World := {
  clock : list Z;
  uuids : list jsstring;
  fs_script : list fs_answer;
  proc_script : list (list proc_event);
  log : list call
}.

Inductive outcome (A : Type) :=
| Ret (a : A)
| Throw (e : thrown).
Arguments Ret {A} a.
Arguments Throw {A} e.

(** An asynchronous computation: it runs in a world and either returns
    or throws. *)
Definition M (A : Type) : Type := World -> outcome A * World.

Definition ret {A} (a : A) : M A := fun w => (Ret a, w).

Definition throw {A} (e : thrown) : M A := fun w => (Throw e, w).

Definition bind {A B} (m : M A) (k : A -> M B) : M B :=
  fun w =>
    match m w with
    | (Ret a, w') => k a w'
    | (Throw e, w') => (Throw e, w')
    end.

Notation "'let*' x := m 'in' k" := (bind m (fun x => k))
  (at level 10, x name, m at level 100, k at level 200, only parsing).

(** [try { m } catch (e) { h e }] *)
Definition try_catch {A} (m : M A) (h : thrown -> M A) : M A :=
  fun w =>
    match m w with
    | (Ret a, w') => (Ret a, w')
    | (Throw e, w') => h e w'
    end.

(** [try { m } finally { f }] *)
Definition try_finally {A} (m : M A) (f : M unit) : M A :=
  fun w =>
    match m w with
    | (o, w') =>
        match f w' with
        | (Ret _, w'') => (o, w'')
        | (Throw e, w'') => (Throw e, w'')
        end
    end.

(** [for (const x of l) { f x }] *)
Fixpoint forEach {A} (l : list A) (f : A -> M unit) : M unit :=
  match l with
  | [] => ret tt
  | x :: rest => let* _ := f x in forEach rest f
  end.

Definition logged (c : call) (w : World) : World :=
  {| clock := clock w; uuids := uuids w; fs_script := fs_script w;
     proc_script := proc_script w; log := log w ++ [c] |}.

(** [Date.now()] *)
Definition now : M Z :=
  fun w =>
    (Ret (hd 0 (clock w)),
     {| clock := tl (clock w); uuids := uuids w; fs_script := fs_script w;
        proc_script := proc_script w; log := log w |}).

(** [uuidv4()] *)
Definition uuidv4 : M jsstring :=
  fun w =>
    (Ret (hd [] (uuids w)),
     {| clock := clock w; uuids := tl (uuids w); fs_script := fs_script w;
        proc_script := proc_script w; log := log w |}).

(** One awaited [fs] call. *)
Definition perform (c : call) : M (list dirent) :=
  fun w =>
    let w' :=
      {| clock := clock w; uuids := uuids w; fs_script := tl (fs_script w);
         proc_script := proc_script w; log := log w ++ [c] |} in
    match fs_script w with
    | [] => (Ret [], w')
    | FsOk entries :: _ => (Ret entries, w')
    | FsThrow e :: _ => (Throw e, w')
    end.

Definition consoleError (msg : jsstring) : M unit :=
  fun w => (Ret tt, logged (ConsoleError msg) w).

(** [await runCommand(command, args, cwd, input, timeout)]: the promise of
    lines 272-338. The head of [proc_script] is what happens to this call;
    the write of [input] to the child's standard input, which settles
    nothing, is accounted for by [inProcess] below. *)
Definition runCommand (command : jsstring) (args : list jsstring)
    (cwd input : jsstring) (timeout : Z) : M CommandResult :=
  fun w =>
    let w' :=
      {| clock := clock w; uuids := uuids w; fs_script := fs_script w;
         proc_script := tl (proc_script w);
         log := log w ++ [Spawn command args cwd input timeout] |} in
    match awaitChild (hd [] (proc_script w)) with
    | Resolved r => (Ret r, w')
    | Rejected e => (Throw e, w')
    end.

(** ** Paths (POSIX) *)

Definition TEMP_DIR : jsstring := js "/tmp/code-execution".
Definition CACHE_DIR : jsstring := js "/tmp/sentinel-cache".

Definition slash : N := 47%N.

(** The segments of a path, [cur] being the segment read so far. *)
Fixpoint segmentsFrom (cur s : jsstring) : list jsstring :=
  match s with
  | [] => [cur]
  | c :: rest =>
      if (c =? slash)%N then cur :: segmentsFrom [] rest
      else segmentsFrom (cur ++ [c]) rest
  end.

(** Node's [normalizeString]: empty and [.] segments are dropped, and
    [..] removes the segment before it, or stays when there is none and the
    path is relative. [res] holds the segments kept so far, last first. *)
Fixpoint normalizeSegments (allowAboveRoot : bool) (res segs : list jsstring)
    : list jsstring :=
  match segs with
  | [] => rev res
  | seg :: rest =>
      if jseqb seg [] || jseqb seg (js ".") then
        normalizeSegments allowAboveRoot res rest
      else if jseqb seg (js "..") then
        match res with
        | top :: res' =>
            if jseqb top (js "..") then
              normalizeSegments allowAboveRoot
                (if allowAboveRoot then seg :: res else res) rest
            else normalizeSegments allowAboveRoot res' rest
        | [] =>
            normalizeSegments allowAboveRoot
              (if allowAboveRoot then [seg] else []) rest
        end
      else normalizeSegments allowAboveRoot (seg :: res) rest
  end.

(** [path.normalize(p)] (POSIX) *)
Definition normalize (p : jsstring) : jsstring :=
  match p with
  | [] => js "."
  | c :: _ =>
      let isAbsolute := (c =? slash)%N in
      let trailingSeparator :=
        match rev p with
        | d :: _ => (d =? slash)%N
        | [] => false
        end in
      match join [slash] (normalizeSegments (negb isAbsolute) [] (segmentsFrom [] p)) with
      | [] =>
          if isAbsolute then [slash]
          else if trailingSeparator then js "./" else js "."
      | path =>
          let path := if trailingSeparator then path ++ [slash] else path in
          if isAbsolute then slash :: path else path
      end
  end.

(** [path.join(a, b)] (POSIX): the non-empty arguments joined with a
    separator, then normalised. *)
Definition path_join (a b : jsstring) : jsstring :=
  normalize
    (match a, b with
     | [], _ => b
     | _, [] => a
     | _, _ => a ++ [slash] ++ b
     end).

(** [path.dirname(p)] of a path that does not end in a separator. *)
Definition dirname (p : jsstring) : jsstring :=
  match splitFirst (js "/") (rev p) with
  | None => js "."
  | Some (_, []) => js "/"
  | Some (_, parent) => rev parent
  end.

Definition endsWith (s suffix : jsstring) : bool :=
  startsWith (rev suffix) (rev s).

(** ** File helpers of the executor *)

Definition ensureDir (dir : jsstring) : M unit :=
  let* _ := perform (Mkdir dir) in ret tt.

Definition copyFile (src dest : jsstring) : M unit :=
  let* _ := ensureDir (dirname dest) in
  let* _ := perform (CopyFile src dest) in ret tt.

Definition pathExists (p : jsstring) : M bool :=
  try_catch (let* _ := perform (Stat p) in ret true) (fun _ => ret false).

(** [copyDir], by recursion on a bound of the nesting depth. *)
Fixpoint copyDirFuel (fuel : nat) (srcDir destDir : jsstring) : M unit :=
  match fuel with
  | O => ret tt
  | S fuel' =>
      let* _ := ensureDir destDir in
      let* entries := perform (Readdir srcDir) in
      forEach entries (fun entry =>
        let srcPath := path_join srcDir (d_name entry) in
        let destPath := path_join destDir (d_name entry) in
        if isDirectory entry then copyDirFuel fuel' srcPath destPath
        else if isFile entry then copyFile srcPath destPath
        else ret tt)
  end.

(** Every nested call reads a listing off the script, and an exhausted
    script lists nothing: the script length bounds the depth. *)
Definition copyDir (srcDir destDir : jsstring) : M unit :=
  fun w => copyDirFuel (S (length (fs_script w))) srcDir destDir w.


(** ** The executor ([executeCode], with the compile cache) *)

Definition hashContent (content salt : jsstring) : jsstring :=
  Sha256.sha256_hex (salt ++ [10%N] ++ content).

(** The cache key of line 75. *)
Definition cacheKeyOf (langConfig : LanguageConfig) (comp : CompileConfig)
    (code : jsstring) : jsstring :=
  hashContent code
    (name langConfig ++ js ":" ++ c_command comp ++ js ":" ++ join (js " ") (c_args comp)).

(** [arg.replace('{file}', filepath).replace('{dir}', sessionDir)
        .replace('{filename}', filename)] *)
Definition substitute (filepath sessionDir filename arg : jsstring) : jsstring :=
  replace (replace (replace arg (js "{file}") filepath) (js "{dir}") sessionDir)
    (js "{filename}") filename.

(** [langConfig.filename || `main${langConfig.extension}`] *)
Definition filenameOf (langConfig : LanguageConfig) : jsstring :=
  match filename langConfig with
  | Some f => or_else f (js "main" ++ extension langConfig)
  | None => js "main" ++ extension langConfig
  end.

(** [langConfig.compile.timeout || 10000] *)
Definition compileTimeoutOf (comp : CompileConfig) : Z :=
  if c_timeout comp =? 0 then 10000 else c_timeout comp.

(** Lines 81-103: the per-language cache lookup; [true] is a cache hit. *)
Definition cacheLookup (langConfig : LanguageConfig)
    (langCacheDir sessionDir : jsstring) : M bool :=
  if jseqb (name langConfig) (js "cpp") then
    let cachedBin := path_join langCacheDir (js "program") in
    let* found := pathExists cachedBin in
    if found : bool then
      let* _ := copyFile cachedBin (path_join sessionDir (js "program")) in
      ret true
    else ret false
  else if jseqb (name langConfig) (js "java") then
    let* found := pathExists langCacheDir in
    if found : bool then
      let mainClass := path_join langCacheDir (js "Main.class") in
      let* found' := pathExists mainClass in
      if found' : bool then
        let* _ := copyDir langCacheDir sessionDir in
        ret true
      else ret false
    else ret false
  else if jseqb (name langConfig) (js "typescript") then
    let cachedDist := path_join langCacheDir (js "dist") in
    let* found := pathExists (path_join cachedDist (js "main.js")) in
    if found : bool then
      let* _ := copyDir cachedDist (path_join sessionDir (js "dist")) in
      ret true
    else ret false
  else ret false.

(** Lines 130-157: best-effort publication of the artifacts. *)
Definition cacheSave (langConfig : LanguageConfig)
    (langCacheDir sessionDir : jsstring) : M unit :=
  let* _ := try_catch (ensureDir langCacheDir) (fun _ => ret tt) in
  if jseqb (name langConfig) (js "cpp") then
    let bin := path_join sessionDir (js "program") in
    try_catch
      (let* found := pathExists bin in
       if found : bool then copyFile bin (path_join langCacheDir (js "program"))
       else ret tt)
      (fun _ => ret tt)
  else if jseqb (name langConfig) (js "java") then
    try_catch
      (let* entries := perform (Readdir sessionDir) in
       let* _ := ensureDir langCacheDir in
       forEach entries (fun entry =>
         if endsWith (d_name entry) (js ".class")
         then copyFile (path_join sessionDir (d_name entry))
                       (path_join langCacheDir (d_name entry))
         else ret tt))
      (fun _ => ret tt)
  else if jseqb (name langConfig) (js "typescript") then
    let distDir := path_join sessionDir (js "dist") in
    try_catch
      (let* found := pathExists distDir in
       if found : bool then copyDir distDir (path_join langCacheDir (js "dist"))
       else ret tt)
      (fun _ => ret tt)
  else ret tt.

(** Lines 72-159: the compile step. [Some r] is the early [return r] of
    a failed compilation, [None] falls through to the run phase. *)
Definition compileStep (langConfig : LanguageConfig) (comp : CompileConfig)
    (code filepath sessionDir filename : jsstring) (startTime : Z)
    : M (option ExecutionResult) :=
  let* _ := try_catch (ensureDir CACHE_DIR) (fun _ => ret tt) in
  let cacheKey := cacheKeyOf langConfig comp code in
  let langCacheDir := path_join (path_join CACHE_DIR (name langConfig)) cacheKey in
  let* cacheHit := cacheLookup langConfig langCacheDir sessionDir in
  if cacheHit : bool then ret None
  else
    let compileArgs := map (substitute filepath sessionDir filename) (c_args comp) in
    let* compileResult :=
      runCommand (c_command comp) compileArgs sessionDir [] (compileTimeoutOf comp) in
    if negb (exitCode compileResult =? 0) then
      let* t := now in
      ret (Some {| output := [];
                   error := js "Compilation failed: "
                              ++ or_else (stderr compileResult) (stdout compileResult);
                   executionTime := t - startTime;
                   status := StatusError;
                   testCases := None |})
    else
      let* _ := cacheSave langConfig langCacheDir sessionDir in
      ret None.

(** Lines 166-207: one iteration of the test-case loop. *)
Definition runTestCase (langConfig : LanguageConfig)
    (filepath sessionDir filename : jsstring) (testCase : TestCase)
    : M TestCaseResult :=
  let* testStartTime := now in
  try_catch
    (let executeArgs := map (substitute filepath sessionDir filename) (args langConfig) in
     let* result :=
       runCommand (command langConfig) executeArgs sessionDir
         (tc_input testCase) (timeout langConfig) in
     let* t := now in
     let testExecutionTime := t - testStartTime in
     let actualOutput := trim (stdout result) in
     let expected := trim (tc_expected testCase) in
     ret {| tr_input := tc_input testCase;
            tr_expected := tc_expected testCase;
            tr_actualOutput := actualOutput;
            tr_passed := jseqb actualOutput expected;
            tr_error := if truthy (stderr result) then Some (stderr result) else None;
            tr_executionTime := testExecutionTime |})
    (fun error =>
       let* t := now in
       let testExecutionTime := t - testStartTime in
       ret {| tr_input := tc_input testCase;
              tr_expected := tc_expected testCase;
              tr_actualOutput := [];
              tr_passed := false;
              tr_error := Some (messageOf error);
              tr_executionTime := testExecutionTime |}).

(** Lines 165-208: the loop, pushing onto [testCaseResults]. *)
Fixpoint testCaseLoop (langConfig : LanguageConfig)
    (filepath sessionDir filename : jsstring) (cases : list TestCase)
    (testCaseResults : list TestCaseResult) : M (list TestCaseResult) :=
  match cases with
  | [] => ret testCaseResults
  | testCase :: rest =>
      let* r := runTestCase langConfig filepath sessionDir filename testCase in
      testCaseLoop langConfig filepath sessionDir filename rest (testCaseResults ++ [r])
  end.

(** [testCases && testCases.length > 0] *)
Definition hasTestCases (cases : option (list TestCase)) : bool :=
  match cases with
  | Some (_ :: _) => true
  | _ => false
  end.

(** Lines 161-243: test-case mode or the single run. *)
Definition runPhase (langConfig : LanguageConfig)
    (filepath sessionDir filename input : jsstring)
    (cases : option (list TestCase)) (startTime : Z) : M ExecutionResult :=
  if hasTestCases cases then
    let* testCaseResults :=
      testCaseLoop langConfig filepath sessionDir filename (default [] cases) [] in
    let* t := now in
    ret {| output := []; error := []; executionTime := t - startTime;
           status := StatusSuccess; testCases := Some testCaseResults |}
  else
    let executeArgs := map (substitute filepath sessionDir filename) (args langConfig) in
    let* result :=
      runCommand (command langConfig) executeArgs sessionDir input (timeout langConfig) in
    let* t := now in
    ret {| output := stdout result; error := stderr result;
           executionTime := t - startTime; status := StatusSuccess;
           testCases := None |}.

(** Lines 64-159: workspace, source file and compilation. [Some r] is
    the early [return r]. *)
Definition setupPhase (langConfig : LanguageConfig) (code sessionDir : jsstring)
    (startTime : Z) : M (option ExecutionResult) :=
  let* _ := perform (Mkdir sessionDir) in
  let filename := filenameOf langConfig in
  let filepath := path_join sessionDir filename in
  let* _ := perform (WriteFile filepath code) in
  match compile langConfig with
  | Some comp => compileStep langConfig comp code filepath sessionDir filename startTime
  | None => ret None
  end.

(** Lines 64-243: the body of the [try]. *)
Definition tryBody (langConfig : LanguageConfig) (code input : jsstring)
    (cases : option (list TestCase)) (sessionDir : jsstring) (startTime : Z)
    : M ExecutionResult :=
  let filename := filenameOf langConfig in
  let filepath := path_join sessionDir filename in
  let* early := setupPhase langConfig code sessionDir startTime in
  match early with
  | Some r => ret r
  | None => runPhase langConfig filepath sessionDir filename input cases startTime
  end.

(** Lines 245-254: the [catch] clause. *)
Definition catchClause (startTime : Z) (e : thrown) : M ExecutionResult :=
  let* t := now in
  ret {| output := []; error := messageOf e; executionTime := t - startTime;
         status := StatusError; testCases := None |}.

(** Lines 255-262: the [finally] clause. *)
Definition cleanup (sessionDir : jsstring) : M unit :=
  try_catch (let* _ := perform (Rm sessionDir) in ret tt)
    (fun cleanupError => consoleError (js "Cleanup error:")).

Definition executeCode (languages : gmap jsstring LanguageConfig)
    (code language input : jsstring) (cases : option (list TestCase))
    : M ExecutionResult :=
  let* startTime := now in
  match languages !! language with
  | None => throw (ErrorObj (js "Unsupported language: " ++ language))
  | Some langConfig =>
      let* sessionId := uuidv4 in
      let sessionDir := path_join TEMP_DIR sessionId in
      try_finally
        (try_catch (tryBody langConfig code input cases sessionDir startTime)
                   (catchClause startTime))
        (cleanup sessionDir)
  end.

(** ** The executor without the compile cache (the second [executeCode]
    of the repository)

    Its [runCommand] differs from the one above in the spawn options and in
    when standard input is closed, which the world abstracts; the handlers
    are the same, and [input] is written under the same condition. *)

Module Uncached.

(** Lines 33-47: the compile step; the result of the command is dropped. *)
Definition compileStep (comp : CompileConfig)
    (filepath sessionDir filename : jsstring) : M unit :=
  let compileArgs := map (substitute filepath sessionDir filename) (c_args comp) in
  let* _ :=
    runCommand (c_command comp) compileArgs sessionDir [] (compileTimeoutOf comp) in
  ret tt.

Definition tryBody (langConfig : LanguageConfig) (code input : jsstring)
    (cases : option (list TestCase)) (sessionDir : jsstring) (startTime : Z)
    : M ExecutionResult :=
  let* _ := perform (Mkdir sessionDir) in
  let filename := filenameOf langConfig in
  let filepath := path_join sessionDir filename in
  let* _ := perform (WriteFile filepath code) in
  let* _ :=
    match compile langConfig with
    | Some comp => compileStep comp filepath sessionDir filename
    | None => ret tt
    end in
  runPhase langConfig filepath sessionDir filename input cases startTime.

Definition executeCode (languages : gmap jsstring LanguageConfig)
    (code language input : jsstring) (cases : option (list TestCase))
    : M ExecutionResult :=
  let* startTime := now in
  match languages !! language with
  | None => throw (ErrorObj (js "Unsupported language: " ++ language))
  | Some langConfig =>
      let* sessionId := uuidv4 in
      let sessionDir := path_join TEMP_DIR sessionId in
      try_finally
        (try_catch (tryBody langConfig code input cases sessionDir startTime)
                   (catchClause startTime))
        (cleanup sessionDir)
  end.

End Uncached.

(** ** The dispatcher's load balancer ([master.ts]) *)

Module Master.

(** A Bull queue as the dispatcher sees it: its broker name and what
    [getWaiting()] answers, the waiting jobs or a rejection. *)
Record Queue := {
  queueName : jsstring;
  getWaiting : outcome (list jsstring)
}.

Definition getContainersForLanguage (language : jsstring)
    : outcome (list jsstring) :=
  if jseqb language (js "python") then Ret [js "python-1"; js "python-2"]
  else if jseqb language (js "java") then Ret [js "java-1"; js "java-2"]
  else if jseqb language (js "javascript") then Ret [js "javascript-1"]
  else if jseqb language (js "cpp") then Ret [js "cpp-1"]
  else if jseqb language (js "go") then Ret [js "go-1"]
  else Throw (ErrorObj (js "Unsupported language: " ++ language)).

(** [await codeQueues[container].getWaiting()], recording the lookup. *)
Definition lookupWaiting (codeQueues : gmap jsstring Queue)
    (container : jsstring) (lookups : list jsstring)
    : outcome (list jsstring) * list jsstring :=
  match codeQueues !! container with
  | Some q => (getWaiting q, lookups ++ [container])
  | None => (Throw (ErrorObj (js "Cannot read properties of undefined (reading 'getWaiting')")), lookups)
  end.

(** Lines 127-133: the loop over [containers.slice(1)]. *)
Fixpoint selectLoop (codeQueues : gmap jsstring Queue) (rest : list jsstring)
    (bestContainer : jsstring) (lowestQueueSize : list jsstring)
    (lookups : list jsstring) : outcome jsstring * list jsstring :=
  match rest with
  | [] => (Ret bestContainer, lookups)
  | container :: rest' =>
      match lookupWaiting codeQueues container lookups with
      | (Ret queueSize, lookups') =>
          if (length queueSize <? length lowestQueueSize)%nat
          then selectLoop codeQueues rest' container queueSize lookups'
          else selectLoop codeQueues rest' bestContainer lowestQueueSize lookups'
      | (Throw e, lookups') => (Throw e, lookups')
      end
  end.

(** The selection among the given containers (lines 119-135). *)
Definition selectAmong (codeQueues : gmap jsstring Queue)
    (containers : list jsstring) : outcome jsstring * list jsstring :=
  match containers with
  | [only] => (Ret only, [])
  | bestContainer :: rest =>
      match lookupWaiting codeQueues bestContainer [] with
      | (Ret lowestQueueSize, lookups) =>
          selectLoop codeQueues rest bestContainer lowestQueueSize lookups
      | (Throw e, lookups) => (Throw e, lookups)
      end
  | [] => (Throw (ErrorObj (js "Cannot read properties of undefined (reading 'getWaiting')")), [])
  end.

(** The selected container and the queues whose waiting list was read. *)
Definition selectContainer (codeQueues : gmap jsstring Queue)
    (language : jsstring) : outcome jsstring * list jsstring :=
  match getContainersForLanguage language with
  | Ret containers => selectAmong codeQueues containers
  | Throw e => (Throw e, [])
  end.

(** The waiting depth of a container's queue. *)
Definition waitingDepth (codeQueues : gmap jsstring Queue)
    (container : jsstring) : nat :=
  match codeQueues !! container with
  | Some {| getWaiting := Ret jobs |} => length jobs
  | _ => 0
  end.

(** Every listed container has a queue whose lookup succeeds. *)
Definition reachable (codeQueues : gmap jsstring Queue)
    (containers : list jsstring) : Prop :=
  forall c, c ∈ containers ->
    exists q jobs, codeQueues !! c = Some q /\ getWaiting q = Ret jobs.

End Master.

(** ** Vocabulary of the statements *)

(** The world in which the [try] block of [executeCode] starts: the start
    time and the session id have been drawn. *)
Definition entered (w : World) : World :=
  {| clock := tl (clock w); uuids := tl (uuids w); fs_script := fs_script w;
     proc_script := proc_script w; log := log w |}.

Definition startTimeOf (w : World) : Z := hd 0 (clock w).

Definition sessionDirOf (w : World) : jsstring :=
  path_join TEMP_DIR (hd [] (uuids w)).

Definition filepathOf (langConfig : LanguageConfig) (w : World) : jsstring :=
  path_join (sessionDirOf w) (filenameOf langConfig).

Definition isData (ev : proc_event) : bool :=
  match ev with
  | StdoutData _ | StderrData _ => true
  | _ => false
  end.

(** What the chunks of a trace add up to on each stream. *)
Fixpoint stdoutOf (events : list proc_event) : jsstring :=
  match events with
  | [] => []
  | StdoutData data :: rest => data ++ stdoutOf rest
  | _ :: rest => stdoutOf rest
  end.

Fixpoint stderrOf (events : list proc_event) : jsstring :=
  match events with
  | [] => []
  | StderrData data :: rest => data ++ stderrOf rest
  | _ :: rest => stderrOf rest
  end.

(** A child that runs to completion: only data within the caps, then
    [close] with [code]; whatever follows is [rest]. *)
Definition completes (events chunks : list proc_event) (code : option Z)
    (rest : list proc_event) : Prop :=
  events = chunks ++ Close code :: rest
  /\ forallb isData chunks = true
  /\ jslength (stdoutOf chunks) <= MAX_OUTPUT_SIZE
  /\ jslength (stderrOf chunks) <= MAX_OUTPUT_SIZE.

(** The [error] events of a trace and the errors thrown by [spawn]
    carry a message, as Node's do. *)
Definition saneTrace (events : list proc_event) : Prop :=
  forall m, ProcError m ∈ events \/ SpawnThrew m ∈ events -> m <> [].

Definition saneThrown (e : thrown) : Prop := messageOf e <> [].

Definition saneAnswer (a : fs_answer) : Prop :=
  match a with
  | FsOk _ => True
  | FsThrow e => saneThrown e
  end.

(** A world whose errors all carry a message. *)
Definition saneWorld (w : World) : Prop :=
  Forall saneAnswer (fs_script w) /\ Forall saneTrace (proc_script w).

(** The [i]-th child spawned from world [w] on. *)
Definition childAt (w : World) (i : nat) : list proc_event :=
  nth i (proc_script w) [].

(** The children spawned according to a call log. *)
Fixpoint spawnsOf (l : list call) : list call :=
  match l with
  | [] => []
  | Spawn cmd argv cwd input ms :: rest => Spawn cmd argv cwd input ms :: spawnsOf rest
  | _ :: rest => spawnsOf rest
  end.

(** What one iteration of the test-case loop records for a case, given
    how its child settled and the time the iteration measured. *)
Definition caseResult (testCase : TestCase) (s : settlement) (elapsed : Z)
    : TestCaseResult :=
  match s with
  | Resolved result =>
      {| tr_input := tc_input testCase;
         tr_expected := tc_expected testCase;
         tr_actualOutput := trim (stdout result);
         tr_passed := jseqb (trim (stdout result)) (trim (tc_expected testCase));
         tr_error := if truthy (stderr result) then Some (stderr result) else None;
         tr_executionTime := elapsed |}
  | Rejected e =>
      {| tr_input := tc_input testCase;
         tr_expected := tc_expected testCase;
         tr_actualOutput := [];
         tr_passed := false;
         tr_error := Some (messageOf e);
         tr_executionTime := elapsed |}
  end.

(** The world after one child has been spawned and awaited. *)
Definition spawned (c : call) (w : World) : World :=
  {| clock := clock w; uuids := uuids w; fs_script := fs_script w;
     proc_script := tl (proc_script w); log := log w ++ [c] |}.

Definition ticked (w : World) : World :=
  {| clock := tl (clock w); uuids := uuids w; fs_script := fs_script w;
     proc_script := proc_script w; log := log w |}.

(** The call by which the run phase spawns the program on [input]. *)
Definition runCall (langConfig : LanguageConfig) (filepath sessionDir filename
    input : jsstring) : call :=
  Spawn (command langConfig)
    (map (substitute filepath sessionDir filename) (args langConfig))
    sessionDir input (timeout langConfig).

(** The world after one iteration of the test-case loop. *)
Definition afterCase (langConfig : LanguageConfig) (filepath sessionDir filename
    : jsstring) (testCase : TestCase) (w : World) : World :=
  ticked (spawned (runCall langConfig filepath sessionDir filename
                     (tc_input testCase)) (ticked w)).

(** The results of the loop and the world it leaves. *)
Fixpoint caseResults (langConfig : LanguageConfig) (filepath sessionDir filename
    : jsstring) (cases : list TestCase) (w : World) : list TestCaseResult :=
  match cases with
  | [] => []
  | testCase :: rest =>
      caseResult testCase (awaitChild (hd [] (proc_script w)))
        (hd 0 (tl (clock w)) - hd 0 (clock w))
      :: caseResults langConfig filepath sessionDir filename rest
           (afterCase langConfig filepath sessionDir filename testCase w)
  end.

Fixpoint afterCases (langConfig : LanguageConfig) (filepath sessionDir filename
    : jsstring) (cases : list TestCase) (w : World) : World :=
  match cases with
  | [] => w
  | testCase :: rest =>
      afterCases langConfig filepath sessionDir filename rest
        (afterCase langConfig filepath sessionDir filename testCase w)
  end.

(** The result of the [catch] clause for a thrown value. *)
Definition failure (e : thrown) (elapsed : Z) : ExecutionResult :=
  {| output := []; error := messageOf e; executionTime := elapsed;
     status := StatusError; testCases := None |}.

(** The opening brace, first code unit of every substitution token. *)
Definition brace : N := 123%N.

Definition braceFree (s : jsstring) : Prop := brace ∉ s.

(** A string with no white space at its head. *)
Definition headed (s : jsstring) : Prop :=
  match s with
  | [] => True
  | c :: _ => is_white c = false
  end.

(** What holds of the closure state of [runCommand] after any events. *)
Record proc_inv (st : proc_state) : Prop := {
  inv_pending : ps_promise st = None -> ps_timer st = true /\ ps_killed st = false;
  inv_alive :
    ps_killed st = false ->
    jslength (ps_stdout st) <= MAX_OUTPUT_SIZE
    /\ jslength (ps_stderr st) <= MAX_OUTPUT_SIZE;
  inv_resolved :
    forall r, ps_promise st = Some (Resolved r) ->
      jslength (stdout r) <= MAX_OUTPUT_SIZE /\ jslength (stderr r) <= MAX_OUTPUT_SIZE;
  inv_killed : ps_killed st = true -> (1 <= ps_sigkills st)%nat
}.

(** In a sane world the computation leaves a sane world and throws only
    values with a message. *)
Definition safe {A} (m : M A) : Prop :=
  forall w, saneWorld w ->
    saneWorld (m w).2 /\ forall e, (m w).1 = Throw e -> saneThrown e.

(** The computation never lengthens the script of file-system answers. *)
Definition shrinks {A} (m : M A) : Prop :=
  forall w, (length (fs_script (m w).2) <= length (fs_script w))%nat.

(** Lines 64-103 for a language with a compile step: everything up to
    the cache lookup; [false] is a cache miss. *)
Definition beforeCompile (langConfig : LanguageConfig) (comp : CompileConfig)
    (code sessionDir : jsstring) : M bool :=
  let* _ := perform (Mkdir sessionDir) in
  let* _ := perform (WriteFile (path_join sessionDir (filenameOf langConfig)) code) in
  let* _ := try_catch (ensureDir CACHE_DIR) (fun _ => ret tt) in
  cacheLookup langConfig
    (path_join (path_join CACHE_DIR (name langConfig))
       (cacheKeyOf langConfig comp code))
    sessionDir.

(** The call by which the compile step spawns the compiler. *)
Definition compileCall (langConfig : LanguageConfig) (comp : CompileConfig)
    (sessionDir : jsstring) : call :=
  Spawn (c_command comp)
    (map (substitute (path_join sessionDir (filenameOf langConfig)) sessionDir
            (filenameOf langConfig)) (c_args comp))
    sessionDir [] (compileTimeoutOf comp).

(** A chunk of [MAX_OUTPUT_SIZE + 1] code units. *)
Definition overflowing : jsstring :=
  repeat 120%N (Z.to_nat (MAX_OUTPUT_SIZE + 1)).

(** A chunk of [MAX_OUTPUT_SIZE] euro signs (U+20AC), each of them three
    bytes in UTF-8. *)
Definition euros : jsstring :=
  repeat 8364%N (Z.to_nat MAX_OUTPUT_SIZE).

(** [Buffer.byteLength(s, 'utf8')] *)
Definition byteLength (s : jsstring) : Z :=
  Z.of_nat (length (Sha256.utf8 s)).

(** ** Sample configurations and worlds *)

Module Sample.

Definition pythonConfig : LanguageConfig :=
  {| name := js "python"; displayName := js "Python"; extension := js ".py";
     command := js "python3"; args := [js "{file}"]; timeout := 5000;
     compile := None; filename := None |}.

Definition gpp : CompileConfig :=
  {| c_command := js "g++";
     c_args := [js "{file}"; js "-o"; js "{dir}/program"];
     c_timeout := 10000 |}.

Definition cppConfig : LanguageConfig :=
  {| name := js "cpp"; displayName := js "C++"; extension := js ".cpp";
     command := js "./program"; args := []; timeout := 5000;
     compile := Some gpp; filename := None |}.

Definition languages : gmap jsstring LanguageConfig :=
  <[js "cpp" := cppConfig]> {[ js "python" := pythonConfig ]}.

(** A world with session id [s1], a clock ticking from 1000 by tens, the
    given file-system answers and the given children. *)
Definition world (answers : list fs_answer) (children : list (list proc_event))
    : World :=
  {| clock := [1000; 1010; 1020; 1030; 1040; 1050; 1060; 1070];
     uuids := [js "s1"]; fs_script := answers; proc_script := children;
     log := [] |}.

Definition enoent : fs_answer :=
  FsThrow (ErrorObj (js "ENOENT: no such file or directory")).

(** The answers on the way to a compilation of C++ with a cold cache:
    workspace, source file and cache root succeed, the cached binary is
    missing. *)
Definition coldCache : list fs_answer := [FsOk []; FsOk []; FsOk []; enoent].

Definition hello : jsstring := js "print(1)".

(** Two Python queues, the first with two waiting jobs, the second with
    one. *)
Definition queues : gmap jsstring Master.Queue :=
  <[js "python-2" := {| Master.queueName := js "python-executor-2";
                        Master.getWaiting := Ret [js "job-3"] |}]>
    {[ js "python-1" := {| Master.queueName := js "python-executor-1";
                           Master.getWaiting := Ret [js "job-1"; js "job-2"] |} ]}.

Definition brokenCpp : jsstring := js "int main( { }".

(** The message of the RangeError that Node's [spawn] throws for the
    option [timeout: -1]. *)
Definition timeoutOutOfRange : jsstring :=
  js "The value of " ++ [34%N] ++ js "timeout" ++ [34%N]
  ++ js " is out of range. It must be an unsigned integer. Received -1".

End Sample.

(** ** More vocabulary: logs, quiet computations, rejected children *)

(** The computation only adds calls to the log. *)
Definition extends {A} (m : M A) : Prop :=
  forall w, exists l, log (m w).2 = log w ++ l.

(** The computation talks to the file system only: it spawns nothing and
    leaves the clock, the uuids and the children alone. *)
Definition quiet {A} (m : M A) : Prop :=
  forall w,
    clock (m w).2 = clock w /\ uuids (m w).2 = uuids w
    /\ proc_script (m w).2 = proc_script w
    /\ exists l, log (m w).2 = log w ++ l /\ spawnsOf l = [].

(** The call is one awaited [fs] call: it takes one answer of the file
    system. *)
Definition isFsCall (c : call) : bool :=
  match c with
  | Spawn _ _ _ _ _ | ConsoleError _ => false
  | _ => true
  end.

(** The number of [fs] calls in a log. *)
Fixpoint fsCount (l : list call) : nat :=
  match l with
  | [] => 0
  | c :: rest => (if isFsCall c then 1 else 0) + fsCount rest
  end.

(** The computation takes the answers of the file system and the
    children off the scripts in the order of its calls: one answer per [fs]
    call and one child per [runCommand]. *)
Definition metered {A} (m : M A) : Prop :=
  forall w, exists l,
    log (m w).2 = log w ++ l
    /\ fs_script (m w).2 = drop (fsCount l) (fs_script w)
    /\ proc_script (m w).2 = drop (length (spawnsOf l)) (proc_script w).

(** ** The process around the promises

    [runCommand] ends by writing [input] to the standard input of the
    child (lines 331-337, and lines 219-222 of the executor without the
    cache). The write is not awaited and [process.stdin] has no [error]
    listener. A write that fails (EPIPE: the child has exited, or has closed
    its standard input, before it read all of a large input) therefore
    settles no promise: the stream emits [error], Node turns the unhandled
    event into an uncaught exception, for which the repository installs no
    handler, and the process ends. The computations of type [M] say what
    the promises do as long as the process lives; [inProcess] says whether
    it does. *)

(** [spawn] threw: there is no child, and the write is not reached. *)
Definition spawnThrew (events : list proc_event) : bool :=
  match events with
  | SpawnThrew _ :: _ => true
  | _ => false
  end.

(** [if (input) { process.stdin.write(input); }]: the call writes to the
    standard input of its child. *)
Definition writesInput (c : call) (events : list proc_event) : bool :=
  match c with
  | Spawn _ _ _ input _ => truthy input && negb (spawnThrew events)
  | _ => false
  end.

(** Some write to a child's standard input fails. [spawns] are the
    [runCommand] calls in order and [traces] the events of their children;
    [breaks] says, child by child, what becomes of a write to its standard
    input: [true] when it fails. *)
Fixpoint brokenPipe (spawns : list call) (traces : list (list proc_event))
    (breaks : list bool) : bool :=
  match spawns with
  | [] => false
  | c :: spawns' =>
      writesInput c (hd [] traces) && hd false breaks
      || brokenPipe spawns' (tl traces) (tl breaks)
  end.

(** The [runCommand] calls that [m] makes from the world [w]. *)
Definition spawnedBy {A} (m : M A) (w : World) : list call :=
  drop (length (spawnsOf (log w))) (spawnsOf (log (m w).2)).

(** [m] in the Node process: [None] when a failing write to a child's
    standard input ends the process, and what the promises give
    otherwise. *)
Definition inProcess {A} (breaks : list bool) (m : M A) (w : World)
    : option (outcome A * World) :=
  if brokenPipe (spawnedBy m w) (proc_script w) breaks then None else Some (m w).

(** A child killed by the timer: only data within the caps, then the
    timer fires; whatever follows is [rest]. *)
Definition timesOut (events chunks rest : list proc_event) : Prop :=
  events = chunks ++ TimerFired :: rest
  /\ forallb isData chunks = true
  /\ jslength (stdoutOf chunks) <= MAX_OUTPUT_SIZE
  /\ jslength (stderrOf chunks) <= MAX_OUTPUT_SIZE.

(** The three messages [runCommand] makes up itself. *)
Definition ownMessages : list jsstring :=
  [ js "Execution timeout"; js "Output size exceeded limit";
    js "Error output size exceeded limit" ].

(** The language has one of the three cache families of lines 81-103. *)
Definition cacheFamily (langConfig : LanguageConfig) : bool :=
  jseqb (name langConfig) (js "cpp") || jseqb (name langConfig) (js "java")
  || jseqb (name langConfig) (js "typescript").

(** The cached binary of a C++ job. *)
Definition cachedBinOf (langConfig : LanguageConfig) (comp : CompileConfig)
    (code : jsstring) : jsstring :=
  path_join
    (path_join (path_join CACHE_DIR (name langConfig))
       (cacheKeyOf langConfig comp code))
    (js "program").

(** The world after one awaited [fs] call. *)
Definition answered (c : call) (w : World) : World :=
  {| clock := clock w; uuids := uuids w; fs_script := tl (fs_script w);
     proc_script := proc_script w; log := log w ++ [c] |}.

(** The closure state of [runCommand] while nothing but data within the
    caps has arrived. *)
Definition listening (out err : jsstring) : proc_state :=
  {| ps_stdout := out; ps_stderr := err; ps_killed := false; ps_timer := true;
     ps_sigkills := 0; ps_promise := None |}.

(** The children the run phase spawns: one per test case, or the single
    run on [input]. *)
Definition runCalls (langConfig : LanguageConfig) (filepath sessionDir filename
    input : jsstring) (cases : option (list TestCase)) : list call :=
  if hasTestCases cases
  then map (fun tc => runCall langConfig filepath sessionDir filename (tc_input tc))
         (default [] cases)
  else [runCall langConfig filepath sessionDir filename input].

(** A file-system answer that is not an error. *)
Definition isOk (a : fs_answer) : Prop := exists entries, a = FsOk entries.

(** The calls by which [copyFile] copies one entry of [srcDir]. *)
Definition copyCalls (srcDir destDir : jsstring) (entry : dirent) : list call :=
  [Mkdir (dirname (path_join destDir (d_name entry)));
   CopyFile (path_join srcDir (d_name entry)) (path_join destDir (d_name entry))].

(** The calls of [copyDir] for one entry of a directory whose
    subdirectories are empty. *)
Definition entryCalls (srcDir destDir : jsstring) (entry : dirent) : list call :=
  if isDirectory entry then
    [Mkdir (path_join destDir (d_name entry)); Readdir (path_join srcDir (d_name entry))]
  else if isFile entry then copyCalls srcDir destDir entry
  else [].

(** ** The language registry ([languageManager.ts]) *)

Module LanguageManager.

(** What [JSON.parse] made of a descriptor file, as far as the registry
    looks at it: [null], a primitive, or an object with those of the
    properties of a [LanguageConfig] that it has (an array is an object with
    none of them). A property that is there has the type [types.ts] gives
    it. *)
Record Descriptor := {
  o_name : option jsstring;
  o_displayName : option jsstring;
  o_extension : option jsstring;
  o_command : option jsstring;
  o_args : option (list jsstring);
  o_timeout : option Z;
  o_compile : option CompileConfig;
  o_filename : option jsstring
}.

Inductive parsed :=
  | Null
  | Primitive
  | Object (o : Descriptor).

Definition present {A} (x : option A) : bool :=
  match x with Some _ => true | None => false end.

(** [field in config], for the property names of a [LanguageConfig]. *)
Definition hasProperty (field : jsstring) (o : Descriptor) : bool :=
  if jseqb field (js "name") then present (o_name o)
  else if jseqb field (js "displayName") then present (o_displayName o)
  else if jseqb field (js "extension") then present (o_extension o)
  else if jseqb field (js "command") then present (o_command o)
  else if jseqb field (js "args") then present (o_args o)
  else if jseqb field (js "timeout") then present (o_timeout o)
  else if jseqb field (js "compile") then present (o_compile o)
  else if jseqb field (js "filename") then present (o_filename o)
  else false.

Definition required : list jsstring :=
  [js "name"; js "displayName"; js "extension"; js "command"; js "args";
   js "timeout"].

(** [required.every(field => config && typeof config === 'object' &&
    field in config)] *)
Definition validateLanguageConfig (config : parsed) : bool :=
  forallb (fun field =>
             match config with
             | Null => false
             | Primitive => false
             | Object o => hasProperty field o
             end) required.

(** [config.name] and [config.displayName]; [None] is [undefined]. *)
Definition get_name (config : parsed) : outcome (option jsstring) :=
  match config with
  | Null => Throw (ErrorObj (js "Cannot read properties of null (reading 'name')"))
  | Primitive => Ret None
  | Object o => Ret (o_name o)
  end.

Definition get_displayName (config : parsed) : outcome (option jsstring) :=
  match config with
  | Null => Throw (ErrorObj (js "Cannot read properties of null (reading 'displayName')"))
  | Primitive => Ret None
  | Object o => Ret (o_displayName o)
  end.

(** A JavaScript [Map] from names to descriptors: the entries in
    insertion order. *)
Definition Map := list (option jsstring * parsed).

(** [map.set(key, value)]: a key that is there keeps its place. *)
Fixpoint Map_set (key : option jsstring) (value : parsed) (m : Map) : Map :=
  match m with
  | [] => [(key, value)]
  | (k, v) :: rest =>
      if decide (k = key) then (k, value) :: rest
      else (k, v) :: Map_set key value rest
  end.

Fixpoint Map_get (key : option jsstring) (m : Map) : option parsed :=
  match m with
  | [] => None
  | (k, v) :: rest => if decide (k = key) then Some v else Map_get key rest
  end.

Definition Map_has (key : option jsstring) (m : Map) : bool :=
  present (Map_get key m).

(** What the registry does to the outside, in order. *)
Inductive event :=
  | ReadDir (dir : jsstring)
  | ReadFile (filePath : jsstring)
  | SaidInvalid (file : jsstring)
  | SaidLoaded (displayName name : option jsstring)
  | SaidCount (size : nat)
  | SaidError (error : thrown).

(** The configuration directory and the answers of the file system and
    of [JSON.parse]. *)
Record Env := {
  configDir : jsstring;
  readdir : outcome (list jsstring);
  readFile : jsstring -> outcome jsstring;
  JSON_parse : jsstring -> outcome parsed
}.

Record Manager := {
  languages : Map;
  trace : list event
}.

(** [new LanguageManager()] *)
Definition fresh : Manager := {| languages := []; trace := [] |}.

Definition traced (ev : event) (m : Manager) : Manager :=
  {| languages := languages m; trace := trace m ++ [ev] |}.

Definition setLanguage (key : option jsstring) (config : parsed) (m : Manager)
    : Manager :=
  {| languages := Map_set key config (languages m); trace := trace m |}.

(** Lines 18-31: the loop over the [.json] files. *)
Fixpoint loadLoop (env : Env) (jsonFiles : list jsstring) (m : Manager)
    : outcome unit * Manager :=
  match jsonFiles with
  | [] => (Ret tt, m)
  | file :: rest =>
      let filePath := path_join (configDir env) file in
      let m := traced (ReadFile filePath) m in
      match readFile env filePath with
      | Throw e => (Throw e, m)
      | Ret content =>
          match JSON_parse env content with
          | Throw e => (Throw e, m)
          | Ret config =>
              if negb (validateLanguageConfig config) then
                loadLoop env rest (traced (SaidInvalid file) m)
              else
                match get_name config with
                | Throw e => (Throw e, m)
                | Ret name =>
                    let m := setLanguage name config m in
                    match get_displayName config with
                    | Throw e => (Throw e, m)
                    | Ret displayName =>
                        loadLoop env rest (traced (SaidLoaded displayName name) m)
                    end
                end
          end
      end
  end.

(** Lines 15-33: the body of the [try]. *)
Definition loadBody (env : Env) (m : Manager) : outcome unit * Manager :=
  let m := traced (ReadDir (configDir env)) m in
  match readdir env with
  | Throw e => (Throw e, m)
  | Ret files =>
      let jsonFiles := List.filter (fun file => endsWith file (js ".json")) files in
      match loadLoop env jsonFiles m with
      | (Ret _, m) => (Ret tt, traced (SaidCount (length (languages m))) m)
      | (Throw e, m) => (Throw e, m)
      end
  end.

Definition loadLanguages (env : Env) (m : Manager) : outcome unit * Manager :=
  match loadBody env m with
  | (Ret _, m) => (Ret tt, m)
  | (Throw e, m) => (Throw e, traced (SaidError e) m)
  end.

Definition getLanguage (name : jsstring) (m : Manager) : option parsed :=
  Map_get (Some name) (languages m).

Definition getSupportedLanguages (m : Manager) : list (option jsstring) :=
  map fst (languages m).

Definition getAllLanguages (m : Manager) : list parsed :=
  map snd (languages m).

Definition isSupported (language : jsstring) (m : Manager) : bool :=
  Map_has (Some language) (languages m).

Record LanguageInfo := {
  li_name : option jsstring;
  li_displayName : option jsstring
}.

Fixpoint infoOf (langs : list parsed) : outcome (list LanguageInfo) :=
  match langs with
  | [] => Ret []
  | lang :: rest =>
      match get_name lang, get_displayName lang with
      | Ret name, Ret displayName =>
          match infoOf rest with
          | Ret infos => Ret ({| li_name := name; li_displayName := displayName |} :: infos)
          | Throw e => Throw e
          end
      | Throw e, _ => Throw e
      | _, Throw e => Throw e
      end
  end.

Definition getLanguageInfo (m : Manager) : outcome (list LanguageInfo) :=
  infoOf (getAllLanguages m).

(** The files [loadLanguages] reads. *)
Definition jsonFilesOf (files : list jsstring) : list jsstring :=
  List.filter (fun file => endsWith file (js ".json")) files.

(** [file] is read and parsed into [config]. *)
Definition parses (env : Env) (file : jsstring) (config : parsed) : Prop :=
  exists content,
    readFile env (path_join (configDir env) file) = Ret content
    /\ JSON_parse env content = Ret config.

(** Reading or parsing [file] throws [e]. *)
Definition fails (env : Env) (file : jsstring) (e : thrown) : Prop :=
  readFile env (path_join (configDir env) file) = Throw e
  \/ exists content,
       readFile env (path_join (configDir env) file) = Ret content
       /\ JSON_parse env content = Throw e.

(** A valid descriptor named [n]. *)
Definition namedBy (n : jsstring) (config : parsed) : bool :=
  match config with
  | Object o => validateLanguageConfig config && bool_decide (o_name o = Some n)
  | _ => false
  end.

(** The last valid descriptor named [n] of a list. *)
Fixpoint registeredBy (n : jsstring) (configs : list parsed) : option parsed :=
  match configs with
  | [] => None
  | config :: rest =>
      match registeredBy n rest with
      | Some later => Some later
      | None => if namedBy n config then Some config else None
      end
  end.

(** The files read according to a trace. *)
Fixpoint readsOf (evs : list event) : list jsstring :=
  match evs with
  | [] => []
  | ReadFile filePath :: rest => filePath :: readsOf rest
  | _ :: rest => readsOf rest
  end.

(** The entries of a registry are valid descriptors under their own
    name, each name once. *)
Definition ordered (l : Map) : Prop :=
  NoDup (map fst l)
  /\ forall k config, (k, config) ∈ l ->
       validateLanguageConfig config = true /\ get_name config = Ret k.

(** The state after each of a series of start-ups. *)
Definition afterLoads (envs : list Env) : Manager :=
  fold_left (fun m env => (loadLanguages env m).2) envs fresh.

End LanguageManager.

(** A configuration directory with three descriptors and a note. *)
Module SampleRegistry.
Import LanguageManager.

Definition python : Descriptor :=
  {| o_name := Some (js "python"); o_displayName := Some (js "Python");
     o_extension := Some (js ".py"); o_command := Some (js "python3");
     o_args := Some [js "{file}"]; o_timeout := Some 5000;
     o_compile := None; o_filename := None |}.

(** A second descriptor of the same name. *)
Definition pypy : Descriptor :=
  {| o_name := Some (js "python"); o_displayName := Some (js "PyPy");
     o_extension := Some (js ".py"); o_command := Some (js "pypy3");
     o_args := Some [js "{file}"]; o_timeout := Some 5000;
     o_compile := None; o_filename := None |}.

(** A descriptor without [timeout]. *)
Definition draft : Descriptor :=
  {| o_name := Some (js "go"); o_displayName := Some (js "Go");
     o_extension := Some (js ".go"); o_command := Some (js "go");
     o_args := Some [js "run"; js "{file}"]; o_timeout := None;
     o_compile := None; o_filename := None |}.

Definition syntaxError : thrown :=
  ErrorObj (js "Unexpected end of JSON input").

(** File contents stand for themselves; [truncated] does not parse. *)
Definition parse (content : jsstring) : outcome parsed :=
  if jseqb content (js "python") then Ret (Object python)
  else if jseqb content (js "pypy") then Ret (Object pypy)
  else if jseqb content (js "draft") then Ret (Object draft)
  else if jseqb content (js "null") then Ret Null
  else Throw syntaxError.

Definition read (filePath : jsstring) : outcome jsstring :=
  if jseqb filePath (js "/app/config/languages/a.json") then Ret (js "python")
  else if jseqb filePath (js "/app/config/languages/b.json") then Ret (js "draft")
  else if jseqb filePath (js "/app/config/languages/c.json") then Ret (js "pypy")
  else if jseqb filePath (js "/app/config/languages/d.json") then Ret (js "truncated")
  else Throw (ErrorObj (js "ENOENT: no such file or directory")).

Definition env (files : list jsstring) : Env :=
  {| configDir := js "/app/config/languages"; readdir := Ret files;
     readFile := read; JSON_parse := parse |}.

End SampleRegistry.

(** ** The dispatcher's routes ([master.ts]) and the workers' queue names
    ([executor-worker.ts]) *)

Module Worker.

(** The [queueMapping] of [getQueueName]. *)
Definition queueMapping : list (jsstring * jsstring) :=
  [(js "python-1", js "python-executor-1");
   (js "python-2", js "python-executor-2");
   (js "java-1", js "java-executor-1");
   (js "java-2", js "java-executor-2");
   (js "javascript-1", js "javascript-executor");
   (js "cpp-1", js "cpp-executor");
   (js "go-1", js "go-executor")].

(** The members an object literal inherits from [Object.prototype]. *)
Definition inherited : list jsstring :=
  [js "constructor"; js "__defineGetter__"; js "__defineSetter__";
   js "hasOwnProperty"; js "__lookupGetter__"; js "__lookupSetter__";
   js "isPrototypeOf"; js "propertyIsEnumerable"; js "toString"; js "valueOf";
   js "__proto__"; js "toLocaleString"].

Fixpoint own (key : jsstring) (entries : list (jsstring * jsstring))
    : option jsstring :=
  match entries with
  | [] => None
  | (k, v) :: rest => if jseqb k key then Some v else own key rest
  end.

(** [queueMapping[executorId] || executorId]; [None] stands for an
    inherited member, which is not a string. *)
Definition getQueueName (executorId : jsstring) : option jsstring :=
  match own executorId queueMapping with
  | Some queue => if truthy queue then Some queue else Some executorId
  | None =>
      if bool_decide (executorId ∈ inherited) then None else Some executorId
  end.

End Worker.

Module Routes.

Inductive JobStatus := Queued | Active | Completed | Failed.

Record JobData := {
  jd_id : jsstring;
  jd_code : jsstring;
  jd_language : jsstring;
  jd_input : jsstring;
  jd_testCases : option (list TestCase);
  jd_timestamp : jsstring
}.

Record JobOptions := {
  jobId : jsstring;
  attempts : Z;
  backoff_type : jsstring;
  backoff_delay : Z;
  removeOnComplete : Z;
  removeOnFail : Z
}.

Record JobResult := {
  jr_id : jsstring;
  jr_status : JobStatus;
  jr_output : option jsstring;
  jr_error : option jsstring;
  jr_executionTime : option Z;
  jr_testCases : option (list TestCaseResult);
  jr_timestamp : jsstring;
  jr_message : option jsstring;
  jr_progress : option Z
}.

Record Response := {
  statusCode : Z;
  body : JobResult
}.

(** The body of a request to [/execute]; [None] is an absent
    property. *)
Record ExecuteCodeRequest := {
  b_code : option jsstring;
  b_language : option jsstring;
  b_input : option jsstring;
  b_testCases : option (list TestCase)
}.

(** A Bull job as [/job/:id] reads it. *)
Record Job := {
  getState : outcome jsstring;
  progress : Z;
  returnvalue : option ExecutionResult;
  failedReason : option jsstring
}.

(** What Bull answers, by queue name. *)
Record Bull := {
  waitingOf : jsstring -> outcome (list jsstring);
  activeOf : jsstring -> outcome (list jsstring);
  completedOf : jsstring -> outcome (list jsstring);
  failedOf : jsstring -> outcome (list jsstring);
  isReady : jsstring -> outcome unit;
  getJob : jsstring -> jsstring -> outcome (option Job);
  add : jsstring -> JobData -> outcome unit
}.

(** The calls of a route, in order. *)
Inductive rcall :=
  | Ping
  | IsReady (container : jsstring)
  | GetWaiting (container : jsstring)
  | GetActive (container : jsstring)
  | GetCompleted (container : jsstring)
  | GetFailed (container : jsstring)
  | GetJob (container id : jsstring)
  | GetState (container id : jsstring)
  | Add (container jobName : jsstring) (data : JobData) (opts : JobOptions)
  | ConsoleLog (text : jsstring)
  | ConsoleError (text : jsstring) (error : thrown).

(** The identifiers and the dates still to be drawn, and the calls made
    so far. *)
Record State := {
  uuids : list jsstring;
  dates : list jsstring;
  calls : list rcall
}.

Definition R (A : Type) : Type := State -> outcome A * State.

Definition pure {A} (a : A) : R A := fun s => (Ret a, s).

Definition raise {A} (e : thrown) : R A := fun s => (Throw e, s).

Definition andThen {A B} (m : R A) (k : A -> R B) : R B :=
  fun s =>
    match m s with
    | (Ret a, s') => k a s'
    | (Throw e, s') => (Throw e, s')
    end.

Notation "'let+' x := m 'in' k" := (andThen m (fun x => k))
  (at level 10, x name, m at level 100, k at level 200, only parsing).

Definition catching {A} (m : R A) (h : thrown -> R A) : R A :=
  fun s =>
    match m s with
    | (Ret a, s') => (Ret a, s')
    | (Throw e, s') => h e s'
    end.

Definition called (c : rcall) (s : State) : State :=
  {| uuids := uuids s; dates := dates s; calls := calls s ++ [c] |}.

Definition call {A} (c : rcall) (answer : outcome A) : R A :=
  fun s => (answer, called c s).

(** [uuidv4()] *)
Definition uuidv4 : R jsstring :=
  fun s => (Ret (hd [] (uuids s)),
            {| uuids := tl (uuids s); dates := dates s; calls := calls s |}).

(** [new Date().toISOString()] *)
Definition toISOString : R jsstring :=
  fun s => (Ret (hd [] (dates s)),
            {| uuids := uuids s; dates := tl (dates s); calls := calls s |}).

(** Lines 47-113: the entries of [codeQueues], in the order of their
    assignment. *)
Definition initializeQueues (bull : Bull) : list (jsstring * Master.Queue) :=
  map (fun entry : jsstring * jsstring =>
         (entry.1, {| Master.queueName := entry.2;
                      Master.getWaiting := waitingOf bull entry.2 |}))
    [(js "python-1", js "python-executor-1");
     (js "python-2", js "python-executor-2");
     (js "java-1", js "java-executor-1");
     (js "java-2", js "java-executor-2");
     (js "javascript-1", js "javascript-executor");
     (js "cpp-1", js "cpp-executor");
     (js "go-1", js "go-executor")].

(** [codeQueues] as an object. *)
Definition asObject (entries : list (jsstring * Master.Queue))
    : gmap jsstring Master.Queue :=
  list_to_map entries.

(** [await selectContainer(language)], each [getWaiting] a call. *)
Definition selectContainer (codeQueues : list (jsstring * Master.Queue))
    (language : jsstring) : R jsstring :=
  fun s =>
    let (selected, lookups) := Master.selectContainer (asObject codeQueues) language in
    (selected,
     {| uuids := uuids s; dates := dates s;
        calls := calls s ++ map GetWaiting lookups |}).

Definition truthyOpt (x : option jsstring) : bool :=
  match x with Some s => truthy s | None => false end.

Definition failed (status : Z) (id timestamp : jsstring)
    (message error : option jsstring) : Response :=
  {| statusCode := status;
     body := {| jr_id := id; jr_status := Failed; jr_output := None;
                jr_error := error; jr_executionTime := None;
                jr_testCases := None; jr_timestamp := timestamp;
                jr_message := message; jr_progress := None |} |}.

Definition options (id : jsstring) : JobOptions :=
  {| jobId := id; attempts := 3; backoff_type := js "exponential";
     backoff_delay := 2000; removeOnComplete := 50; removeOnFail := 20 |}.

(** Lines 254-321: [POST /execute]. *)
Definition execute (languages : gmap jsstring LanguageConfig) (bull : Bull)
    (codeQueues : list (jsstring * Master.Queue)) (req : ExecuteCodeRequest)
    : R Response :=
  catching
    (let code := b_code req in
     let language := b_language req in
     let input := default [] (b_input req) in
     let testCases := b_testCases req in
     if negb (truthyOpt code) || negb (truthyOpt language) then
       let+ timestamp := toISOString in
       pure (failed 400 [] timestamp (Some (js "Code and language are required")) None)
     else
       let code := default [] code in
       let language := default [] language in
       match languages !! language with
       | None =>
           let+ timestamp := toISOString in
           pure (failed 400 [] timestamp
                   (Some (js "Unsupported language: " ++ language)) None)
       | Some langConfig =>
           let+ selectedContainer := selectContainer codeQueues language in
           let selectedQueue := asObject codeQueues !! selectedContainer in
           let+ jobId := uuidv4 in
           let+ timestamp := toISOString in
           let jobData :=
             {| jd_id := jobId; jd_code := code; jd_language := language;
                jd_input := input; jd_testCases := testCases;
                jd_timestamp := timestamp |} in
           match selectedQueue with
           | None =>
               raise (ErrorObj (js "Cannot read properties of undefined (reading 'add')"))
           | Some selectedQueue =>
               let+ job :=
                 call (Add selectedContainer (js "execute") jobData (options jobId))
                   (add bull (Master.queueName selectedQueue) jobData) in
               let+ _ :=
                 call (ConsoleLog (js "Job " ++ jobId ++ js " queued on container "
                                     ++ selectedContainer)) (Ret tt) in
               let+ timestamp := toISOString in
               pure {| statusCode := 200;
                       body := {| jr_id := jobId; jr_status := Queued;
                                  jr_output := None; jr_error := None;
                                  jr_executionTime := None; jr_testCases := None;
                                  jr_timestamp := timestamp;
                                  jr_message :=
                                    Some (js "Job queued on " ++ selectedContainer);
                                  jr_progress := None |} |}
           end
       end)
    (fun error =>
       let+ _ := call (ConsoleError (js "Error creating job:") error) (Ret tt) in
       let+ timestamp := toISOString in
       pure (failed 500 [] timestamp None (Some (messageOf error)))).

(** Lines 334-350: the [switch] on the state of a job. *)
Definition statusOf (state : jsstring) : JobStatus :=
  if jseqb state (js "waiting") then Queued
  else if jseqb state (js "active") then Active
  else if jseqb state (js "completed") then Completed
  else if jseqb state (js "failed") then Failed
  else Queued.

(** Lines 352-366: the result reported for a job. *)
Definition reported (id state timestamp : jsstring) (job : Job) : JobResult :=
  let status := statusOf state in
  match (if jseqb state (js "completed") then returnvalue job else None) with
  | Some value =>
      {| jr_id := id; jr_status := status;
         jr_output := Some (output value); jr_error := Some (error value);
         jr_executionTime := Some (executionTime value);
         jr_testCases := testCases value;
         jr_timestamp := timestamp; jr_message := None;
         jr_progress := Some (progress job) |}
  | None =>
      {| jr_id := id; jr_status := status; jr_output := None;
         jr_error :=
           if jseqb state (js "failed") && truthyOpt (failedReason job)
           then failedReason job else None;
         jr_executionTime := None; jr_testCases := None;
         jr_timestamp := timestamp; jr_message := None;
         jr_progress := Some (progress job) |}
  end.

(** Lines 328-370: the search across the queues; [None] when the loop
    runs out. *)
Fixpoint search (bull : Bull) (entries : list (jsstring * Master.Queue))
    (id : jsstring) : R (option Response) :=
  match entries with
  | [] => pure None
  | (containerId, queue) :: rest =>
      let+ job := call (GetJob containerId id) (getJob bull (Master.queueName queue) id) in
      match job with
      | Some job =>
          let+ state := call (GetState containerId id) (getState job) in
          let+ timestamp := toISOString in
          pure (Some {| statusCode := 200; body := reported id state timestamp job |})
      | None => search bull rest id
      end
  end.

(** Lines 323-388: [GET /job/:id]. *)
Definition jobStatus (bull : Bull) (codeQueues : list (jsstring * Master.Queue))
    (id : jsstring) : R Response :=
  catching
    (let+ found := search bull codeQueues id in
     match found with
     | Some response => pure response
     | None =>
         let+ timestamp := toISOString in
         pure (failed 404 id timestamp (Some (js "Job not found")) None)
     end)
    (fun error =>
       let+ _ := call (ConsoleError (js "Error fetching job:") error) (Ret tt) in
       let+ timestamp := toISOString in
       pure (failed 500 id timestamp None (Some (messageOf error)))).

(** [containerId.split('-')[0]] of [/load]. *)
Definition languageOf (containerId : jsstring) : jsstring :=
  match splitFirst (js "-") containerId with
  | Some (language, _) => language
  | None => containerId
  end.

(** The body of the answer of [/load]. *)
Record ContainerLoadInfo := {
  cl_containerId : jsstring;
  cl_language : jsstring;
  cl_waiting : nat;
  cl_active : nat;
  cl_completed : nat;
  cl_failed : nat;
  cl_totalJobs : nat
}.

Record SystemLoadResponse := {
  l_timestamp : jsstring;
  l_error : option jsstring;
  l_containers : list ContainerLoadInfo;
  l_totalWaiting : nat;
  l_totalActive : nat
}.

(** Lines 226-234: the entry pushed for one queue. *)
Definition loadInfo (container : jsstring) (waiting active completed failed
    : list jsstring) : ContainerLoadInfo :=
  {| cl_containerId := container; cl_language := languageOf container;
     cl_waiting := length waiting; cl_active := length active;
     cl_completed := length completed; cl_failed := length failed;
     cl_totalJobs := length waiting + length active + length completed
                     + length failed |}.

(** Lines 220-235: the loop of [/load], pushing onto [containerLoads]. *)
Fixpoint gather (bull : Bull) (entries : list (jsstring * Master.Queue))
    (containerLoads : list ContainerLoadInfo) : R (list ContainerLoadInfo) :=
  match entries with
  | [] => pure containerLoads
  | (container, queue) :: rest =>
      let+ waiting := call (GetWaiting container) (Master.getWaiting queue) in
      let+ active :=
        call (GetActive container) (activeOf bull (Master.queueName queue)) in
      let+ completed :=
        call (GetCompleted container) (completedOf bull (Master.queueName queue)) in
      let+ failed :=
        call (GetFailed container) (failedOf bull (Master.queueName queue)) in
      gather bull rest
        (containerLoads ++ [loadInfo container waiting active completed failed])
  end.

(** Lines 216-252: [GET /load]. *)
Definition load (bull : Bull) (codeQueues : list (jsstring * Master.Queue))
    : R (Z * SystemLoadResponse) :=
  catching
    (let+ containerLoads := gather bull codeQueues [] in
     let+ timestamp := toISOString in
     pure (200,
           {| l_timestamp := timestamp; l_error := None;
              l_containers := containerLoads;
              l_totalWaiting :=
                fold_left (fun sum c => (sum + cl_waiting c)%nat) containerLoads 0%nat;
              l_totalActive :=
                fold_left (fun sum c => (sum + cl_active c)%nat) containerLoads 0%nat |}))
    (fun error =>
       let+ timestamp := toISOString in
       pure (500,
             {| l_timestamp := timestamp; l_error := Some (messageOf error);
                l_containers := []; l_totalWaiting := 0; l_totalActive := 0 |})).

(** The body of the answer of [/health]; [h_queues] is the object
    built by the [reduce], as its entries. *)
Record HealthResponse := {
  h_status : jsstring;
  h_timestamp : jsstring;
  h_redis : jsstring;
  h_queues : list (jsstring * jsstring);
  h_error : option jsstring
}.

(** [{ ...acc, ...status }] for a [status] of one property. *)
Fixpoint spread (acc : list (jsstring * jsstring)) (name value : jsstring)
    : list (jsstring * jsstring) :=
  match acc with
  | [] => [(name, value)]
  | (k, v) :: rest =>
      if jseqb k name then (k, value) :: rest else (k, v) :: spread rest name value
  end.

(** Lines 178-185: the callback mapped over the queues; it catches the
    rejection of [isReady]. *)
Definition queueStatus (bull : Bull) (entry : jsstring * Master.Queue)
    : R (jsstring * jsstring) :=
  catching
    (let+ _ := call (IsReady entry.1) (isReady bull (Master.queueName entry.2)) in
     pure (entry.1, js "healthy"))
    (fun _ => pure (entry.1, js "unhealthy")).

(** [Promise.all] over callbacks that do not reject. *)
Fixpoint all {A B} (f : A -> R B) (l : list A) : R (list B) :=
  match l with
  | [] => pure []
  | a :: rest =>
      let+ b := f a in
      let+ bs := all f rest in
      pure (b :: bs)
  end.

(** Lines 172-206: [GET /health]; [ping] is what Redis answers. *)
Definition health (ping : outcome unit) (bull : Bull)
    (codeQueues : list (jsstring * Master.Queue)) : R (Z * HealthResponse) :=
  catching
    (let+ _ := call Ping ping in
     let+ queueStatuses := all (queueStatus bull) codeQueues in
     let allQueuesHealthy :=
       forallb (fun status : jsstring * jsstring => jseqb status.2 (js "healthy"))
         queueStatuses in
     let+ timestamp := toISOString in
     pure (200,
           {| h_status := if allQueuesHealthy then js "healthy" else js "degraded";
              h_timestamp := timestamp; h_redis := js "connected";
              h_queues :=
                fold_left (fun acc status => spread acc status.1 status.2)
                  queueStatuses [];
              h_error := None |}))
    (fun error =>
       let+ timestamp := toISOString in
       pure (503,
             {| h_status := js "unhealthy"; h_timestamp := timestamp;
                h_redis := js "disconnected"; h_queues := [];
                h_error := Some (messageOf error) |})).

(** The calls of [/load] about one queue. *)
Definition loadCalls (entry : jsstring * Master.Queue) : list rcall :=
  [GetWaiting entry.1; GetActive entry.1; GetCompleted entry.1; GetFailed entry.1].

(** The four lists of a queue, when the broker gives them. *)
Definition listed (bull : Bull) (entry : jsstring * Master.Queue)
    (info : ContainerLoadInfo) : Prop :=
  exists waiting active completed failed,
    Master.getWaiting entry.2 = Ret waiting
    /\ activeOf bull (Master.queueName entry.2) = Ret active
    /\ completedOf bull (Master.queueName entry.2) = Ret completed
    /\ failedOf bull (Master.queueName entry.2) = Ret failed
    /\ info = loadInfo entry.1 waiting active completed failed.

(** One of the four calls about a queue rejects with [e], the [k] calls
    before it having resolved. *)
Definition unlisted (bull : Bull) (entry : jsstring * Master.Queue) (e : thrown)
    (k : nat) : Prop :=
  (k = 0%nat /\ Master.getWaiting entry.2 = Throw e)
  \/ (k = 1%nat /\ (exists l, Master.getWaiting entry.2 = Ret l)
      /\ activeOf bull (Master.queueName entry.2) = Throw e)
  \/ (k = 2%nat /\ (exists l, Master.getWaiting entry.2 = Ret l)
      /\ (exists l, activeOf bull (Master.queueName entry.2) = Ret l)
      /\ completedOf bull (Master.queueName entry.2) = Throw e)
  \/ (k = 3%nat /\ (exists l, Master.getWaiting entry.2 = Ret l)
      /\ (exists l, activeOf bull (Master.queueName entry.2) = Ret l)
      /\ (exists l, completedOf bull (Master.queueName entry.2) = Ret l)
      /\ failedOf bull (Master.queueName entry.2) = Throw e).

(** The status [/health] gives a queue. *)
Definition healthOf (bull : Bull) (entry : jsstring * Master.Queue) : jsstring :=
  match isReady bull (Master.queueName entry.2) with
  | Ret _ => js "healthy"
  | Throw _ => js "unhealthy"
  end.

End Routes.

(** A broker with two waiting jobs on the first Python queue and one on
    the second, and a finished job [job-9] on the first Java queue. *)
Module SampleBroker.
Import Routes.

Definition finished : Job :=
  {| getState := Ret (js "completed"); progress := 100;
     returnvalue :=
       Some {| output := js "42"; error := []; executionTime := 17;
               status := StatusSuccess; testCases := None |};
     failedReason := None |}.

Definition bull : Bull :=
  {| waitingOf := fun queue =>
       if jseqb queue (js "python-executor-1") then Ret [js "job-1"; js "job-2"]
       else if jseqb queue (js "python-executor-2") then Ret [js "job-3"]
       else Ret [];
     activeOf := fun queue =>
       if jseqb queue (js "python-executor-1") then Ret [js "job-0"] else Ret [];
     completedOf := fun queue =>
       if jseqb queue (js "java-executor-1") then Ret [js "job-9"] else Ret [];
     failedOf := fun _ => Ret [];
     isReady := fun _ => Ret tt;
     getJob := fun queue id =>
       if jseqb queue (js "java-executor-1") && jseqb id (js "job-9")
       then Ret (Some finished) else Ret None;
     add := fun _ _ => Ret tt |}.

Definition state : State :=
  {| uuids := [js "u1"]; dates := [js "2025-01-01T00:00:00.000Z";
                                   js "2025-01-01T00:00:00.001Z"];
     calls := [] |}.

Definition request (language : jsstring) : ExecuteCodeRequest :=
  {| b_code := Some (js "print(1)"); b_language := Some language;
     b_input := None; b_testCases := None |}.

(** A broker that has lost the connection of the first Java queue. *)
Definition broken : Bull :=
  {| waitingOf := waitingOf bull;
     activeOf := activeOf bull;
     completedOf := fun queue =>
       if jseqb queue (js "java-executor-1")
       then Throw (ErrorObj (js "Connection is closed."))
       else completedOf bull queue;
     failedOf := failedOf bull;
     isReady := fun queue =>
       if jseqb queue (js "java-executor-1")
       then Throw (ErrorObj (js "Connection is closed."))
       else Ret tt;
     getJob := fun queue id =>
       if jseqb queue (js "java-executor-1")
       then Throw (ErrorObj (js "Connection is closed."))
       else Ret None;
     add := add bull |}.

(** A registry with a language that no container serves. *)
Definition languages : gmap jsstring LanguageConfig :=
  <[js "rust" := Sample.pythonConfig]> Sample.languages.

End SampleBroker.

(** ** The job processors ([executor-worker.ts], [server.ts]) *)

Module Processor.

(** [JSON.stringify] of a string (QuoteJSONString): short escapes,
    [\u00xx] for the other control characters and for lone surrogates,
    everything else as it is. *)
Definition hexDigit (d : N) : N :=
  if (d <? 10)%N then (48 + d)%N else (87 + d)%N.

Definition unicodeEscape (c : N) : jsstring :=
  js "\u" ++ [hexDigit (c / 4096 mod 16); hexDigit (c / 256 mod 16);
              hexDigit (c / 16 mod 16); hexDigit (c mod 16)]%N.

Definition isLeading (c : N) : bool := ((55296 <=? c) && (c <=? 56319))%N.
Definition isTrailing (c : N) : bool := ((56320 <=? c) && (c <=? 57343))%N.

Definition quoteUnit (c : N) : jsstring :=
  if (c =? 8)%N then js "\b"
  else if (c =? 9)%N then js "\t"
  else if (c =? 10)%N then js "\n"
  else if (c =? 12)%N then js "\f"
  else if (c =? 13)%N then js "\r"
  else if (c =? 34)%N then [92; 34]%N
  else if (c =? 92)%N then [92; 92]%N
  else if (c <? 32)%N || isLeading c || isTrailing c then unicodeEscape c
  else [c].

Fixpoint quoteUnits (s : jsstring) : jsstring :=
  match s with
  | [] => []
  | c :: rest =>
      match rest with
      | d :: rest' =>
          if isLeading c && isTrailing d then c :: d :: quoteUnits rest'
          else quoteUnit c ++ quoteUnits rest
      | [] => quoteUnit c
      end
  end.

Definition quote : jsstring := [34%N].

Definition JSON_string (s : jsstring) : jsstring := quote ++ quoteUnits s ++ quote.

(** [JSON.stringify(failedResult)]: the four properties in the order
    of the literal, [executionTime] being 0 and [status] 'error'. *)
Definition JSON_failedResult (output error : jsstring) : jsstring :=
  js "{" ++ JSON_string (js "output") ++ js ":" ++ JSON_string output
  ++ js "," ++ JSON_string (js "error") ++ js ":" ++ JSON_string error
  ++ js "," ++ JSON_string (js "executionTime") ++ js ":0"
  ++ js "," ++ JSON_string (js "status") ++ js ":" ++ JSON_string (js "error")
  ++ js "}".

(** A code unit that [JSON.stringify] leaves as it is. *)
Definition isPlain (c : N) : bool :=
  ((32 <=? c) && negb (c =? 34) && negb (c =? 92)
   && negb (isLeading c) && negb (isTrailing c))%N.

(** [await job.progress(n)] *)
Definition reportProgress (progress : Z -> outcome unit) (n : Z) : M unit :=
  fun w => (progress n, w).

(** The processor of [executor-worker.ts] (lines 201-232; the one of
    lines 50-81 differs in the texts it logs only); [progress] is what Bull
    answers to [job.progress(n)], and [console.log] is not recorded. *)
Definition processJob (languages : gmap jsstring LanguageConfig)
    (executorId : jsstring) (progress : Z -> outcome unit) (data : Routes.JobData)
    : M ExecutionResult :=
  let id := Routes.jd_id data in
  try_catch
    (let* _ := reportProgress progress 10 in
     let* result :=
       executeCode languages (Routes.jd_code data) (Routes.jd_language data)
         (Routes.jd_input data) (Routes.jd_testCases data) in
     let* _ := reportProgress progress 100 in
     ret result)
    (fun error =>
       let* _ :=
         consoleError (js "Executor " ++ executorId ++ js ": Job " ++ id
                         ++ js " failed:") in
       throw (ErrorObj (JSON_failedResult [] (messageOf error)))).

(** What the server keeps in Redis: [setEx(key, seconds, JSON.stringify(value))]. *)
Record SetEx := {
  key : jsstring;
  seconds : Z;
  value : Routes.JobResult
}.

(** The clock of [executeCode], the answers of Redis and the dates
    still to come, and the [setEx] calls made so far. *)
Record Server := {
  world : World;
  redis : list (outcome unit);
  dates : list jsstring;
  written : list SetEx
}.

(** [await redisClient.setEx(`result:${id}`, 3600, JSON.stringify(value))],
    after [new Date().toISOString()] for the value's timestamp. *)
Definition store (id : jsstring) (build : jsstring -> Routes.JobResult)
    (sv : Server) : outcome unit * Server :=
  (match redis sv with
   | [] => Ret tt
   | answer :: _ => answer
   end,
   {| world := world sv; redis := tl (redis sv); dates := tl (dates sv);
      written := written sv ++ [{| key := js "result:" ++ id; seconds := 3600;
                                 value := build (hd [] (dates sv)) |}] |}).

(** The processor of [server.ts] (lines 212-254); [job.progress] is
    not awaited there and is left out. *)
Definition processStored (languages : gmap jsstring LanguageConfig)
    (data : Routes.JobData) (sv : Server) : outcome unit * Server :=
  let id := Routes.jd_id data in
  let handler (error : thrown) (sv : Server) : outcome unit * Server :=
    let sv :=
      {| world := logged (ConsoleError (js "Execution error:")) (world sv);
         redis := redis sv; dates := dates sv; written := written sv |} in
    match store id (fun timestamp =>
                      {| Routes.jr_id := id; Routes.jr_status := Routes.Failed;
                         Routes.jr_output := None;
                         Routes.jr_error := Some (messageOf error);
                         Routes.jr_executionTime := None;
                         Routes.jr_testCases := None;
                         Routes.jr_timestamp := timestamp;
                         Routes.jr_message := None;
                         Routes.jr_progress := None |}) sv with
    | (Ret _, sv) => (Throw error, sv)
    | (Throw e, sv) => (Throw e, sv)
    end in
  match executeCode languages (Routes.jd_code data) (Routes.jd_language data)
          (Routes.jd_input data) (Routes.jd_testCases data) (world sv) with
  | (Ret result, w) =>
      let sv := {| world := w; redis := redis sv; dates := dates sv;
                   written := written sv |} in
      match store id (fun timestamp =>
                        {| Routes.jr_id := id; Routes.jr_status := Routes.Completed;
                           Routes.jr_output := Some (output result);
                           Routes.jr_error := Some (error result);
                           Routes.jr_executionTime := Some (executionTime result);
                           Routes.jr_testCases := testCases result;
                           Routes.jr_timestamp := timestamp;
                           Routes.jr_message := None;
                           Routes.jr_progress := None |}) sv with
      | (Ret _, sv) => (Ret tt, sv)
      | (Throw e, sv) => handler e sv
      end
  | (Throw error, w) =>
      handler error {| world := w; redis := redis sv; dates := dates sv;
                       written := written sv |}
  end.

End Processor.

(** * Properties *)

(** ** Strings *)

Section Strings.

Implicit Types s pat pre post rep : jsstring.

Lemma startsWith_app pat s : startsWith pat (pat ++ s) = true.
Proof.
  induction pat as [|p pat IH]; simpl; [done|].
  by rewrite N.eqb_refl.
Qed.

Lemma startsWith_inv pat s :
  startsWith pat s = true -> s = pat ++ drop (length pat) s.
Proof.
  revert s. induction pat as [|p pat IH]; intros [|c s]; simpl; try done.
  intros [Hpc Hrest]%andb_prop.
  apply N.eqb_eq in Hpc. subst c. f_equal. by apply IH.
Qed.

Lemma splitFirst_eq pat s :
  splitFirst pat s =
    if startsWith pat s then Some ([], drop (length pat) s)
    else match s with
         | [] => None
         | c :: s' =>
             match splitFirst pat s' with
             | Some (pre, post) => Some (c :: pre, post)
             | None => None
             end
         end.
Proof. by destruct s. Qed.

Lemma splitFirst_sound pat s pre post :
  splitFirst pat s = Some (pre, post) -> s = pre ++ pat ++ post.
Proof.
  revert pre post. induction s as [|c s IH]; intros pre post;
    rewrite splitFirst_eq.
  - destruct (startsWith pat []) eqn:E; [|done].
    intros [= <- <-]. by apply startsWith_inv in E.
  - destruct (startsWith pat (c :: s)) eqn:E.
    + intros [= <- <-]. by apply startsWith_inv in E.
    + destruct (splitFirst pat s) as [[pre' post']|] eqn:E'; [|done].
      intros [= <- <-]. simpl. f_equal. by apply IH.
Qed.

Lemma splitFirst_leftmost pat pre post :
  leftmost pat pre post -> splitFirst pat (pre ++ pat ++ post) = Some (pre, post).
Proof.
  induction pre as [|c pre IH]; intros Hleft; rewrite splitFirst_eq.
  - simpl app. by rewrite startsWith_app, drop_app_length.
  - destruct (startsWith pat ((c :: pre) ++ pat ++ post)) eqn:E.
    + apply startsWith_inv in E.
      specialize (Hleft [] (drop (length pat) ((c :: pre) ++ pat ++ post)) E).
      simpl in Hleft. lia.
    + cbn [app]. rewrite IH; [done|].
      intros pre' post' Heq.
      specialize (Hleft (c :: pre') post'). simpl in Hleft.
      rewrite Heq in Hleft. specialize (Hleft eq_refl). lia.
Qed.

Lemma splitFirst_none pat s :
  splitFirst pat s = None -> ~ occurs pat s.
Proof.
  intros Hnone (pre & post & ->).
  revert Hnone. induction pre as [|c pre IH]; rewrite splitFirst_eq.
  - simpl app. by rewrite startsWith_app.
  - destruct (startsWith pat ((c :: pre) ++ pat ++ post)); [done|].
    cbn [app].
    destruct (splitFirst pat (pre ++ pat ++ post)) as [[? ?]|]; [done|].
    intros _. by apply IH.
Qed.

Lemma getSubstitution_plain matched before after rep :
  plain rep -> getSubstitution matched before after rep = rep.
Proof.
  unfold plain. induction rep as [|c rep IH]; simpl; [done|].
  intros Hnot. apply not_elem_of_cons in Hnot as [Hc Hrep].
  destruct (c =? 36)%N eqn:E; [apply N.eqb_eq in E; congruence|].
  f_equal. by apply IH.
Qed.

(** A pattern cannot start inside a text that lacks its first unit. *)
Lemma splitFirst_skip p pat a b :
  p ∉ a ->
  splitFirst (p :: pat) (a ++ b) =
    match splitFirst (p :: pat) b with
    | Some (pre, post) => Some (a ++ pre, post)
    | None => None
    end.
Proof.
  induction a as [|c a IH]; intros Hnot.
  - simpl app. by destruct (splitFirst (p :: pat) b) as [[? ?]|].
  - apply not_elem_of_cons in Hnot as [Hc Ha].
    rewrite splitFirst_eq. cbn [app startsWith].
    destruct (p =? c)%N eqn:E; [apply N.eqb_eq in E; congruence|].
    cbn [andb]. rewrite IH by done.
    by destruct (splitFirst (p :: pat) b) as [[? ?]|].
Qed.

Lemma splitFirst_absent p pat a :
  p ∉ a -> splitFirst (p :: pat) a = None.
Proof.
  intros Hnot. rewrite <- (app_nil_r a). by rewrite splitFirst_skip.
Qed.

Lemma replace_absent p pat a rep :
  p ∉ a -> replace a (p :: pat) rep = a.
Proof. intros Hnot. unfold replace. by rewrite splitFirst_absent. Qed.

Lemma replace_leftmost pat pre post rep :
  leftmost pat pre post ->
  replace (pre ++ pat ++ post) pat rep
  = pre ++ getSubstitution pat pre post rep ++ post.
Proof. intros Hleft. unfold replace. by rewrite splitFirst_leftmost. Qed.

End Strings.

Section Substitution.

Implicit Types s pat pre mid post rep : jsstring.

Lemma replace_here pat s rep :
  replace (pat ++ s) pat rep = getSubstitution pat [] s rep ++ s.
Proof.
  unfold replace. rewrite splitFirst_eq.
  by rewrite startsWith_app, drop_app_length.
Qed.

Lemma replace_skip p pat a b rep :
  p ∉ a -> plain rep ->
  replace (a ++ b) (p :: pat) rep = a ++ replace b (p :: pat) rep.
Proof.
  intros Ha Hrep. unfold replace. rewrite splitFirst_skip by done.
  destruct (splitFirst (p :: pat) b) as [[pre post]|]; [|done].
  rewrite !getSubstitution_plain by done. by rewrite <- app_assoc.
Qed.

(** No match can start at a unit where the pattern does not. *)
Lemma replace_cons p pat c s rep :
  startsWith (p :: pat) (c :: s) = false -> plain rep ->
  replace (c :: s) (p :: pat) rep = c :: replace s (p :: pat) rep.
Proof.
  intros Hs Hrep. unfold replace. rewrite splitFirst_eq, Hs.
  destruct (splitFirst (p :: pat) s) as [[pre post]|]; [|done].
  by rewrite !getSubstitution_plain.
Qed.

Lemma braceFree_app a b : braceFree a -> braceFree b -> braceFree (a ++ b).
Proof. unfold braceFree. intros Ha Hb. by apply not_elem_of_app. Qed.

End Substitution.

Section SubstitutionChain.

Implicit Types s pat pre mid post rep : jsstring.

Lemma replace_pass p pat c t s rep :
  startsWith (p :: pat) ((c :: t) ++ s) = false -> p ∉ t -> plain rep ->
  replace ((c :: t) ++ s) (p :: pat) rep = (c :: t) ++ replace s (p :: pat) rep.
Proof.
  intros Hs Ht Hrep. cbn [app] in *.
  by rewrite replace_cons, replace_skip.
Qed.

Lemma braceFree_file : braceFree (js "file}").
Proof. unfold braceFree. apply (bool_decide_unpack _). exact I. Qed.

Lemma braceFree_dir : braceFree (js "dir}").
Proof. unfold braceFree. apply (bool_decide_unpack _). exact I. Qed.

Lemma braceFree_filename : braceFree (js "filename}").
Proof. unfold braceFree. apply (bool_decide_unpack _). exact I. Qed.

End SubstitutionChain.

Create HintDb bracefree.
#[local] Hint Resolve braceFree_file braceFree_dir braceFree_filename
  braceFree_app : bracefree.

Ltac brace_free := solve [unfold braceFree in *; auto with bracefree | done].

Ltac replace_step :=
  match goal with
  | |- context [getSubstitution ?m ?b ?a ?rep] =>
      rewrite (getSubstitution_plain m b a rep) by done
  | |- context [replace (?pat ++ ?s) ?pat ?rep] =>
      rewrite (replace_here pat s rep)
  | |- context [replace ?a (brace :: ?pat) ?rep] =>
      rewrite (replace_absent brace pat a rep) by brace_free
  | |- context [replace (?a ++ ?b) (brace :: ?pat) ?rep] =>
      first [ rewrite (replace_skip brace pat a b rep) by brace_free
            | rewrite (replace_pass brace pat) by brace_free ]
  end.

Ltac expose_tokens :=
  unfold substitute;
  change (js "{file}") with (brace :: js "file}");
  change (js "{dir}") with (brace :: js "dir}");
  change (js "{filename}") with (brace :: js "filename}").

Lemma replace_unchanged tok value s : ~ occurs tok s -> replace s tok value = s.
Proof.
  intros Hno. unfold replace.
  destruct (splitFirst tok s) as [[a b]|] eqn:E; [|done].
  destruct Hno. exists a, b. by apply splitFirst_sound.
Qed.

(** C10. Each of the three chained [replace] calls rewrites the leftmost
    occurrence of its token and nothing after it: an argument naming the
    same token twice keeps the second one verbatim. *)
Theorem substitute_first_occurrence_only
    (filepath sessionDir filename pre mid post : jsstring) :
  braceFree pre -> braceFree mid -> braceFree post ->
  braceFree filepath -> braceFree sessionDir -> braceFree filename ->
  plain filepath -> plain sessionDir -> plain filename ->
  (forall tok value a b,
      leftmost tok a b ->
      replace (a ++ tok ++ b) tok value = a ++ getSubstitution tok a b value ++ b)
  /\ (forall tok value s, ~ occurs tok s -> replace s tok value = s)
  /\ substitute filepath sessionDir filename
       (pre ++ js "{file}" ++ mid ++ js "{file}" ++ post)
     = pre ++ filepath ++ mid ++ js "{file}" ++ post
  /\ substitute filepath sessionDir filename
       (pre ++ js "{dir}" ++ mid ++ js "{dir}" ++ post)
     = pre ++ sessionDir ++ mid ++ js "{dir}" ++ post
  /\ substitute filepath sessionDir filename
       (pre ++ js "{filename}" ++ mid ++ js "{filename}" ++ post)
     = pre ++ filename ++ mid ++ js "{filename}" ++ post.
Proof.
  intros Hpre Hmid Hpost Hfp Hsd Hfn Pfp Psd Pfn.
  split; [intros; by apply replace_leftmost|].
  split; [intros; by apply replace_unchanged|].
  repeat split; expose_tokens; by repeat replace_step.
Qed.

Lemma substitute_first_occurrence_only_witness :
  substitute (js "/tmp/code-execution/s1/main.py") (js "/tmp/code-execution/s1")
    (js "main.py") (js "-u {file} {file}")
  = js "-u /tmp/code-execution/s1/main.py {file}".
Proof.
  refine (proj1 (proj2 (proj2
    (substitute_first_occurrence_only
       (js "/tmp/code-execution/s1/main.py") (js "/tmp/code-execution/s1")
       (js "main.py") (js "-u ") (js " ") [] _ _ _ _ _ _ _ _ _))));
    unfold braceFree, plain; apply (bool_decide_unpack _); vm_compute; exact I.
Defined.

(** ** Trimming *)

Section Trim.

Implicit Types s : jsstring.

Lemma trimStart_length s : (length (trimStart s) <= length s)%nat.
Proof.
  induction s as [|c s IH]; simpl; [done|].
  destruct (is_white c); simpl; lia.
Qed.

Lemma trim_length s : jslength (trim s) <= jslength s.
Proof.
  unfold trim, trimEnd, jslength.
  rewrite length_rev.
  pose proof (trimStart_length (rev (trimStart s))) as H1.
  pose proof (trimStart_length s) as H2.
  rewrite length_rev in H1. lia.
Qed.

Lemma trimStart_headed s : headed (trimStart s).
Proof.
  induction s as [|c s IH]; simpl; [done|].
  by destruct (is_white c) eqn:E.
Qed.

Lemma trimStart_id s : headed s -> trimStart s = s.
Proof. destruct s as [|c s]; simpl; [done|]. by intros ->. Qed.

Lemma trimStart_snoc s c :
  is_white c = false -> exists t, trimStart (s ++ [c]) = t ++ [c].
Proof.
  intros Hc. induction s as [|d s IH]; simpl.
  - rewrite Hc. by exists [].
  - destruct (is_white d); [done|]. by exists (d :: s).
Qed.

Lemma trimEnd_headed s : headed s -> headed (trimEnd s).
Proof.
  unfold trimEnd. destruct s as [|c s]; [done|]. simpl. intros Hc.
  destruct (trimStart_snoc (rev s) c Hc) as [t ->].
  by rewrite rev_app_distr.
Qed.

Lemma trimEnd_idem s : trimEnd (trimEnd s) = trimEnd s.
Proof.
  unfold trimEnd. rewrite rev_involutive.
  by rewrite (trimStart_id _ (trimStart_headed _)).
Qed.

Lemma trim_idem s : trim (trim s) = trim s.
Proof.
  unfold trim.
  rewrite (trimStart_id (trimEnd (trimStart s))).
  - apply trimEnd_idem.
  - apply trimEnd_headed, trimStart_headed.
Qed.

End Trim.

(** ** The child process *)

Section ChildProcess.

Implicit Types (st : proc_state) (ev : proc_event) (events : list proc_event).

Lemma proc_inv_init : proc_inv ps_init.
Proof. by split. Qed.

Lemma handle_inv st ev : proc_inv st -> proc_inv (handle st ev).
Proof.
  intros Hinv. pose proof Hinv as [Hp Ha Hr Hk].
  pose proof (trim_length (ps_stdout st)) as Hto.
  pose proof (trim_length (ps_stderr st)) as Hte.
  destruct ev as [data|data|code|message| |message];
    [| | | | |
     unfold handle, settle; destruct (ps_promise st) eqn:Hs;
     [exact Hinv|]; split; simpl; [done|done|intros r [=]|done]];
  clear Hinv;
    unfold handle, killAndReject, settle, clearTimeout; simpl;
    repeat (match goal with
            | |- context [if ?b then _ else _] => destruct b eqn:?
            | |- context [match ps_promise st with _ => _ end] =>
                destruct (ps_promise st) eqn:?
            end; simpl);
    split; simpl; intros;
    repeat match goal with
           | H : (_ >? _) = false |- _ => rewrite Z.gtb_ltb in H; apply Z.ltb_ge in H
           | H : Some _ = Some _ |- _ => injection H as H; subst
           | H : ps_killed st = false |- _ => destruct (Ha H); clear H
           end;
    simpl in *; try done; try lia; try congruence; eauto;
    by (destruct Hp; [done|]; first [done | congruence]).
Qed.

Lemma run_inv events st :
  proc_inv st -> proc_inv (fold_left handle events st).
Proof.
  revert st. induction events as [|ev events IH]; intros st Hst; simpl; [done|].
  by apply IH, handle_inv.
Qed.

Lemma childProcess_inv events : proc_inv (childProcess events).
Proof. apply run_inv, proc_inv_init. Qed.

(** A settled promise stays as it is. *)
Lemma handle_settled st ev s :
  ps_promise st = Some s -> ps_promise (handle st ev) = Some s.
Proof.
  intros Hs.
  destruct ev; unfold handle, killAndReject, settle, clearTimeout; simpl;
    rewrite ?Hs;
    repeat (match goal with
            | |- context [if ?b then _ else _] => destruct b
            end; simpl; rewrite ?Hs); done.
Qed.

Lemma run_settled events st s :
  ps_promise st = Some s -> ps_promise (fold_left handle events st) = Some s.
Proof.
  revert st. induction events as [|ev events IH]; intros st Hs; simpl; [done|].
  by apply IH, handle_settled.
Qed.

Lemma childProcess_app events rest :
  childProcess (events ++ rest) = fold_left handle rest (childProcess events).
Proof. unfold childProcess. by rewrite fold_left_app. Qed.

Lemma awaitChild_settled events rest s :
  ps_promise (childProcess events) = Some s -> awaitChild (events ++ rest) = s.
Proof.
  intros Hs. unfold awaitChild. rewrite childProcess_app.
  by rewrite (run_settled _ _ s Hs).
Qed.

End ChildProcess.

Section Completion.

Implicit Types (st : proc_state) (events chunks rest : list proc_event).

(** Data within the caps leaves the promise pending. *)
Lemma run_data chunks out err :
  forallb isData chunks = true ->
  jslength (out ++ stdoutOf chunks) <= MAX_OUTPUT_SIZE ->
  jslength (err ++ stderrOf chunks) <= MAX_OUTPUT_SIZE ->
  fold_left handle chunks
    {| ps_stdout := out; ps_stderr := err; ps_killed := false; ps_timer := true;
       ps_sigkills := 0; ps_promise := None |}
  = {| ps_stdout := out ++ stdoutOf chunks; ps_stderr := err ++ stderrOf chunks;
       ps_killed := false; ps_timer := true; ps_sigkills := 0; ps_promise := None |}.
Proof.
  revert out err.
  induction chunks as [|ev chunks IH]; intros out err Hdata Hout Herr.
  - simpl. by rewrite !app_nil_r.
  - destruct ev as [data|data| | | |]; try done; simpl in Hdata, Hout, Herr.
    + cbn [fold_left handle ps_stdout ps_stderr ps_killed ps_timer
           ps_sigkills ps_promise].
      rewrite app_assoc in Hout.
      assert ((jslength (out ++ data) >? MAX_OUTPUT_SIZE) = false) as ->.
      { rewrite Z.gtb_ltb. apply Z.ltb_ge. revert Hout. unfold jslength.
        rewrite !length_app. lia. }
      rewrite IH by done. by rewrite <- app_assoc.
    + cbn [fold_left handle ps_stdout ps_stderr ps_killed ps_timer
           ps_sigkills ps_promise].
      rewrite app_assoc in Herr.
      assert ((jslength (err ++ data) >? MAX_OUTPUT_SIZE) = false) as ->.
      { rewrite Z.gtb_ltb. apply Z.ltb_ge. revert Herr. unfold jslength.
        rewrite !length_app. lia. }
      rewrite IH by done. by rewrite <- app_assoc.
Qed.

Lemma awaitChild_completes events chunks code rest :
  completes events chunks code rest ->
  awaitChild events
  = Resolved {| stdout := trim (stdoutOf chunks);
                stderr := trim (stderrOf chunks);
                exitCode := exitCodeOf code |}.
Proof.
  intros (-> & Hdata & Hout & Herr).
  change (chunks ++ Close code :: rest) with (chunks ++ [Close code] ++ rest).
  rewrite app_assoc. apply awaitChild_settled.
  rewrite childProcess_app. unfold childProcess, ps_init.
  by rewrite (run_data chunks [] []).
Qed.

(** A rejection carries a message whenever the [error] events and the
    errors thrown by [spawn] do. *)
Lemma handle_sane st ev :
  (forall m, ev = ProcError m \/ ev = SpawnThrew m -> m <> []) ->
  (forall e, ps_promise st = Some (Rejected e) -> saneThrown e) ->
  forall e, ps_promise (handle st ev) = Some (Rejected e) -> saneThrown e.
Proof.
  intros Hev Hst e.
  destruct ev as [data|data|code|message| |message];
    [| | | | |
     unfold handle, settle; destruct (ps_promise st) eqn:Hs;
     [rewrite Hs; apply Hst | simpl; intros [= <-]; apply Hev; by right]];
    unfold handle, killAndReject, settle, clearTimeout; simpl;
    repeat (match goal with
            | |- context [if ?b then _ else _] => destruct b
            | |- context [match ps_promise st with _ => _ end] =>
                destruct (ps_promise st) eqn:?
            end; simpl);
    try (intros [= <-]); try done; eauto.
  apply Hev. by left.
Qed.

Lemma run_sane events st :
  saneTrace events ->
  (forall e, ps_promise st = Some (Rejected e) -> saneThrown e) ->
  forall e, ps_promise (fold_left handle events st) = Some (Rejected e) ->
    saneThrown e.
Proof.
  revert st. induction events as [|ev events IH]; intros st Hsane Hst; [done|].
  simpl. apply IH.
  - intros m [Hm|Hm]; apply Hsane; [left|right]; by right.
  - apply handle_sane; [|done].
    intros m [->| ->]; apply Hsane; [left|right]; by left.
Qed.

Lemma awaitChild_sane events e :
  saneTrace events -> awaitChild events = Rejected e -> saneThrown e.
Proof.
  intros Hsane. unfold awaitChild.
  destruct (ps_promise (childProcess events)) as [s|] eqn:E.
  - intros ->. by eapply (run_sane events ps_init).
  - by intros [= <-].
Qed.

End Completion.

Section OutputCap.

Implicit Types (events rest : list proc_event) (data : jsstring).

Lemma resolved_within_cap events r :
  awaitChild events = Resolved r ->
  jslength (stdout r) <= MAX_OUTPUT_SIZE /\ jslength (stderr r) <= MAX_OUTPUT_SIZE.
Proof.
  unfold awaitChild.
  destruct (ps_promise (childProcess events)) as [s|] eqn:E; [|done].
  intros ->. by apply (inv_resolved _ (childProcess_inv events)).
Qed.

Lemma stdout_overflow events data :
  jslength (ps_stdout (childProcess events) ++ data) > MAX_OUTPUT_SIZE ->
  let st := childProcess (events ++ [StdoutData data]) in
  ps_killed st = true /\ (1 <= ps_sigkills st)%nat
  /\ (ps_promise (childProcess events) = None ->
      forall rest,
        awaitChild (events ++ StdoutData data :: rest)
        = Rejected (ErrorObj (js "Output size exceeded limit"))).
Proof.
  intros Hover st.
  assert (Hst : st = killAndReject (js "Output size exceeded limit")
            {| ps_stdout := ps_stdout (childProcess events) ++ data;
               ps_stderr := ps_stderr (childProcess events);
               ps_killed := ps_killed (childProcess events);
               ps_timer := ps_timer (childProcess events);
               ps_sigkills := ps_sigkills (childProcess events);
               ps_promise := ps_promise (childProcess events) |}).
  { unfold st. rewrite childProcess_app. cbn [fold_left handle ps_stdout].
    by rewrite (proj2 (Z.gtb_gt _ _)) by lia. }
  assert (Hk : ps_killed st = true /\ (1 <= ps_sigkills st)%nat).
  { rewrite Hst. unfold killAndReject, settle. cbn.
    destruct (ps_promise (childProcess events)); cbn; split; try done; lia. }
  destruct Hk as [Hk1 Hk2]. split; [done|]. split; [done|].
  intros Hpending rest.
  change (StdoutData data :: rest) with ([StdoutData data] ++ rest).
  rewrite app_assoc. apply awaitChild_settled. fold st. rewrite Hst.
  unfold killAndReject, settle. cbn. by rewrite Hpending.
Qed.

Lemma stderr_overflow events data :
  jslength (ps_stderr (childProcess events) ++ data) > MAX_OUTPUT_SIZE ->
  let st := childProcess (events ++ [StderrData data]) in
  ps_killed st = true /\ (1 <= ps_sigkills st)%nat
  /\ (ps_promise (childProcess events) = None ->
      forall rest,
        awaitChild (events ++ StderrData data :: rest)
        = Rejected (ErrorObj (js "Error output size exceeded limit"))).
Proof.
  intros Hover st.
  assert (Hst : st = killAndReject (js "Error output size exceeded limit")
            {| ps_stdout := ps_stdout (childProcess events);
               ps_stderr := ps_stderr (childProcess events) ++ data;
               ps_killed := ps_killed (childProcess events);
               ps_timer := ps_timer (childProcess events);
               ps_sigkills := ps_sigkills (childProcess events);
               ps_promise := ps_promise (childProcess events) |}).
  { unfold st. rewrite childProcess_app. cbn [fold_left handle ps_stderr].
    by rewrite (proj2 (Z.gtb_gt _ _)) by lia. }
  assert (Hk : ps_killed st = true /\ (1 <= ps_sigkills st)%nat).
  { rewrite Hst. unfold killAndReject, settle. cbn.
    destruct (ps_promise (childProcess events)); cbn; split; try done; lia. }
  destruct Hk as [Hk1 Hk2]. split; [done|]. split; [done|].
  intros Hpending rest.
  change (StderrData data :: rest) with ([StderrData data] ++ rest).
  rewrite app_assoc. apply awaitChild_settled. fold st. rewrite Hst.
  unfold killAndReject, settle. cbn. by rewrite Hpending.
Qed.

End OutputCap.

(** C4, amended. A resolved run never carries more than
    [MAX_OUTPUT_SIZE] code units on either stream. A chunk that takes a
    stream over the cap gets the child killed with SIGKILL, and when the
    promise is still pending it is rejected: with "Output size exceeded
    limit" for standard output, with "Error output size exceeded limit" for
    standard error. *)
Theorem runCommand_output_cap (events : list proc_event) :
  (forall r, awaitChild events = Resolved r ->
     jslength (stdout r) <= MAX_OUTPUT_SIZE /\ jslength (stderr r) <= MAX_OUTPUT_SIZE)
  /\ (forall data,
        jslength (ps_stdout (childProcess events) ++ data) > MAX_OUTPUT_SIZE ->
        let st := childProcess (events ++ [StdoutData data]) in
        ps_killed st = true /\ (1 <= ps_sigkills st)%nat
        /\ (ps_promise (childProcess events) = None ->
            forall rest,
              awaitChild (events ++ StdoutData data :: rest)
              = Rejected (ErrorObj (js "Output size exceeded limit"))))
  /\ (forall data,
        jslength (ps_stderr (childProcess events) ++ data) > MAX_OUTPUT_SIZE ->
        let st := childProcess (events ++ [StderrData data]) in
        ps_killed st = true /\ (1 <= ps_sigkills st)%nat
        /\ (ps_promise (childProcess events) = None ->
            forall rest,
              awaitChild (events ++ StderrData data :: rest)
              = Rejected (ErrorObj (js "Error output size exceeded limit")))).
Proof.
  split; [apply resolved_within_cap|].
  split; [apply stdout_overflow|apply stderr_overflow].
Qed.

(** ** Computations that only raise errors with a message *)

Section Safe.

Lemma safe_ret {A} (a : A) : safe (ret a).
Proof. intros w Hw. by split. Qed.

Lemma safe_bind {A B} (m : M A) (k : A -> M B) :
  safe m -> (forall a, safe (k a)) -> safe (let* x := m in k x).
Proof.
  intros Hm Hk w Hw. unfold bind.
  destruct (Hm w Hw) as [Hw' He]. destruct (m w) as [[a|e] w']; simpl in *.
  - by apply Hk.
  - split; [done|]. intros e' [= <-]. by apply He.
Qed.

Lemma safe_try_catch {A} (m : M A) (h : thrown -> M A) :
  safe m -> (forall e, safe (h e)) -> safe (try_catch m h).
Proof.
  intros Hm Hh w Hw. unfold try_catch.
  destruct (Hm w Hw) as [Hw' He]. destruct (m w) as [[a|e] w']; simpl in *.
  - by split.
  - by apply Hh.
Qed.

Lemma safe_forEach {A} (l : list A) (f : A -> M unit) :
  (forall x, safe (f x)) -> safe (forEach l f).
Proof.
  intros Hf. induction l as [|x l IH]; simpl.
  - apply safe_ret.
  - by apply safe_bind.
Qed.

Lemma saneWorld_tl_fs w cl uu ps lg :
  saneWorld w ->
  saneWorld {| clock := cl; uuids := uu; fs_script := tl (fs_script w);
               proc_script := ps; log := lg |} <->
  Forall saneTrace ps.
Proof.
  intros [Hfs Hps]. unfold saneWorld; simpl. split; [by intros [_ ?]|].
  intros Hps'. split; [|done]. destruct Hfs; simpl; by constructor || done.
Qed.

Lemma safe_now : safe now.
Proof. intros w [Hfs Hps]. by split. Qed.

Lemma safe_uuidv4 : safe uuidv4.
Proof. intros w [Hfs Hps]. by split. Qed.

Lemma safe_consoleError msg : safe (consoleError msg).
Proof. intros w [Hfs Hps]. by split. Qed.

Lemma safe_perform c : safe (perform c).
Proof.
  intros w Hw. pose proof Hw as [Hfs Hps]. unfold perform.
  assert (Hw' : saneWorld
            {| clock := clock w; uuids := uuids w; fs_script := tl (fs_script w);
               proc_script := proc_script w; log := log w ++ [c] |})
    by by apply saneWorld_tl_fs.
  destruct Hfs as [|[entries|e] rest Ha Hrest]; simpl; split; try done.
  intros e' [= <-]. exact Ha.
Qed.

Lemma safe_runCommand cmd argv cwd input ms :
  safe (runCommand cmd argv cwd input ms).
Proof.
  intros w [Hfs Hps]. unfold runCommand.
  assert (Hhd : saneTrace (hd [] (proc_script w))).
  { destruct Hps; simpl; [|done]. intros m [Hm|Hm]; by apply elem_of_nil in Hm. }
  assert (Htl : Forall saneTrace (tl (proc_script w))).
  { destruct Hps; simpl; by constructor || done. }
  destruct (awaitChild (hd [] (proc_script w))) as [r|e] eqn:E; simpl;
    (split; [by split|]); [done|].
  intros e' [= <-]. by eapply awaitChild_sane.
Qed.

End Safe.

Create HintDb safe.
#[local] Hint Resolve safe_ret safe_now safe_uuidv4 safe_consoleError
  safe_perform safe_runCommand : safe.

Ltac safe_step :=
  match goal with
  | |- safe (bind _ _) => apply safe_bind; [|intros ?]
  | |- safe (try_catch _ _) => apply safe_try_catch; [|intros ?]
  | |- safe (forEach _ _) => apply safe_forEach; intros ?
  | |- safe (if ?b then _ else _) => destruct b
  | |- safe (match ?x with _ => _ end) => destruct x
  | |- safe _ => solve [auto with safe]
  end.

Section SafeExecutor.

Lemma safe_ensureDir dir : safe (ensureDir dir).
Proof. unfold ensureDir. repeat safe_step. Qed.

Lemma safe_copyFile src dest : safe (copyFile src dest).
Proof. unfold copyFile. pose proof safe_ensureDir. repeat safe_step. Qed.

Lemma safe_pathExists p : safe (pathExists p).
Proof. unfold pathExists. repeat safe_step. Qed.

Lemma safe_copyDirFuel fuel src dest : safe (copyDirFuel fuel src dest).
Proof.
  revert src dest. induction fuel as [|fuel IH]; intros src dest; simpl.
  - apply safe_ret.
  - pose proof safe_ensureDir. pose proof safe_copyFile. repeat safe_step.
Qed.

Lemma safe_copyDir src dest : safe (copyDir src dest).
Proof. intros w Hw. unfold copyDir. by apply safe_copyDirFuel. Qed.

Lemma safe_cacheLookup lc cacheDir sd : safe (cacheLookup lc cacheDir sd).
Proof.
  unfold cacheLookup.
  pose proof safe_pathExists. pose proof safe_copyFile. pose proof safe_copyDir.
  repeat safe_step.
Qed.

Lemma safe_cacheSave lc cacheDir sd : safe (cacheSave lc cacheDir sd).
Proof.
  unfold cacheSave.
  pose proof safe_pathExists. pose proof safe_copyFile. pose proof safe_copyDir.
  pose proof safe_ensureDir.
  repeat safe_step.
Qed.

Lemma safe_compileStep lc comp code fp sd fn t0 :
  safe (compileStep lc comp code fp sd fn t0).
Proof.
  unfold compileStep.
  pose proof safe_cacheLookup. pose proof safe_cacheSave.
  pose proof safe_ensureDir.
  repeat safe_step.
Qed.

Lemma safe_setupPhase lc code sd t0 : safe (setupPhase lc code sd t0).
Proof. unfold setupPhase. pose proof safe_compileStep. repeat safe_step. Qed.

Lemma safe_runTestCase lc fp sd fn tc : safe (runTestCase lc fp sd fn tc).
Proof. unfold runTestCase. repeat safe_step. Qed.

Lemma safe_testCaseLoop lc fp sd fn cases acc :
  safe (testCaseLoop lc fp sd fn cases acc).
Proof.
  revert acc. induction cases as [|tc cases IH]; intros acc; simpl.
  - apply safe_ret.
  - pose proof safe_runTestCase. repeat safe_step.
Qed.

Lemma safe_runPhase lc fp sd fn input cases t0 :
  safe (runPhase lc fp sd fn input cases t0).
Proof. unfold runPhase. pose proof safe_testCaseLoop. repeat safe_step. Qed.

Lemma safe_tryBody lc code input cases sd t0 :
  safe (tryBody lc code input cases sd t0).
Proof.
  unfold tryBody. pose proof safe_setupPhase. pose proof safe_runPhase.
  repeat safe_step.
Qed.

End SafeExecutor.

(** ** The executor *)

Section Executor.

Lemma bind_ret {A B} (m : M A) (k : A -> M B) w a w' :
  m w = (Ret a, w') -> (let* x := m in k x) w = k a w'.
Proof. intros H. unfold bind. by rewrite H. Qed.

Lemma runCommand_eq cmd argv cwd input ms w :
  runCommand cmd argv cwd input ms w
  = (match awaitChild (hd [] (proc_script w)) with
     | Resolved r => Ret r
     | Rejected e => Throw e
     end, spawned (Spawn cmd argv cwd input ms) w).
Proof. unfold runCommand. by destruct (awaitChild _). Qed.

(** The [finally] clause never throws. *)
Lemma cleanup_returns sd w : exists w', cleanup sd w = (Ret tt, w').
Proof.
  unfold cleanup, try_catch, bind, perform, consoleError, ret.
  destruct (fs_script w) as [|[entries|e] rest]; eauto.
Qed.

Lemma cleanup_spawns sd w w' :
  cleanup sd w = (Ret tt, w') -> spawnsOf (log w') = spawnsOf (log w).
Proof.
  unfold cleanup, try_catch, bind, perform, consoleError, ret, logged.
  assert (Hs : forall l c, spawnsOf [c] = [] -> spawnsOf (l ++ [c]) = spawnsOf l).
  { intros l c Hc. induction l as [|[] l IH]; simpl; by rewrite ?IH, ?app_nil_r. }
  destruct (fs_script w) as [|[entries|e] rest]; intros [= <-]; simpl;
    by rewrite !Hs.
Qed.

(** The [try]/[catch]/[finally] statement returns what the body returns,
    or the failure made of what the body throws. *)
Lemma guarded_returns (body : M ExecutionResult) t0 sd w :
  exists r w',
    try_finally (try_catch body (catchClause t0)) (cleanup sd) w = (Ret r, w')
    /\ match body w with
       | (Ret r0, w1) =>
           r = r0 /\ spawnsOf (log w') = spawnsOf (log w1)
       | (Throw e, w1) =>
           r = failure e (hd 0 (clock w1) - t0)
           /\ spawnsOf (log w') = spawnsOf (log w1)
       end.
Proof.
  unfold try_finally, try_catch.
  destruct (body w) as [[r0|e] w1].
  - destruct (cleanup_returns sd w1) as [w' Hc]. rewrite Hc.
    exists r0, w'. repeat split. by eapply cleanup_spawns.
  - unfold catchClause, bind, now, ret.
    match goal with |- context [cleanup sd ?w2] =>
      destruct (cleanup_returns sd w2) as [w' Hc]; rewrite Hc end.
    eexists _, w'. repeat split. by apply cleanup_spawns in Hc.
Qed.

Lemma executeCode_registered languages code language input cases lc w :
  languages !! language = Some lc ->
  executeCode languages code language input cases w
  = try_finally
      (try_catch (tryBody lc code input cases (sessionDirOf w) (startTimeOf w))
                 (catchClause (startTimeOf w)))
      (cleanup (sessionDirOf w)) (entered w).
Proof. intros Hlc. unfold executeCode, bind, now, uuidv4. by rewrite Hlc. Qed.

Lemma runTestCase_eq lc fp sd fn tc w :
  runTestCase lc fp sd fn tc w
  = (Ret (caseResult tc (awaitChild (hd [] (proc_script w)))
            (hd 0 (tl (clock w)) - hd 0 (clock w))),
     afterCase lc fp sd fn tc w).
Proof.
  unfold runTestCase, bind, try_catch, now. rewrite runCommand_eq.
  by destruct (awaitChild _).
Qed.

Lemma testCaseLoop_eq lc fp sd fn cases acc w :
  testCaseLoop lc fp sd fn cases acc w
  = (Ret (acc ++ caseResults lc fp sd fn cases w),
     afterCases lc fp sd fn cases w).
Proof.
  revert acc w. induction cases as [|tc cases IH]; intros acc w; simpl.
  - by rewrite app_nil_r.
  - unfold bind. rewrite runTestCase_eq, IH. by rewrite <- app_assoc.
Qed.

Lemma spawnsOf_app l1 l2 : spawnsOf (l1 ++ l2) = spawnsOf l1 ++ spawnsOf l2.
Proof. induction l1 as [|[] l1 IH]; simpl; by rewrite ?IH. Qed.

Lemma afterCases_spawns lc fp sd fn cases w :
  spawnsOf (log (afterCases lc fp sd fn cases w))
  = spawnsOf (log w)
    ++ map (fun tc => runCall lc fp sd fn (tc_input tc)) cases.
Proof.
  revert w. induction cases as [|tc cases IH]; intros w; simpl.
  - by rewrite app_nil_r.
  - rewrite IH. simpl. rewrite spawnsOf_app. simpl. by rewrite <- app_assoc.
Qed.


Lemma caseResults_lookup lc fp sd fn cases w i tc :
  cases !! i = Some tc ->
  exists elapsed,
    caseResults lc fp sd fn cases w !! i
    = Some (caseResult tc (awaitChild (childAt w i)) elapsed).
Proof.
  revert w i. induction cases as [|tc' cases IH]; intros w [|i]; simpl; try done.
  - intros [= ->]. eexists. unfold childAt.
    by destruct (proc_script w).
  - intros Hi. destruct (IH (afterCase lc fp sd fn tc' w) i Hi) as [el Hel].
    exists el. rewrite Hel. unfold childAt. simpl.
    destruct (proc_script w); [by destruct i|done].
Qed.

(** The test-case branch as a whole. *)
Lemma executeCode_testcases languages code language input cases lc w w1 :
  languages !! language = Some lc ->
  cases <> [] ->
  setupPhase lc code (sessionDirOf w) (startTimeOf w) (entered w) = (Ret None, w1) ->
  exists w2 elapsed,
    executeCode languages code language input (Some cases) w
    = (Ret {| output := []; error := []; executionTime := elapsed;
              status := StatusSuccess;
              testCases :=
                Some (caseResults lc (filepathOf lc w) (sessionDirOf w)
                        (filenameOf lc) cases w1) |}, w2)
    /\ spawnsOf (log w2)
       = spawnsOf (log w1)
         ++ map (fun tc => runCall lc (filepathOf lc w) (sessionDirOf w)
                             (filenameOf lc) (tc_input tc)) cases.
Proof.
  intros Hlc Hne Hsetup. rewrite (executeCode_registered _ _ _ _ _ lc) by done.
  destruct (guarded_returns
              (tryBody lc code input (Some cases) (sessionDirOf w) (startTimeOf w))
              (startTimeOf w) (sessionDirOf w) (entered w)) as (r & w2 & Hrun & Hbody).
  rewrite Hrun. revert Hbody.
  unfold tryBody. rewrite (bind_ret _ _ _ _ _ Hsetup).
  unfold runPhase. destruct cases as [|tc cases]; [done|].
  cbn [hasTestCases default]. unfold bind at 1.
  rewrite testCaseLoop_eq. unfold bind, now, ret.
  intros [-> Hsp]. eexists w2, _. split; [done|].
  rewrite Hsp. cbn [log]. by rewrite afterCases_spawns.
Qed.

End Executor.

Section Phases.

Lemma childAt_0 w : childAt w 0 = hd [] (proc_script w).
Proof. unfold childAt. by destruct (proc_script w). Qed.

Lemma saneWorld_entered w : saneWorld w -> saneWorld (entered w).
Proof. by intros [? ?]. Qed.

(** An early return of the compile step is a compilation failure. *)
Lemma compileStep_early lc comp code fp sd fn t0 w r w' :
  compileStep lc comp code fp sd fn t0 w = (Ret (Some r), w') ->
  status r = StatusError
  /\ exists detail, error r = js "Compilation failed: " ++ detail.
Proof.
  unfold compileStep, bind, ret, now.
  repeat (match goal with
          | |- context [match ?x with (_, _) => _ end] => destruct x as [[?|?] ?]
          | |- context [if ?b then _ else _] => destruct b
          end; try done).
  intros [= <- <-]. simpl. eauto.
Qed.

Lemma setupPhase_early lc code sd t0 w r w' :
  setupPhase lc code sd t0 w = (Ret (Some r), w') ->
  status r = StatusError
  /\ exists detail, error r = js "Compilation failed: " ++ detail.
Proof.
  unfold setupPhase, bind, ret.
  repeat (match goal with
          | |- context [match ?x with (_, _) => _ end] => destruct x as [[?|?] ?]
          end; try done).
  destruct (compile lc) as [comp|]; [|done].
  apply compileStep_early.
Qed.

(** The run phase returns only successes, and in single-run mode only
    when the child resolved. *)
Lemma runPhase_returns lc fp sd fn input cases t0 w r w' :
  runPhase lc fp sd fn input cases t0 w = (Ret r, w') ->
  status r = StatusSuccess
  /\ (hasTestCases cases = true \/ exists cr, awaitChild (childAt w 0) = Resolved cr).
Proof.
  unfold runPhase. destruct (hasTestCases cases).
  - unfold bind at 1. rewrite testCaseLoop_eq. unfold bind, now, ret.
    intros [= <- <-]. split; [done|by left].
  - unfold bind at 1. rewrite runCommand_eq, childAt_0.
    destruct (awaitChild _) as [cr|e]; [|done].
    unfold bind, now, ret. intros [= <- <-]. split; [done|]. right. by exists cr.
Qed.

End Phases.

(** ** Compilation failures *)

Lemma setupPhase_compile_failure lc comp code sd t0 w0 w1 chunks exit rest :
  compile lc = Some comp ->
  beforeCompile lc comp code sd w0 = (Ret false, w1) ->
  completes (childAt w1 0) chunks exit rest ->
  exitCodeOf exit <> 0 ->
  setupPhase lc code sd t0 w0
  = (Ret (Some {| output := [];
                  error := js "Compilation failed: "
                             ++ or_else (trim (stderrOf chunks))
                                  (trim (stdoutOf chunks));
                  executionTime := hd 0 (clock w1) - t0;
                  status := StatusError;
                  testCases := None |}),
     ticked (spawned (compileCall lc comp sd) w1)).
Proof.
  intros Hcomp Hbefore Hdone Hexit.
  pose proof (awaitChild_completes _ _ _ _ Hdone) as Hchild.
  unfold setupPhase, compileStep. rewrite Hcomp.
  revert Hbefore. unfold beforeCompile, bind.
  destruct (perform (Mkdir sd) w0) as [[?|?] wa]; [|done].
  destruct (perform (WriteFile _ code) wa) as [[?|?] wb]; [|done].
  destruct (try_catch (ensureDir CACHE_DIR) _ wb) as [[?|?] wc]; [|done].
  intros ->. rewrite runCommand_eq, <- childAt_0, Hchild.
  cbn [exitCode stdout stderr].
  destruct (exitCodeOf exit =? 0) eqn:E; [by apply Z.eqb_eq in E|].
  reflexivity.
Qed.

(** The executor with the cache: when the compiler is run (cache miss)
    and exits with a non-zero code, [executeCode] returns the compilation
    failure and spawns nothing else. *)
Lemma executeCode_compile_failure
    (languages : gmap jsstring LanguageConfig) (code language input : jsstring)
    (cases : option (list TestCase)) (langConfig : LanguageConfig)
    (comp : CompileConfig) (w w1 : World)
    (chunks : list proc_event) (exit : option Z) (rest : list proc_event) :
  languages !! language = Some langConfig ->
  compile langConfig = Some comp ->
  beforeCompile langConfig comp code (sessionDirOf w) (entered w) = (Ret false, w1) ->
  completes (childAt w1 0) chunks exit rest ->
  exitCodeOf exit <> 0 ->
  exists w2,
    executeCode languages code language input cases w
    = (Ret {| output := [];
              error := js "Compilation failed: "
                         ++ or_else (trim (stderrOf chunks)) (trim (stdoutOf chunks));
              executionTime := hd 0 (clock w1) - startTimeOf w;
              status := StatusError;
              testCases := None |}, w2)
    /\ spawnsOf (log w2)
       = spawnsOf (log w1) ++ [compileCall langConfig comp (sessionDirOf w)].
Proof.
  intros Hlc Hcomp Hbefore Hdone Hexit.
  pose proof (setupPhase_compile_failure langConfig comp code (sessionDirOf w)
                (startTimeOf w) (entered w) w1 chunks exit rest
                Hcomp Hbefore Hdone Hexit) as Hsetup.
  rewrite (executeCode_registered _ _ _ _ _ langConfig) by done.
  destruct (guarded_returns
              (tryBody langConfig code input cases (sessionDirOf w) (startTimeOf w))
              (startTimeOf w) (sessionDirOf w) (entered w)) as (r & w2 & Hrun & Hbody).
  exists w2. rewrite Hrun. revert Hbody.
  unfold tryBody. rewrite (bind_ret _ _ _ _ _ Hsetup). unfold ret.
  intros [-> ->]. split; [done|].
  cbn [log spawned ticked]. by rewrite spawnsOf_app.
Qed.

(** ** Writes to the standard input of the children *)

Section Pipes.

Implicit Types (spawns : list call) (traces : list (list proc_event))
  (breaks : list bool).

(** No write fails: the process lives. *)
Lemma brokenPipe_holds spawns traces breaks :
  forallb negb breaks = true -> brokenPipe spawns traces breaks = false.
Proof.
  revert traces breaks.
  induction spawns as [|c spawns IH]; intros traces breaks Hb; [done|].
  cbn [brokenPipe]. destruct breaks as [|b breaks]; cbn [hd tl].
  - by rewrite andb_false_r, IH.
  - cbn [forallb] in Hb. apply andb_true_iff in Hb as [Hb Hbs].
    apply negb_true_iff in Hb as ->. by rewrite andb_false_r, IH.
Qed.

(** Nothing is written when every child is given an empty input. *)
Lemma brokenPipe_no_input spawns traces breaks :
  (forall cmd argv cwd input ms,
      Spawn cmd argv cwd input ms ∈ spawns -> input = []) ->
  brokenPipe spawns traces breaks = false.
Proof.
  revert traces breaks.
  induction spawns as [|c spawns IH]; intros traces breaks Hin; [done|].
  cbn [brokenPipe]. rewrite IH by (intros; eapply Hin; by right).
  destruct c as [| | | | | |cmd argv cwd input ms|]; try done.
  cbn [writesInput]. by rewrite (Hin cmd argv cwd input ms) by (by left).
Qed.

(** A child that is given input, has been spawned and whose write fails
    ends the process. *)
Lemma brokenPipe_first cmd argv cwd input ms spawns events traces breaks :
  input <> [] -> spawnThrew events = false ->
  brokenPipe (Spawn cmd argv cwd input ms :: spawns) (events :: traces)
    (true :: breaks) = true.
Proof.
  intros Hinput Hspawn. cbn [brokenPipe writesInput hd]. rewrite Hspawn.
  by destruct input.
Qed.

End Pipes.

(** C1, amended. For a registered language, and as long as no write to a
    child's standard input fails, [executeCode] returns a result and never
    throws. What is thrown inside the [try] block (workspace I/O, and the
    timeout, spawn error or output cap of the compiler or of the single run)
    comes back with [status = error] and the message of the thrown value; a
    compiler that runs to completion with a non-zero exit code comes back
    with [status = error] and "Compilation failed: " followed by its
    standard error, or its standard output when that is empty. In
    test-case mode a rejected child leaves [status = success] and is
    recorded in the [error] of its case. A result with [status = error] is
    a thrown value or a compilation failure, and its [error] is not empty in
    a world whose errors carry a message; a result with [status = success]
    means that set-up and compilation went through and that, outside
    test-case mode, the child resolved. *)
Theorem executeCode_registered_never_throws
    (languages : gmap jsstring LanguageConfig) (code language input : jsstring)
    (cases : option (list TestCase)) (langConfig : LanguageConfig) (w : World)
    (breaks : list bool) :
  languages !! language = Some langConfig ->
  brokenPipe (spawnedBy (executeCode languages code language input cases) w)
    (proc_script w) breaks = false ->
  exists r w',
    inProcess breaks (executeCode languages code language input cases) w
    = Some (Ret r, w')
    /\ (forall e w1,
          tryBody langConfig code input cases (sessionDirOf w) (startTimeOf w)
            (entered w) = (Throw e, w1) ->
          r = failure e (hd 0 (clock w1) - startTimeOf w))
    /\ (forall comp w1 chunks exit rest,
          compile langConfig = Some comp ->
          beforeCompile langConfig comp code (sessionDirOf w) (entered w)
          = (Ret false, w1) ->
          completes (childAt w1 0) chunks exit rest ->
          exitCodeOf exit <> 0 ->
          r = {| output := [];
                 error := js "Compilation failed: "
                            ++ or_else (trim (stderrOf chunks))
                                 (trim (stdoutOf chunks));
                 executionTime := hd 0 (clock w1) - startTimeOf w;
                 status := StatusError;
                 testCases := None |})
    /\ (forall w1 e,
          hasTestCases cases = false ->
          setupPhase langConfig code (sessionDirOf w) (startTimeOf w) (entered w)
          = (Ret None, w1) ->
          awaitChild (childAt w1 0) = Rejected e ->
          r = failure e (hd 0 (clock w1) - startTimeOf w))
    /\ (forall cs w1 i tc e,
          cases = Some cs ->
          setupPhase langConfig code (sessionDirOf w) (startTimeOf w) (entered w)
          = (Ret None, w1) ->
          cs !! i = Some tc ->
          awaitChild (childAt w1 i) = Rejected e ->
          status r = StatusSuccess
          /\ exists results tr,
               testCases r = Some results /\ results !! i = Some tr
               /\ tr_passed tr = false /\ tr_error tr = Some (messageOf e))
    /\ (status r = StatusError ->
        (exists e w1,
            tryBody langConfig code input cases (sessionDirOf w) (startTimeOf w)
              (entered w) = (Throw e, w1)
            /\ error r = messageOf e)
        \/ (exists w1 detail,
              setupPhase langConfig code (sessionDirOf w) (startTimeOf w)
                (entered w) = (Ret (Some r), w1)
              /\ error r = js "Compilation failed: " ++ detail))
    /\ (saneWorld w -> status r = StatusError -> error r <> [])
    /\ (status r = StatusSuccess ->
        exists w1,
          setupPhase langConfig code (sessionDirOf w) (startTimeOf w) (entered w)
          = (Ret None, w1)
          /\ (hasTestCases cases = true
              \/ exists cr, awaitChild (childAt w1 0) = Resolved cr)).
Proof.
  intros Hlc Halive. unfold inProcess. rewrite Halive. clear Halive.
  destruct (guarded_returns
              (tryBody langConfig code input cases (sessionDirOf w) (startTimeOf w))
              (startTimeOf w) (sessionDirOf w) (entered w)) as (r & w' & Hrun & Hbody).
  exists r, w'.
  split; [by rewrite (executeCode_registered _ _ _ _ _ langConfig), Hrun|].
  split.
  { intros e w1 He. rewrite He in Hbody. by destruct Hbody. }
  split.
  { intros comp w1 chunks exit rest Hcomp Hbefore Hdone Hexit.
    pose proof (setupPhase_compile_failure langConfig comp code (sessionDirOf w)
                  (startTimeOf w) (entered w) w1 chunks exit rest
                  Hcomp Hbefore Hdone Hexit) as Hsetup.
    revert Hbody. unfold tryBody. rewrite (bind_ret _ _ _ _ _ Hsetup). unfold ret.
    by intros [-> _]. }
  split.
  { intros w1 e Hmode Hsetup Hrej. revert Hbody.
    unfold tryBody. rewrite (bind_ret _ _ _ _ _ Hsetup).
    unfold runPhase. rewrite Hmode. unfold bind at 1.
    rewrite runCommand_eq, <- childAt_0, Hrej. by intros [-> _]. }
  split.
  { intros cs w1 i tc e -> Hsetup Hi Hrej.
    assert (Hne : cs <> []) by (by destruct cs).
    destruct (executeCode_testcases languages code language input cs
                langConfig w w1 Hlc Hne Hsetup) as (w2 & elapsed & Hcases & _).
    rewrite (executeCode_registered _ _ _ _ _ langConfig), Hrun in Hcases by done.
    injection Hcases as -> _. cbn [status testCases]. split; [done|].
    destruct (caseResults_lookup langConfig (filepathOf langConfig w)
                (sessionDirOf w) (filenameOf langConfig) cs w1 i tc Hi)
      as [el Hel].
    eexists _, _. split; [done|]. split; [exact Hel|]. by rewrite Hrej. }
  destruct (tryBody langConfig code input cases (sessionDirOf w) (startTimeOf w)
              (entered w)) as [[r0|e] w1] eqn:Hbody'.
  - destruct Hbody as [-> _]. revert Hbody'. unfold tryBody, bind.
    destruct (setupPhase langConfig code (sessionDirOf w) (startTimeOf w) (entered w))
      as [[[early|]|e] w0] eqn:Hsetup; [| |done].
    + intros [= -> ->]. destruct (setupPhase_early _ _ _ _ _ _ _ Hsetup)
        as [Hst [detail Herr]].
      split; [intros _; right; by exists w1, detail|].
      split; [intros _ _; by rewrite Herr|]. congruence.
    + intros Hphase. apply runPhase_returns in Hphase as [Hst Hmode].
      split; [congruence|]. split; [congruence|]. intros _. by exists w0.
  - destruct Hbody as [-> _].
    split; [intros _; left; by exists e, w1|].
    split; [|done]. intros Hsane _.
    pose proof (safe_tryBody langConfig code input cases (sessionDirOf w)
                  (startTimeOf w) (entered w) (saneWorld_entered w Hsane)) as [_ Hthrow].
    rewrite Hbody' in Hthrow. by apply Hthrow.
Qed.

Lemma executeCode_registered_never_throws_witness :
  exists r w',
    inProcess [true] (executeCode Sample.languages Sample.brokenCpp (js "cpp") [] None)
      (Sample.world Sample.coldCache
         [[StderrData (js "main.cpp:1:11: error: expected ')'"); Close (Some 1)]])
    = Some (Ret r, w')
    /\ r = {| output := [];
              error := js "Compilation failed: main.cpp:1:11: error: expected ')'";
              executionTime := 10; status := StatusError; testCases := None |}.
Proof.
  destruct (executeCode_registered_never_throws Sample.languages Sample.brokenCpp
              (js "cpp") [] None Sample.cppConfig
              (Sample.world Sample.coldCache
                 [[StderrData (js "main.cpp:1:11: error: expected ')'");
                   Close (Some 1)]])
              [true])
    as (r & w' & Hrun & _ & Hcompile & _).
  - reflexivity.
  - reflexivity.
  - exists r, w'. split; [exact Hrun|].
    apply (Hcompile Sample.gpp
             (beforeCompile Sample.cppConfig Sample.gpp Sample.brokenCpp
                (js "/tmp/code-execution/s1")
                (entered (Sample.world Sample.coldCache
                   [[StderrData (js "main.cpp:1:11: error: expected ')'");
                     Close (Some 1)]]))).2
             [StderrData (js "main.cpp:1:11: error: expected ')'")] (Some 1) []).
    + reflexivity.
    + vm_compute. reflexivity.
    + repeat split; vm_compute; discriminate.
    + discriminate.
Defined.

(** C1, as stated, fails on an unregistered language: the guard before
    the [try] block throws to the caller. *)
Lemma executeCode_unsupported_language_throws :
  (executeCode Sample.languages Sample.hello (js "brainfuck") [] None
     (Sample.world [] [])).1
  = Throw (ErrorObj (js "Unsupported language: brainfuck")).
Proof. reflexivity. Qed.




(** C6. A test case whose child ran to completion has for [actualOutput]
    the trimmed standard output of the run, and [passed] holds exactly when
    [actualOutput] equals the trimmed [expected]. *)
Theorem testcase_passed_iff_trimmed_equal
    (languages : gmap jsstring LanguageConfig) (code language input : jsstring)
    (cases : list TestCase) (langConfig : LanguageConfig) (w w1 : World)
    (i : nat) (tc : TestCase) (chunks : list proc_event) (exit : option Z)
    (rest : list proc_event) :
  languages !! language = Some langConfig ->
  setupPhase langConfig code (sessionDirOf w) (startTimeOf w) (entered w)
  = (Ret None, w1) ->
  cases !! i = Some tc ->
  completes (childAt w1 i) chunks exit rest ->
  exists r w2 results tr,
    executeCode languages code language input (Some cases) w = (Ret r, w2)
    /\ testCases r = Some results
    /\ results !! i = Some tr
    /\ tr_actualOutput tr = trim (stdoutOf chunks)
    /\ (tr_passed tr = true <-> tr_actualOutput tr = trim (tc_expected tc)).
Proof.
  intros Hlc Hsetup Hi Hdone.
  assert (Hne : cases <> []) by (intros ->; done).
  destruct (executeCode_testcases languages code language input cases
              langConfig w w1 Hlc Hne Hsetup) as (w2 & elapsed & Hrun & _).
  destruct (caseResults_lookup langConfig (filepathOf langConfig w)
              (sessionDirOf w) (filenameOf langConfig) cases w1 i tc Hi)
    as [el Hel].
  eexists _, w2, _, _. split; [exact Hrun|]. split; [done|]. split; [exact Hel|].
  rewrite (awaitChild_completes _ _ _ _ Hdone).
  cbn [caseResult stdout tr_actualOutput tr_passed].
  rewrite trim_idem. split; [done|].
  unfold jseqb. by rewrite bool_decide_eq_true.
Qed.

Lemma testcase_passed_iff_trimmed_equal_witness :
  exists r w2,
    executeCode Sample.languages Sample.hello (js "python") []
      (Some [ {| tc_input := js "5"; tc_expected := js "10 " |} ])
      (Sample.world [] [[StdoutData (js " 10"); StdoutData [10%N]; Close (Some 0)]])
    = (Ret r, w2)
    /\ testCases r
       = Some [ {| tr_input := js "5"; tr_expected := js "10 ";
                   tr_actualOutput := js "10"; tr_passed := true;
                   tr_error := None; tr_executionTime := 10 |} ].
Proof.
  destruct (testcase_passed_iff_trimmed_equal Sample.languages Sample.hello
              (js "python") []
              [ {| tc_input := js "5"; tc_expected := js "10 " |} ]
              Sample.pythonConfig
              (Sample.world [] [[StdoutData (js " 10"); StdoutData [10%N]; Close (Some 0)]])
              (logged (WriteFile (js "/tmp/code-execution/s1/main.py") Sample.hello)
                 (logged (Mkdir (js "/tmp/code-execution/s1"))
                    (entered (Sample.world []
                       [[StdoutData (js " 10"); StdoutData [10%N]; Close (Some 0)]]))))
              0%nat {| tc_input := js "5"; tc_expected := js "10 " |}
              [StdoutData (js " 10"); StdoutData [10%N]] (Some 0) [])
    as (r & w2 & results & tr & Hrun & _).
  - reflexivity.
  - reflexivity.
  - reflexivity.
  - repeat split; vm_compute; discriminate.
  - exists r, w2. split; [exact Hrun|].
    revert Hrun. vm_compute. intros [= <- _]. reflexivity.
Defined.

(** C7, amended. A test case whose child ran to completion has its
    [error] absent exactly when the trimmed standard error is empty;
    otherwise [error] is that trimmed standard error. *)
Theorem testcase_error_is_stderr
    (languages : gmap jsstring LanguageConfig) (code language input : jsstring)
    (cases : list TestCase) (langConfig : LanguageConfig) (w w1 : World)
    (i : nat) (tc : TestCase) (chunks : list proc_event) (exit : option Z)
    (rest : list proc_event) :
  languages !! language = Some langConfig ->
  setupPhase langConfig code (sessionDirOf w) (startTimeOf w) (entered w)
  = (Ret None, w1) ->
  cases !! i = Some tc ->
  completes (childAt w1 i) chunks exit rest ->
  exists r w2 results tr,
    executeCode languages code language input (Some cases) w = (Ret r, w2)
    /\ testCases r = Some results
    /\ results !! i = Some tr
    /\ (tr_error tr = None <-> trim (stderrOf chunks) = [])
    /\ (trim (stderrOf chunks) <> [] ->
        tr_error tr = Some (trim (stderrOf chunks))).
Proof.
  intros Hlc Hsetup Hi Hdone.
  assert (Hne : cases <> []) by (intros ->; done).
  destruct (executeCode_testcases languages code language input cases
              langConfig w w1 Hlc Hne Hsetup) as (w2 & elapsed & Hrun & _).
  destruct (caseResults_lookup langConfig (filepathOf langConfig w)
              (sessionDirOf w) (filenameOf langConfig) cases w1 i tc Hi)
    as [el Hel].
  eexists _, w2, _, _. split; [exact Hrun|]. split; [done|]. split; [exact Hel|].
  rewrite (awaitChild_completes _ _ _ _ Hdone).
  cbn [caseResult stderr tr_error].
  by destruct (trim (stderrOf chunks)).
Qed.

Lemma testcase_error_is_stderr_witness :
  exists r w2,
    executeCode Sample.languages Sample.hello (js "python") []
      (Some [ {| tc_input := []; tc_expected := js "1" |} ])
      (Sample.world [] [[StdoutData (js "1"); Close (Some 0)]])
    = (Ret r, w2)
    /\ testCases r
       = Some [ {| tr_input := []; tr_expected := js "1";
                   tr_actualOutput := js "1"; tr_passed := true;
                   tr_error := None; tr_executionTime := 10 |} ].
Proof.
  destruct (testcase_error_is_stderr Sample.languages Sample.hello
              (js "python") []
              [ {| tc_input := []; tc_expected := js "1" |} ]
              Sample.pythonConfig
              (Sample.world [] [[StdoutData (js "1"); Close (Some 0)]])
              (logged (WriteFile (js "/tmp/code-execution/s1/main.py") Sample.hello)
                 (logged (Mkdir (js "/tmp/code-execution/s1"))
                    (entered (Sample.world [] [[StdoutData (js "1"); Close (Some 0)]]))))
              0%nat {| tc_input := []; tc_expected := js "1" |}
              [StdoutData (js "1")] (Some 0) [])
    as (r & w2 & results & tr & Hrun & _).
  - reflexivity.
  - reflexivity.
  - reflexivity.
  - repeat split; vm_compute; discriminate.
  - exists r, w2. split; [exact Hrun|].
    revert Hrun. vm_compute. intros [= <- _]. reflexivity.
Defined.

(** C7, as stated, fails: a child that runs to completion and exits with
    code 0 after writing a warning to standard error leaves the case passed
    and its [error] set. *)
Lemma testcase_error_set_on_completed_run :
  completes [StdoutData (js "1"); StderrData (js "warning: deprecated");
             Close (Some 0)]
    [StdoutData (js "1"); StderrData (js "warning: deprecated")] (Some 0) []
  /\ (executeCode Sample.languages Sample.hello (js "python") []
        (Some [ {| tc_input := []; tc_expected := js "1" |} ])
        (Sample.world []
           [[StdoutData (js "1"); StderrData (js "warning: deprecated");
             Close (Some 0)]])).1
     = Ret {| output := []; error := []; executionTime := 30;
              status := StatusSuccess;
              testCases :=
                Some [ {| tr_input := []; tr_expected := js "1";
                          tr_actualOutput := js "1"; tr_passed := true;
                          tr_error := Some (js "warning: deprecated");
                          tr_executionTime := 10 |} ] |}.
Proof. split; [repeat split; vm_compute; discriminate|reflexivity]. Qed.




(** C2. The executor without the cache drops the result of the compile
    command: on a compiler that exits with code 1 it goes on to spawn the
    program, and the result carries the spawn error instead of the
    compilation failure. The executor with the cache, on the same job,
    returns the compilation failure. *)
Theorem uncached_compile_failure_ignored :
  let children :=
    [ [StderrData (js "main.cpp:1: error"); Close (Some 1)];
      [ProcError (js "spawn ./program ENOENT")] ] in
  let run :=
    Uncached.executeCode Sample.languages Sample.brokenCpp (js "cpp") [] None
      (Sample.world [] children) in
  run.1 = Ret {| output := []; error := js "spawn ./program ENOENT";
                 executionTime := 10; status := StatusError;
                 testCases := None |}
  /\ spawnsOf (log run.2)
     = [ compileCall Sample.cppConfig Sample.gpp (js "/tmp/code-execution/s1");
         runCall Sample.cppConfig (js "/tmp/code-execution/s1/main.cpp")
           (js "/tmp/code-execution/s1") (js "main.cpp") [] ]
  /\ (executeCode Sample.languages Sample.brokenCpp (js "cpp") [] None
        (Sample.world Sample.coldCache children)).1
     = Ret {| output := []; error := js "Compilation failed: main.cpp:1: error";
              executionTime := 10; status := StatusError; testCases := None |}.
Proof. repeat split; vm_compute; reflexivity. Qed.

(** ** The cache key *)

(** The digest on the test vectors of the standard. *)
Example sha256_abc :
  Sha256.sha256_hex (js "abc")
  = js "ba7816bf8f01cfea414140de5dae2223b00361a396177a9cb410ff61f20015ad".
Proof. vm_compute. reflexivity. Qed.

Example sha256_two_blocks :
  Sha256.sha256_hex (js "abcdbcdecdefdefgefghfghighijhijkijkljklmklmnlmnomnopnopq")
  = js "248d6a61d20638b8e5c026930c3e6039a33ce45964ff2167f6ecedd419db06c1".
Proof. vm_compute. reflexivity. Qed.

Section CacheKey.

Import Sha256.

Lemma utf8_cons x rest :
  utf8 (x :: rest)
  = let u := Z.of_N x in
    if u <? 128 then u :: utf8 rest
    else if u <? 2048 then
      Z.lor 192 (Z.shiftr u 6) :: Z.lor 128 (Z.land u 63) :: utf8 rest
    else if (55296 <=? u) && (u <? 56320) then
      match rest with
      | d :: rest' =>
          if lowSurrogate d then
            let p := 65536 + Z.shiftl (u - 55296) 10 + (Z.of_N d - 56320) in
            Z.lor 240 (Z.shiftr p 18)
              :: Z.lor 128 (Z.land (Z.shiftr p 12) 63)
              :: Z.lor 128 (Z.land (Z.shiftr p 6) 63)
              :: Z.lor 128 (Z.land p 63) :: utf8 rest'
          else 239 :: 191 :: 189 :: utf8 rest
      | [] => [239; 191; 189]
      end
    else if (56320 <=? u) && (u <? 57344) then 239 :: 191 :: 189 :: utf8 rest
    else
      Z.lor 224 (Z.shiftr u 12)
        :: Z.lor 128 (Z.land (Z.shiftr u 6) 63)
        :: Z.lor 128 (Z.land u 63) :: utf8 rest.
Proof. by destruct rest. Qed.

Lemma utf8_sep a c b :
  lowSurrogate c = false -> utf8 (a ++ c :: b) = utf8 a ++ utf8 (c :: b).
Proof.
  intros Hc.
  enough (H : utf8 (a ++ c :: b) = utf8 a ++ utf8 (c :: b)
              /\ forall x, utf8 (x :: a ++ c :: b) = utf8 (x :: a) ++ utf8 (c :: b))
    by apply H.
  induction a as [|d a [IH1 IH2]].
  - split; [done|]. intros x. cbn [app].
    rewrite (utf8_cons x (c :: b)), (utf8_cons x []). cbv beta iota zeta.
    rewrite Hc.
    repeat (match goal with |- context [if ?t then _ else _] => destruct t end;
            try done).
  - split; [apply IH2|]. intros x.
    change (x :: (d :: a) ++ c :: b) with (x :: d :: (a ++ c :: b)).
    rewrite (utf8_cons x (d :: a ++ c :: b)), (utf8_cons x (d :: a)).
    cbv beta iota zeta. rewrite IH1, IH2.
    repeat (match goal with |- context [if ?t then _ else _] => destruct t end;
            try done).
Qed.

Lemma utf8_ascii c rest :
  (c < 128)%N -> utf8 (c :: rest) = Z.of_N c :: utf8 rest.
Proof.
  intros Hc. rewrite utf8_cons. cbv zeta.
  by rewrite (proj2 (Z.ltb_lt _ _)) by lia.
Qed.

End CacheKey.

(** C3, amended. The cache key is the SHA-256 digest, in hexadecimal, of
    the bytes of the language name, a colon, the compile command, a colon,
    the compile arguments joined by single spaces, a 0x0A byte, and the
    source. *)
Theorem cacheKey_is_digest_of_colon_separated_bytes
    (langConfig : LanguageConfig) (comp : CompileConfig) (code : jsstring) :
  cacheKeyOf langConfig comp code
  = Sha256.digest_hex
      (Sha256.utf8 (name langConfig) ++ [58]
       ++ Sha256.utf8 (c_command comp) ++ [58]
       ++ Sha256.utf8 (join (js " ") (c_args comp)) ++ [10]
       ++ Sha256.utf8 code).
Proof.
  unfold cacheKeyOf, hashContent, Sha256.sha256_hex. f_equal.
  change (js ":") with [58%N].
  rewrite <- !app_assoc. cbn [app].
  by rewrite !utf8_sep, !utf8_ascii, !utf8_sep, !utf8_ascii, !utf8_sep,
    !utf8_ascii.
Qed.

(** C3, as stated, fails: the bytes hashed are separated by colons, not
    by a 0x0A byte and a space. *)
Lemma cacheKey_differs_from_newline_space_bytes :
  cacheKeyOf Sample.cppConfig Sample.gpp Sample.brokenCpp
  <> Sha256.digest_hex
       (Sha256.utf8 (js "cpp") ++ [10]
        ++ Sha256.utf8 (js "g++") ++ [32]
        ++ Sha256.utf8 (join (js " ") (c_args Sample.gpp)) ++ [10]
        ++ Sha256.utf8 Sample.brokenCpp).
Proof. vm_compute. discriminate. Qed.

Section Overflow.

Lemma rev_repeat (c : N) n : rev (repeat c n) = repeat c n.
Proof.
  induction n as [|n IH]; [done|].
  cbn [repeat]. rewrite repeat_cons at 1. by rewrite rev_app_distr, IH.
Qed.

Lemma trim_repeat (c : N) n : is_white c = false -> trim (repeat c n) = repeat c n.
Proof.
  intros Hc.
  assert (Hs : forall m, trimStart (repeat c m) = repeat c m).
  { intros [|m]; simpl; [done|]. by rewrite Hc. }
  unfold trim, trimEnd. by rewrite Hs, rev_repeat, Hs, rev_repeat.
Qed.

Lemma utf8_euros n : length (Sha256.utf8 (repeat 8364%N n)) = (3 * n)%nat.
Proof.
  induction n as [|n IH]; [done|].
  cbn [repeat]. rewrite utf8_cons. cbv zeta.
  change (Z.of_N 8364 <? 128) with false.
  change (Z.of_N 8364 <? 2048) with false.
  change ((55296 <=? Z.of_N 8364) && (Z.of_N 8364 <? 56320)) with false.
  change ((56320 <=? Z.of_N 8364) && (Z.of_N 8364 <? 57344)) with false.
  cbv iota. cbn [length]. rewrite IH. lia.
Qed.

(** A chunk of euro signs within the cap resolves, three bytes a sign. *)
Lemma euros_resolve n :
  Z.of_nat n <= MAX_OUTPUT_SIZE ->
  awaitChild [StdoutData (repeat 8364%N n); Close (Some 0)]
  = Resolved {| stdout := repeat 8364%N n; stderr := []; exitCode := 0 |}
  /\ byteLength (repeat 8364%N n) = 3 * Z.of_nat n.
Proof.
  intros Hn. split.
  - rewrite (awaitChild_completes _ [StdoutData (repeat 8364%N n)] (Some 0) []).
    + cbn [stdoutOf stderrOf exitCodeOf]. rewrite app_nil_r.
      by rewrite trim_repeat.
    + split; [done|]. split; [done|]. cbn [stdoutOf stderrOf].
      rewrite app_nil_r. unfold jslength. rewrite repeat_length.
      split; [done|]. unfold MAX_OUTPUT_SIZE. simpl. lia.
  - unfold byteLength. rewrite utf8_euros. lia.
Qed.

End Overflow.

(** C4, as stated, fails twice. On standard error the rejection reads
    "Error output size exceeded limit". And the cap counts code units, not
    bytes: [MAX_OUTPUT_SIZE] euro signs on standard output resolve, with
    three times as many bytes. *)
Lemma output_cap_in_units_and_stderr_message :
  (jslength overflowing > MAX_OUTPUT_SIZE
   /\ awaitChild [StderrData overflowing]
      = Rejected (ErrorObj (js "Error output size exceeded limit"))
   /\ awaitChild [StderrData overflowing]
      <> Rejected (ErrorObj (js "Output size exceeded limit")))
  /\ (awaitChild [StdoutData euros; Close (Some 0)]
      = Resolved {| stdout := euros; stderr := []; exitCode := 0 |}
      /\ byteLength euros = 3 * MAX_OUTPUT_SIZE
      /\ byteLength euros > MAX_OUTPUT_SIZE).
Proof.
  split.
  - assert (Hlen : jslength overflowing > MAX_OUTPUT_SIZE).
    { unfold jslength, overflowing. rewrite repeat_length, Z2Nat.id; [lia|].
      unfold MAX_OUTPUT_SIZE. lia. }
    revert Hlen. generalize overflowing as big. intros big Hlen.
    destruct (stderr_overflow [] big Hlen) as (_ & _ & Hmsg).
    split; [exact Hlen|].
    pose proof (Hmsg eq_refl []) as Hrej. cbn [app] in Hrej.
    rewrite Hrej. split; [reflexivity|discriminate].
  - assert (Hn : Z.of_nat (Z.to_nat MAX_OUTPUT_SIZE) = MAX_OUTPUT_SIZE).
    { apply Z2Nat.id. unfold MAX_OUTPUT_SIZE. lia. }
    unfold euros. revert Hn. generalize (Z.to_nat MAX_OUTPUT_SIZE) as n.
    intros n Hn. destruct (euros_resolve n) as [Hres Hbytes]; [lia|].
    rewrite Hres, Hbytes, Hn. split; [done|]. split; [done|].
    unfold MAX_OUTPUT_SIZE. lia.
Qed.

(** ** The pending promise and the timer *)

(** While the promise is pending the timer is still set: its firing is
    the next event of a silent child, and rejects with the timeout. *)
Lemma awaitChild_timer (events : list proc_event) :
  ps_promise (childProcess (events ++ [TimerFired])) = Some (awaitChild events).
Proof.
  rewrite childProcess_app. unfold awaitChild. cbn [fold_left].
  destruct (ps_promise (childProcess events)) as [s|] eqn:E.
  - by apply handle_settled.
  - destruct (inv_pending _ (childProcess_inv events) E) as [Ht Hk].
    unfold handle. rewrite Ht. unfold killAndReject, settle. cbn. by rewrite E.
Qed.

(** ** The depth bound of [copyDir] *)

Section CopyDir.

Lemma shrinks_ret {A} (a : A) : shrinks (ret a).
Proof. by intros w. Qed.

Lemma shrinks_bind {A B} (m : M A) (k : A -> M B) :
  shrinks m -> (forall a, shrinks (k a)) -> shrinks (let* x := m in k x).
Proof.
  intros Hm Hk w. unfold bind. specialize (Hm w).
  destruct (m w) as [[a|e] w']; simpl in *; [|done].
  specialize (Hk a w'). lia.
Qed.

Lemma shrinks_forEach {A} (l : list A) (f : A -> M unit) :
  (forall x, shrinks (f x)) -> shrinks (forEach l f).
Proof.
  intros Hf. induction l as [|x l IH]; simpl.
  - apply shrinks_ret.
  - by apply shrinks_bind.
Qed.

Lemma perform_script c w :
  length (fs_script (perform c w).2) = pred (length (fs_script w)).
Proof. unfold perform. by destruct (fs_script w) as [|[|]]. Qed.

Lemma shrinks_perform c : shrinks (perform c).
Proof. intros w. rewrite perform_script. lia. Qed.

Lemma shrinks_ensureDir dir : shrinks (ensureDir dir).
Proof.
  unfold ensureDir. apply shrinks_bind; [apply shrinks_perform|].
  intros. apply shrinks_ret.
Qed.

Lemma shrinks_copyFile src dest : shrinks (copyFile src dest).
Proof.
  unfold copyFile. apply shrinks_bind; [apply shrinks_ensureDir|]. intros.
  apply shrinks_bind; [apply shrinks_perform|]. intros. apply shrinks_ret.
Qed.

Lemma shrinks_copyDirFuel fuel src dest : shrinks (copyDirFuel fuel src dest).
Proof.
  revert src dest. induction fuel as [|fuel IH]; intros src dest; simpl.
  - apply shrinks_ret.
  - apply shrinks_bind; [apply shrinks_ensureDir|]. intros.
    apply shrinks_bind; [apply shrinks_perform|]. intros entries.
    apply shrinks_forEach. intros entry.
    destruct (isDirectory entry); [apply IH|].
    destruct (isFile entry); [apply shrinks_copyFile|apply shrinks_ret].
Qed.

(** A listing with entries was read off the script. *)
Lemma readdir_entries p w entries w' :
  perform (Readdir p) w = (Ret entries, w') ->
  entries <> [] ->
  (length (fs_script w') < length (fs_script w))%nat.
Proof.
  unfold perform. destruct (fs_script w) as [|[es|e] rest]; intros [= <- <-];
    simpl; [done|lia].
Qed.

Lemma forEach_ext {A} (l : list A) (f g : A -> M unit) (n : nat) w :
  (forall x w', (length (fs_script w') < n)%nat -> f x w' = g x w') ->
  (forall x, shrinks (g x)) ->
  (length (fs_script w) < n)%nat ->
  forEach l f w = forEach l g w.
Proof.
  intros Hfg Hg. revert w. induction l as [|x l IH]; intros w Hw; simpl; [done|].
  unfold bind. rewrite Hfg by done.
  pose proof (Hg x w) as Hs.
  destruct (g x w) as [[[]|e] w']; simpl in *; [|done].
  apply IH. lia.
Qed.

(** Fuel beyond the length of the script changes nothing. *)
Lemma copyDirFuel_enough fuel src dest w :
  (length (fs_script w) < fuel)%nat ->
  copyDirFuel fuel src dest w = copyDirFuel (S fuel) src dest w.
Proof.
  revert src dest w. induction fuel as [|fuel IH]; intros src dest w Hw; [lia|].
  change (copyDirFuel (S fuel) src dest w) with
    ((let* _ := ensureDir dest in
      let* entries := perform (Readdir src) in
      forEach entries (fun entry =>
        if isDirectory entry
        then copyDirFuel fuel (path_join src (d_name entry))
               (path_join dest (d_name entry))
        else if isFile entry
        then copyFile (path_join src (d_name entry)) (path_join dest (d_name entry))
        else ret tt)) w).
  change (copyDirFuel (S (S fuel)) src dest w) with
    ((let* _ := ensureDir dest in
      let* entries := perform (Readdir src) in
      forEach entries (fun entry =>
        if isDirectory entry
        then copyDirFuel (S fuel) (path_join src (d_name entry))
               (path_join dest (d_name entry))
        else if isFile entry
        then copyFile (path_join src (d_name entry)) (path_join dest (d_name entry))
        else ret tt)) w).
  unfold bind at 1 3. pose proof (shrinks_ensureDir dest w) as Hs1.
  destruct (ensureDir dest w) as [[[]|e] w1]; simpl in Hs1; [|done].
  unfold bind.
  destruct (perform (Readdir src) w1) as [[entries|e] w2] eqn:Hread; [|done].
  destruct entries as [|entry entries]; [done|].
  apply readdir_entries in Hread; [|done].
  apply (forEach_ext _ _ _ fuel); [| |lia].
  - intros x w' Hw'. destruct (isDirectory x); [by apply IH|done].
  - intros x. destruct (isDirectory x); [apply shrinks_copyDirFuel|].
    destruct (isFile x); [apply shrinks_copyFile|apply shrinks_ret].
Qed.

Lemma copyDir_any_fuel extra src dest w :
  copyDir src dest w
  = copyDirFuel (S (length (fs_script w)) + extra) src dest w.
Proof.
  unfold copyDir. induction extra as [|extra IH]; [by rewrite Nat.add_0_r|].
  rewrite IH, Nat.add_succ_r. apply copyDirFuel_enough. lia.
Qed.

End CopyDir.

(** ** The load balancer *)

Section LoadBalancer.

Import Master.

Implicit Types (codeQueues : gmap jsstring Queue) (c best winner : jsstring).

Lemma lookupWaiting_reachable codeQueues c lookups :
  (exists q jobs, codeQueues !! c = Some q /\ getWaiting q = Ret jobs) ->
  exists jobs,
    lookupWaiting codeQueues c lookups = (Ret jobs, lookups ++ [c])
    /\ length jobs = waitingDepth codeQueues c.
Proof.
  intros (q & jobs & Hq & Hjobs). exists jobs.
  unfold lookupWaiting, waitingDepth. rewrite Hq.
  destruct q as [qn gw]. simpl in *. by subst gw.
Qed.

Lemma reachable_cons codeQueues c rest :
  reachable codeQueues (c :: rest) ->
  (exists q jobs, codeQueues !! c = Some q /\ getWaiting q = Ret jobs)
  /\ reachable codeQueues rest.
Proof.
  intros H. split; [apply H; by left|]. intros c' Hc'. apply H. by right.
Qed.

(** The loop keeps the first of the least loaded containers. *)
Lemma selectLoop_spec codeQueues rest best lowest lookups :
  reachable codeQueues rest ->
  exists winner,
    selectLoop codeQueues rest best lowest lookups = (Ret winner, lookups ++ rest)
    /\ ((winner = best
         /\ forall c, c ∈ rest -> (length lowest <= waitingDepth codeQueues c)%nat)
        \/ exists k,
             rest !! k = Some winner
             /\ (waitingDepth codeQueues winner < length lowest)%nat
             /\ (forall c, c ∈ rest ->
                   (waitingDepth codeQueues winner <= waitingDepth codeQueues c)%nat)
             /\ forall j c, (j < k)%nat -> rest !! j = Some c ->
                  (waitingDepth codeQueues winner < waitingDepth codeQueues c)%nat).
Proof.
  revert best lowest lookups.
  induction rest as [|c rest IH]; intros best lowest lookups Hreach.
  - exists best. simpl. rewrite app_nil_r. split; [done|]. left. split; [done|].
    intros c Hc. by apply elem_of_nil in Hc.
  - apply reachable_cons in Hreach as [Hc Hrest].
    destruct (lookupWaiting_reachable codeQueues c lookups Hc) as (jobs & Hlook & Hlen).
    cbn [selectLoop]. rewrite Hlook.
    replace (lookups ++ c :: rest) with ((lookups ++ [c]) ++ rest)
      by by rewrite <- app_assoc.
    destruct (length jobs <? length lowest)%nat eqn:Hlt.
    + apply Nat.ltb_lt in Hlt.
      destruct (IH c jobs (lookups ++ [c]) Hrest) as (winner & Hrun & Hcase).
      exists winner. split; [done|]. right.
      destruct Hcase as [[-> Hmin]|(k & Hk & Hless & Hmin & Hfirst)].
      * exists 0%nat. split; [done|]. split; [lia|]. split.
        -- intros c' [->|Hc']%elem_of_cons; [lia|]. specialize (Hmin c' Hc'). lia.
        -- intros j c' Hj. lia.
      * exists (S k). split; [done|]. split; [lia|]. split.
        -- intros c' [->|Hc']%elem_of_cons; [lia|]. by apply Hmin.
        -- intros [|j] c' Hj Hc'; simpl in Hc'.
           ++ injection Hc' as <-. lia.
           ++ apply (Hfirst j); [lia|done].
    + apply Nat.ltb_ge in Hlt.
      destruct (IH best lowest (lookups ++ [c]) Hrest) as (winner & Hrun & Hcase).
      exists winner. split; [done|].
      destruct Hcase as [[-> Hmin]|(k & Hk & Hless & Hmin & Hfirst)].
      * left. split; [done|].
        intros c' [->|Hc']%elem_of_cons; [lia|]. by apply Hmin.
      * right. exists (S k). split; [done|]. split; [lia|]. split.
        -- intros c' [->|Hc']%elem_of_cons; [lia|]. by apply Hmin.
        -- intros [|j] c' Hj Hc'; simpl in Hc'.
           ++ injection Hc' as <-. lia.
           ++ apply (Hfirst j); [lia|done].
Qed.

Lemma selectAmong_spec codeQueues containers :
  (1 < length containers)%nat ->
  reachable codeQueues containers ->
  exists i winner,
    containers !! i = Some winner
    /\ selectAmong codeQueues containers = (Ret winner, containers)
    /\ (forall c, c ∈ containers ->
          (waitingDepth codeQueues winner <= waitingDepth codeQueues c)%nat)
    /\ forall j c, (j < i)%nat -> containers !! j = Some c ->
         (waitingDepth codeQueues winner < waitingDepth codeQueues c)%nat.
Proof.
  destruct containers as [|c0 [|c1 rest]]; cbn [length]; [lia..|].
  intros _ Hreach.
  apply reachable_cons in Hreach as [Hc0 Hrest].
  destruct (lookupWaiting_reachable codeQueues c0 [] Hc0) as (jobs & Hlook & Hlen).
  unfold selectAmong. rewrite Hlook. cbn [app].
  destruct (selectLoop_spec codeQueues (c1 :: rest) c0 jobs [c0] Hrest)
    as (winner & Hrun & Hcase).
  rewrite Hrun. cbn [app].
  destruct Hcase as [[-> Hmin]|(k & Hk & Hless & Hmin & Hfirst)].
  - exists 0%nat, c0. split; [done|]. split; [done|]. split.
    + intros c [->|Hc]%elem_of_cons; [lia|]. specialize (Hmin c Hc). lia.
    + intros j c Hj. lia.
  - exists (S k), winner. split; [done|]. split; [done|]. split.
    + intros c [->|Hc]%elem_of_cons; [lia|]. by apply Hmin.
    + intros [|j] c Hj Hc; simpl in Hc.
      * injection Hc as <-. lia.
      * apply (Hfirst j); [lia|done].
Qed.

End LoadBalancer.

(** C8. For a language with several queues the dispatcher reads the
    waiting list of each queue once, in the fixed order, and selects a queue
    of least waiting depth, the earliest of them; for a language with one
    queue it selects that queue and reads no waiting list. *)
Theorem selectContainer_least_waiting
    (codeQueues : gmap jsstring Master.Queue) (language : jsstring)
    (containers : list jsstring) :
  Master.getContainersForLanguage language = Ret containers ->
  Master.reachable codeQueues containers ->
  (forall only, containers = [only] ->
     Master.selectContainer codeQueues language = (Ret only, []))
  /\ ((1 < length containers)%nat ->
      exists i winner,
        containers !! i = Some winner
        /\ Master.selectContainer codeQueues language = (Ret winner, containers)
        /\ (forall c, c ∈ containers ->
              (Master.waitingDepth codeQueues winner
               <= Master.waitingDepth codeQueues c)%nat)
        /\ forall j c, (j < i)%nat -> containers !! j = Some c ->
             (Master.waitingDepth codeQueues winner
              < Master.waitingDepth codeQueues c)%nat).
Proof.
  intros Hlang Hreach. unfold Master.selectContainer. rewrite Hlang. split.
  - by intros only ->.
  - intros Hmany. by apply selectAmong_spec.
Qed.

Lemma selectContainer_least_waiting_witness :
  Master.selectContainer Sample.queues (js "python")
  = (Ret (js "python-2"), [js "python-1"; js "python-2"]).
Proof.
  destruct (selectContainer_least_waiting Sample.queues (js "python")
              [js "python-1"; js "python-2"]) as [_ Hmany].
  - reflexivity.
  - intros c Hc.
    apply elem_of_cons in Hc as [->|Hc];
      [|apply elem_of_cons in Hc as [->|Hc]; [|by apply elem_of_nil in Hc]];
      eexists _, _; split; reflexivity.
  - destruct Hmany as (i & winner & _ & Hrun & _); [simpl; lia|].
    pose proof Hrun as Hwinner. vm_compute in Hwinner.
    injection Hwinner as <-. exact Hrun.
Defined.

(** * Further properties of the executor *)

(** ** What a computation adds to the log *)

Section Extends.

Lemma extends_ret {A} (a : A) : extends (ret a).
Proof. intros w. exists []. simpl. by rewrite app_nil_r. Qed.

Lemma extends_bind {A B} (m : M A) (k : A -> M B) :
  extends m -> (forall a, extends (k a)) -> extends (let* x := m in k x).
Proof.
  intros Hm Hk w. unfold bind. destruct (Hm w) as [l Hl].
  destruct (m w) as [[a|e] w']; simpl in *; [|by exists l].
  destruct (Hk a w') as [l' Hl']. exists (l ++ l').
  by rewrite Hl', Hl, app_assoc.
Qed.

Lemma extends_try_catch {A} (m : M A) (h : thrown -> M A) :
  extends m -> (forall e, extends (h e)) -> extends (try_catch m h).
Proof.
  intros Hm Hh w. unfold try_catch. destruct (Hm w) as [l Hl].
  destruct (m w) as [[a|e] w']; simpl in *; [by exists l|].
  destruct (Hh e w') as [l' Hl']. exists (l ++ l').
  by rewrite Hl', Hl, app_assoc.
Qed.

Lemma extends_forEach {A} (l : list A) (f : A -> M unit) :
  (forall x, extends (f x)) -> extends (forEach l f).
Proof.
  intros Hf. induction l as [|x l IH]; simpl.
  - apply extends_ret.
  - by apply extends_bind.
Qed.

Lemma extends_now : extends now.
Proof. intros w. exists []. simpl. by rewrite app_nil_r. Qed.

Lemma extends_perform c : extends (perform c).
Proof. intros w. exists [c]. unfold perform. by destruct (fs_script w) as [|[|]]. Qed.

Lemma extends_consoleError msg : extends (consoleError msg).
Proof. intros w. by exists [ConsoleError msg]. Qed.

Lemma extends_runCommand cmd argv cwd input ms :
  extends (runCommand cmd argv cwd input ms).
Proof.
  intros w. exists [Spawn cmd argv cwd input ms]. rewrite runCommand_eq. done.
Qed.

End Extends.

Create HintDb extends.
#[local] Hint Resolve extends_ret extends_now extends_perform
  extends_consoleError extends_runCommand : extends.

Ltac extends_step :=
  match goal with
  | |- extends (bind _ _) => apply extends_bind; [|intros ?]
  | |- extends (try_catch _ _) => apply extends_try_catch; [|intros ?]
  | |- extends (forEach _ _) => apply extends_forEach; intros ?
  | |- extends (if ?b then _ else _) => destruct b
  | |- extends (match ?x with _ => _ end) => destruct x
  | |- extends _ => solve [auto with extends]
  end.

Section ExtendsExecutor.

Lemma extends_ensureDir dir : extends (ensureDir dir).
Proof. unfold ensureDir. repeat extends_step. Qed.

Lemma extends_copyFile src dest : extends (copyFile src dest).
Proof. unfold copyFile. pose proof extends_ensureDir. repeat extends_step. Qed.

Lemma extends_pathExists p : extends (pathExists p).
Proof. unfold pathExists. repeat extends_step. Qed.

Lemma extends_copyDirFuel fuel src dest : extends (copyDirFuel fuel src dest).
Proof.
  revert src dest. induction fuel as [|fuel IH]; intros src dest; simpl.
  - apply extends_ret.
  - pose proof extends_ensureDir. pose proof extends_copyFile.
    repeat extends_step.
Qed.

Lemma extends_copyDir src dest : extends (copyDir src dest).
Proof. intros w. unfold copyDir. apply extends_copyDirFuel. Qed.

Lemma extends_cacheLookup lc cacheDir sd : extends (cacheLookup lc cacheDir sd).
Proof.
  unfold cacheLookup.
  pose proof extends_pathExists. pose proof extends_copyFile.
  pose proof extends_copyDir. repeat extends_step.
Qed.

Lemma extends_cacheSave lc cacheDir sd : extends (cacheSave lc cacheDir sd).
Proof.
  unfold cacheSave.
  pose proof extends_pathExists. pose proof extends_copyFile.
  pose proof extends_copyDir. pose proof extends_ensureDir.
  repeat extends_step.
Qed.

Lemma extends_compileStep lc comp code fp sd fn t0 :
  extends (compileStep lc comp code fp sd fn t0).
Proof.
  unfold compileStep.
  pose proof extends_cacheLookup. pose proof extends_cacheSave.
  pose proof extends_ensureDir. repeat extends_step.
Qed.

Lemma extends_runTestCase lc fp sd fn tc : extends (runTestCase lc fp sd fn tc).
Proof. unfold runTestCase. repeat extends_step. Qed.

Lemma extends_testCaseLoop lc fp sd fn cases acc :
  extends (testCaseLoop lc fp sd fn cases acc).
Proof.
  revert acc. induction cases as [|tc cases IH]; intros acc; simpl.
  - apply extends_ret.
  - pose proof extends_runTestCase. repeat extends_step.
Qed.

Lemma extends_runPhase lc fp sd fn input cases t0 :
  extends (runPhase lc fp sd fn input cases t0).
Proof. unfold runPhase. pose proof extends_testCaseLoop. repeat extends_step. Qed.

(** The [try] block starts by creating the session directory. *)
Lemma tryBody_log lc code input cases sd t0 w :
  exists l,
    log (tryBody lc code input cases sd t0 w).2 = log w ++ Mkdir sd :: l.
Proof.
  assert (Hrest : forall early : option ExecutionResult,
            extends (match early with
                     | Some r => ret r
                     | None => runPhase lc (path_join sd (filenameOf lc)) sd
                                 (filenameOf lc) input cases t0
                     end)).
  { intros [r|]; [apply extends_ret|apply extends_runPhase]. }
  assert (Hsetup : forall a : list dirent,
            extends (let* _ := perform (WriteFile (path_join sd (filenameOf lc)) code) in
                     match compile lc with
                     | Some comp =>
                         compileStep lc comp code (path_join sd (filenameOf lc)) sd
                           (filenameOf lc) t0
                     | None => ret None
                     end)).
  { intros _. pose proof extends_compileStep. repeat extends_step. }
  unfold tryBody, setupPhase. unfold bind at 1 2.
  assert (Hmk : log (perform (Mkdir sd) w).2 = log w ++ [Mkdir sd]).
  { unfold perform. by destruct (fs_script w) as [|[|]]. }
  destruct (perform (Mkdir sd) w) as [[a|e] w1]; simpl in Hmk.
  - destruct (Hsetup a w1) as [l1 Hl1].
    match type of Hl1 with log (?m w1).2 = _ => destruct (m w1) as [[early|e] w2] end;
      simpl in Hl1.
    + destruct (Hrest early w2) as [l2 Hl2]. exists (l1 ++ l2).
      rewrite Hl2, Hl1, Hmk. by rewrite <- !app_assoc.
    + exists l1. simpl. rewrite Hl1, Hmk. by rewrite <- app_assoc.
  - exists []. simpl. by rewrite Hmk.
Qed.

(** What the [finally] clause adds to the log. *)
Lemma cleanup_log sd w :
  exists w',
    cleanup sd w = (Ret tt, w')
    /\ (log w' = log w ++ [Rm sd]
        \/ log w' = log w ++ [Rm sd; ConsoleError (js "Cleanup error:")]).
Proof.
  unfold cleanup, try_catch, bind, perform, consoleError, ret, logged.
  destruct (fs_script w) as [|[entries|e] rest]; eexists; (split; [done|]);
    simpl; [by left..|right]. by rewrite <- app_assoc.
Qed.

End ExtendsExecutor.

(** ** What a computation takes off the scripts *)

Section Metered.

Lemma fsCount_app l l' : fsCount (l ++ l') = (fsCount l + fsCount l')%nat.
Proof. induction l as [|c l IH]; simpl; [done|]. rewrite IH. lia. Qed.

Lemma metered_nil w :
  log w = log w ++ []
  /\ fs_script w = drop (fsCount []) (fs_script w)
  /\ proc_script w = drop (length (spawnsOf [])) (proc_script w).
Proof. by rewrite app_nil_r. Qed.

Lemma metered_ret {A} (a : A) : metered (ret a).
Proof. intros w. exists []. apply metered_nil. Qed.

Lemma metered_throw {A} e : metered (@throw A e).
Proof. intros w. exists []. apply metered_nil. Qed.

Lemma metered_seq w w' w'' l l' :
  log w' = log w ++ l
  /\ fs_script w' = drop (fsCount l) (fs_script w)
  /\ proc_script w' = drop (length (spawnsOf l)) (proc_script w) ->
  log w'' = log w' ++ l'
  /\ fs_script w'' = drop (fsCount l') (fs_script w')
  /\ proc_script w'' = drop (length (spawnsOf l')) (proc_script w') ->
  log w'' = log w ++ (l ++ l')
  /\ fs_script w'' = drop (fsCount (l ++ l')) (fs_script w)
  /\ proc_script w'' = drop (length (spawnsOf (l ++ l'))) (proc_script w).
Proof.
  intros (Hl & Hf & Hp) (Hl' & Hf' & Hp').
  rewrite Hl', Hl, Hf', Hf, Hp', Hp, !drop_drop, fsCount_app, spawnsOf_app,
    length_app, app_assoc.
  done.
Qed.

Lemma metered_bind {A B} (m : M A) (k : A -> M B) :
  metered m -> (forall a, metered (k a)) -> metered (let* x := m in k x).
Proof.
  intros Hm Hk w. unfold bind. destruct (Hm w) as [l Hl].
  destruct (m w) as [[a|e] w']; simpl in *; [|by exists l].
  destruct (Hk a w') as [l' Hl']. exists (l ++ l'). by eapply metered_seq.
Qed.

Lemma metered_try_catch {A} (m : M A) (h : thrown -> M A) :
  metered m -> (forall e, metered (h e)) -> metered (try_catch m h).
Proof.
  intros Hm Hh w. unfold try_catch. destruct (Hm w) as [l Hl].
  destruct (m w) as [[a|e] w']; simpl in *; [by exists l|].
  destruct (Hh e w') as [l' Hl']. exists (l ++ l'). by eapply metered_seq.
Qed.

Lemma metered_try_finally {A} (m : M A) (f : M unit) :
  metered m -> metered f -> metered (try_finally m f).
Proof.
  intros Hm Hf w. unfold try_finally. destruct (Hm w) as [l Hl].
  destruct (m w) as [o w']; simpl in *.
  destruct (Hf w') as [l' Hl']. exists (l ++ l').
  destruct (f w') as [[[]|e] w'']; simpl in *; by eapply metered_seq.
Qed.

Lemma metered_forEach {A} (l : list A) (f : A -> M unit) :
  (forall x, metered (f x)) -> metered (forEach l f).
Proof.
  intros Hf. induction l as [|x l IH]; simpl.
  - apply metered_ret.
  - by apply metered_bind.
Qed.

Lemma metered_now : metered now.
Proof. intros w. exists []. simpl. by rewrite app_nil_r. Qed.

Lemma metered_uuidv4 : metered uuidv4.
Proof. intros w. exists []. simpl. by rewrite app_nil_r. Qed.

Lemma metered_perform c : isFsCall c = true -> metered (perform c).
Proof.
  intros Hc w. exists [c]. unfold perform. cbn [fsCount].
  assert (Hs : spawnsOf [c] = []) by (by destruct c).
  rewrite Hs, Hc. by destruct (fs_script w) as [|[|]].
Qed.

Lemma metered_consoleError msg : metered (consoleError msg).
Proof. intros w. by exists [ConsoleError msg]. Qed.

Lemma metered_runCommand cmd argv cwd input ms :
  metered (runCommand cmd argv cwd input ms).
Proof.
  intros w. exists [Spawn cmd argv cwd input ms]. rewrite runCommand_eq.
  cbn. by destruct (proc_script w).
Qed.

End Metered.

Create HintDb metered.
#[local] Hint Resolve metered_ret metered_throw metered_now metered_uuidv4
  metered_consoleError metered_runCommand : metered.

Ltac metered_step :=
  match goal with
  | |- metered (bind _ _) => apply metered_bind; [|intros ?]
  | |- metered (try_catch _ _) => apply metered_try_catch; [|intros ?]
  | |- metered (try_finally _ _) => apply metered_try_finally
  | |- metered (forEach _ _) => apply metered_forEach; intros ?
  | |- metered (perform _) => apply metered_perform; reflexivity
  | |- metered (if ?b then _ else _) => destruct b
  | |- metered (match ?x with _ => _ end) => destruct x
  | |- metered _ => solve [auto with metered]
  end.

Section MeteredExecutor.

Lemma metered_ensureDir dir : metered (ensureDir dir).
Proof. unfold ensureDir. repeat metered_step. Qed.

Lemma metered_copyFile src dest : metered (copyFile src dest).
Proof. unfold copyFile. pose proof metered_ensureDir. repeat metered_step. Qed.

Lemma metered_pathExists p : metered (pathExists p).
Proof. unfold pathExists. repeat metered_step. Qed.

Lemma metered_copyDirFuel fuel src dest : metered (copyDirFuel fuel src dest).
Proof.
  revert src dest. induction fuel as [|fuel IH]; intros src dest; simpl.
  - apply metered_ret.
  - pose proof metered_ensureDir. pose proof metered_copyFile.
    repeat metered_step.
Qed.

Lemma metered_copyDir src dest : metered (copyDir src dest).
Proof. intros w. unfold copyDir. apply metered_copyDirFuel. Qed.

Lemma metered_cacheLookup lc cacheDir sd : metered (cacheLookup lc cacheDir sd).
Proof.
  unfold cacheLookup.
  pose proof metered_pathExists. pose proof metered_copyFile.
  pose proof metered_copyDir. repeat metered_step.
Qed.

Lemma metered_cacheSave lc cacheDir sd : metered (cacheSave lc cacheDir sd).
Proof.
  unfold cacheSave.
  pose proof metered_pathExists. pose proof metered_copyFile.
  pose proof metered_copyDir. pose proof metered_ensureDir.
  repeat metered_step.
Qed.

Lemma metered_compileStep lc comp code fp sd fn t0 :
  metered (compileStep lc comp code fp sd fn t0).
Proof.
  unfold compileStep.
  pose proof metered_cacheLookup. pose proof metered_cacheSave.
  pose proof metered_ensureDir. repeat metered_step.
Qed.

Lemma metered_runTestCase lc fp sd fn tc : metered (runTestCase lc fp sd fn tc).
Proof. unfold runTestCase. repeat metered_step. Qed.

Lemma metered_testCaseLoop lc fp sd fn cases acc :
  metered (testCaseLoop lc fp sd fn cases acc).
Proof.
  revert acc. induction cases as [|tc cases IH]; intros acc; simpl.
  - apply metered_ret.
  - pose proof metered_runTestCase. repeat metered_step.
Qed.

Lemma metered_runPhase lc fp sd fn input cases t0 :
  metered (runPhase lc fp sd fn input cases t0).
Proof. unfold runPhase. pose proof metered_testCaseLoop. repeat metered_step. Qed.

Lemma metered_tryBody lc code input cases sd t0 :
  metered (tryBody lc code input cases sd t0).
Proof.
  unfold tryBody, setupPhase.
  pose proof metered_compileStep. pose proof metered_runPhase.
  repeat metered_step.
Qed.

Lemma metered_catchClause t0 e : metered (catchClause t0 e).
Proof. unfold catchClause. repeat metered_step. Qed.

Lemma metered_cleanup sd : metered (cleanup sd).
Proof. unfold cleanup. repeat metered_step. Qed.

(** [executeCode] takes one answer per [fs] call and one child per
    [runCommand], in the order of its calls. *)
Lemma metered_executeCode languages code language input cases :
  metered (executeCode languages code language input cases).
Proof.
  unfold executeCode.
  pose proof metered_tryBody. pose proof metered_catchClause.
  pose proof metered_cleanup. repeat metered_step.
Qed.

(** The [catch] clause and the body of the [try]: the calls start with
    the creation of the session directory. *)
Lemma guardedBody_calls lc code input cases sd t0 w :
  exists l,
    let w1 := (try_catch (tryBody lc code input cases sd t0) (catchClause t0) w).2 in
    log w1 = log w ++ Mkdir sd :: l
    /\ fs_script w1 = drop (S (fsCount l)) (fs_script w).
Proof.
  assert (Hm : metered (try_catch (tryBody lc code input cases sd t0)
                          (catchClause t0))).
  { pose proof metered_tryBody. pose proof metered_catchClause.
    repeat metered_step. }
  destruct (Hm w) as (l & Hl & Hf & _).
  destruct (tryBody_log lc code input cases sd t0 w) as [l1 Hl1].
  assert (Hstart : exists l', l = Mkdir sd :: l').
  { revert Hl. unfold try_catch.
    destruct (tryBody lc code input cases sd t0 w) as [[r|e] w1]; simpl in *.
    - rewrite Hl1. intros H%app_inv_head. by exists l1.
    - unfold catchClause, bind, now, ret. simpl. rewrite Hl1.
      intros H%app_inv_head. by exists l1. }
  destruct Hstart as [l' ->]. exists l'. by split.
Qed.

(** The [finally] clause removes the session directory and logs the
    removal's failure, if it fails. *)
Lemma cleanup_answered sd w :
  exists w',
    cleanup sd w = (Ret tt, w')
    /\ log w'
       = log w ++ Rm sd :: match fs_script w !! 0%nat with
                           | Some (FsThrow _) => [ConsoleError (js "Cleanup error:")]
                           | _ => []
                           end.
Proof.
  unfold cleanup, try_catch, bind, perform, consoleError, ret, logged.
  destruct (fs_script w) as [|[entries|e] rest]; eexists; (split; [done|]);
    simpl; [done..|]. by rewrite <- app_assoc.
Qed.

End MeteredExecutor.

(** X1. For a registered language, as long as no write to a child's
    standard input fails, the first call of [executeCode] creates the
    session directory and the last file-system call removes it, on every
    path; when the file system rejects the removal, and only then,
    "Cleanup error:" is logged after it, and [executeCode] returns all the
    same. For an unregistered language nothing is called at all. *)
Theorem workspace_removed_on_every_path
    (languages : gmap jsstring LanguageConfig) (code language input : jsstring)
    (cases : option (list TestCase)) (w : World) (breaks : list bool) :
  (forall langConfig,
      languages !! language = Some langConfig ->
      brokenPipe (spawnedBy (executeCode languages code language input cases) w)
        (proc_script w) breaks = false ->
      exists r w' calls,
        inProcess breaks (executeCode languages code language input cases) w
        = Some (Ret r, w')
        /\ log w'
           = log w ++ Mkdir (sessionDirOf w) :: calls
               ++ Rm (sessionDirOf w)
                  :: match fs_script w !! S (fsCount calls) with
                     | Some (FsThrow _) => [ConsoleError (js "Cleanup error:")]
                     | _ => []
                     end)
  /\ (languages !! language = None ->
      exists w',
        inProcess breaks (executeCode languages code language input cases) w
        = Some (Throw (ErrorObj (js "Unsupported language: " ++ language)), w')
        /\ log w' = log w /\ fs_script w' = fs_script w
        /\ proc_script w' = proc_script w).
Proof.
  split.
  - intros lc Hlc Halive. unfold inProcess. rewrite Halive. clear Halive.
    rewrite (executeCode_registered _ _ _ _ _ lc) by done.
    unfold try_finally.
    destruct (guardedBody_calls lc code input cases (sessionDirOf w) (startTimeOf w)
                (entered w)) as (l & Hl & Hf).
    destruct (guarded_returns
                (tryBody lc code input cases (sessionDirOf w) (startTimeOf w))
                (startTimeOf w) (sessionDirOf w) (entered w)) as (r & w' & Hrun & _).
    revert Hrun. unfold try_finally.
    destruct (try_catch (tryBody lc code input cases (sessionDirOf w) (startTimeOf w))
                (catchClause (startTimeOf w)) (entered w)) as [o w1].
    cbn [snd] in Hl, Hf.
    destruct (cleanup_answered (sessionDirOf w) w1) as (w2 & -> & Hlog).
    intros [= -> <-]. exists r, w2, l. split; [done|].
    rewrite Hlog, Hl, Hf, lookup_drop, Nat.add_0_r. cbn [entered log fs_script].
    by rewrite <- app_assoc.
  - intros Hlc.
    assert (Hrun : executeCode languages code language input cases w
                   = (Throw (ErrorObj (js "Unsupported language: " ++ language)),
                      ticked w)).
    { unfold executeCode, bind, now, throw. by rewrite Hlc. }
    exists (ticked w). unfold inProcess, spawnedBy. rewrite Hrun.
    cbn [snd ticked log]. by rewrite drop_all.
Qed.

Lemma workspace_removed_on_every_path_witness :
  exists r w' calls,
    inProcess [false]
      (executeCode Sample.languages Sample.hello (js "python") (js "5") None)
      (Sample.world [FsOk []; FsOk []; Sample.enoent]
         [[StdoutData (js "1"); Close (Some 0)]])
    = Some (Ret r, w')
    /\ log w'
       = [] ++ Mkdir (js "/tmp/code-execution/s1") :: calls
           ++ Rm (js "/tmp/code-execution/s1")
              :: match [FsOk []; FsOk []; Sample.enoent] !! S (fsCount calls) with
                 | Some (FsThrow _) => [ConsoleError (js "Cleanup error:")]
                 | _ => []
                 end.
Proof.
  apply (proj1 (workspace_removed_on_every_path Sample.languages Sample.hello
                  (js "python") (js "5") None
                  (Sample.world [FsOk []; FsOk []; Sample.enoent]
                     [[StdoutData (js "1"); Close (Some 0)]])
                  [false])
           Sample.pythonConfig).
  - reflexivity.
  - reflexivity.
Defined.

(** ** Computations that only touch the file system *)

Section Quiet.

Lemma quiet_ret {A} (a : A) : quiet (ret a).
Proof. intros w. repeat split. exists []. by rewrite app_nil_r. Qed.

Lemma quiet_bind {A B} (m : M A) (k : A -> M B) :
  quiet m -> (forall a, quiet (k a)) -> quiet (let* x := m in k x).
Proof.
  intros Hm Hk w. unfold bind.
  destruct (Hm w) as (Hc & Hu & Hp & l & Hl & Hs).
  destruct (m w) as [[a|e] w']; simpl in *; [|by eauto 10].
  destruct (Hk a w') as (Hc' & Hu' & Hp' & l' & Hl' & Hs').
  split; [congruence|]. split; [congruence|]. split; [congruence|].
  exists (l ++ l'). split; [by rewrite Hl', Hl, app_assoc|].
  by rewrite spawnsOf_app, Hs, Hs'.
Qed.

Lemma quiet_try_catch {A} (m : M A) (h : thrown -> M A) :
  quiet m -> (forall e, quiet (h e)) -> quiet (try_catch m h).
Proof.
  intros Hm Hh w. unfold try_catch.
  destruct (Hm w) as (Hc & Hu & Hp & l & Hl & Hs).
  destruct (m w) as [[a|e] w']; simpl in *; [by eauto 10|].
  destruct (Hh e w') as (Hc' & Hu' & Hp' & l' & Hl' & Hs').
  split; [congruence|]. split; [congruence|]. split; [congruence|].
  exists (l ++ l'). split; [by rewrite Hl', Hl, app_assoc|].
  by rewrite spawnsOf_app, Hs, Hs'.
Qed.

Lemma quiet_forEach {A} (l : list A) (f : A -> M unit) :
  (forall x, quiet (f x)) -> quiet (forEach l f).
Proof.
  intros Hf. induction l as [|x l IH]; simpl.
  - apply quiet_ret.
  - by apply quiet_bind.
Qed.

Lemma quiet_perform c :
  match c with Spawn _ _ _ _ _ => False | _ => True end -> quiet (perform c).
Proof.
  intros Hc w. unfold perform.
  destruct (fs_script w) as [|[|]]; simpl; repeat split; exists [c];
    (split; [done|]); by destruct c.
Qed.

End Quiet.

Ltac quiet_step :=
  match goal with
  | |- quiet (bind _ _) => apply quiet_bind; [|intros ?]
  | |- quiet (try_catch _ _) => apply quiet_try_catch; [|intros ?]
  | |- quiet (forEach _ _) => apply quiet_forEach; intros ?
  | |- quiet (perform _) => by apply quiet_perform
  | |- quiet (ret _) => apply quiet_ret
  | |- quiet (if ?b then _ else _) => destruct b
  | |- quiet (match ?x with _ => _ end) => destruct x
  | |- quiet _ => assumption || (by auto)
  end.

Section QuietExecutor.

Lemma quiet_ensureDir dir : quiet (ensureDir dir).
Proof. unfold ensureDir. repeat quiet_step. Qed.

Lemma quiet_copyFile src dest : quiet (copyFile src dest).
Proof. unfold copyFile. pose proof quiet_ensureDir. repeat quiet_step. Qed.

Lemma quiet_pathExists p : quiet (pathExists p).
Proof. unfold pathExists. repeat quiet_step. Qed.

Lemma quiet_copyDirFuel fuel src dest : quiet (copyDirFuel fuel src dest).
Proof.
  revert src dest. induction fuel as [|fuel IH]; intros src dest; simpl.
  - apply quiet_ret.
  - pose proof quiet_ensureDir. pose proof quiet_copyFile. repeat quiet_step.
Qed.

Lemma quiet_copyDir src dest : quiet (copyDir src dest).
Proof. intros w. unfold copyDir. apply quiet_copyDirFuel. Qed.

Lemma quiet_cacheLookup lc cacheDir sd : quiet (cacheLookup lc cacheDir sd).
Proof.
  unfold cacheLookup.
  pose proof quiet_pathExists. pose proof quiet_copyFile.
  pose proof quiet_copyDir. repeat quiet_step.
Qed.

Lemma quiet_cacheSave lc cacheDir sd : quiet (cacheSave lc cacheDir sd).
Proof.
  unfold cacheSave.
  pose proof quiet_pathExists. pose proof quiet_copyFile.
  pose proof quiet_copyDir. pose proof quiet_ensureDir.
  repeat quiet_step.
Qed.

Lemma quiet_beforeCompile lc comp code sd : quiet (beforeCompile lc comp code sd).
Proof.
  unfold beforeCompile.
  pose proof quiet_cacheLookup. pose proof quiet_ensureDir.
  repeat quiet_step.
Qed.

(** A [try] whose [catch] ignores the error always returns. *)
Lemma swallow_returns {A} (m : M A) (a : A) w :
  exists a' w', try_catch m (fun _ => ret a) w = (Ret a', w').
Proof. unfold try_catch, ret. destruct (m w) as [[a'|e] w']; eauto. Qed.

(** Publishing into the cache never throws. *)
Lemma cacheSave_returns lc cacheDir sd w :
  exists w', cacheSave lc cacheDir sd w = (Ret tt, w').
Proof.
  unfold cacheSave. unfold bind at 1.
  destruct (swallow_returns (ensureDir cacheDir) tt w) as ([] & w1 & ->).
  repeat match goal with
         | |- context [if ?b then _ else _] => destruct b
         end;
    try (match goal with
         | |- exists w', try_catch ?m _ w1 = _ =>
             destruct (swallow_returns m tt w1) as ([] & w2 & Hs); rewrite Hs
         end);
    by eexists.
Qed.

(** A cache hit happens for the three families only. *)
Lemma cacheLookup_hit lc cacheDir sd w w' :
  cacheLookup lc cacheDir sd w = (Ret true, w') -> cacheFamily lc = true.
Proof.
  unfold cacheLookup, cacheFamily.
  destruct (jseqb (name lc) (js "cpp")); [done|].
  destruct (jseqb (name lc) (js "java")); [done|].
  destruct (jseqb (name lc) (js "typescript")); [done|]. done.
Qed.

Lemma beforeCompile_hit lc comp code sd w w' :
  beforeCompile lc comp code sd w = (Ret true, w') -> cacheFamily lc = true.
Proof.
  unfold beforeCompile, bind.
  destruct (perform (Mkdir sd) w) as [[?|?] wa]; [|done].
  destruct (perform (WriteFile _ code) wa) as [[?|?] wb]; [|done].
  destruct (try_catch (ensureDir CACHE_DIR) _ wb) as [[?|?] wc]; [|done].
  apply cacheLookup_hit.
Qed.

(** The set-up phase after the cache lookup. *)
Lemma setupPhase_after_lookup lc comp code sd t0 w0 hit w1 :
  compile lc = Some comp ->
  beforeCompile lc comp code sd w0 = (Ret hit, w1) ->
  setupPhase lc code sd t0 w0
  = (if hit then ret None
     else
       let* compileResult :=
         runCommand (c_command comp)
           (map (substitute (path_join sd (filenameOf lc)) sd (filenameOf lc))
              (c_args comp))
           sd [] (compileTimeoutOf comp) in
       if negb (exitCode compileResult =? 0) then
         let* t := now in
         ret (Some {| output := [];
                      error := js "Compilation failed: "
                                 ++ or_else (stderr compileResult)
                                      (stdout compileResult);
                      executionTime := t - t0;
                      status := StatusError;
                      testCases := None |})
       else
         let* _ :=
           cacheSave lc
             (path_join (path_join CACHE_DIR (name lc)) (cacheKeyOf lc comp code))
             sd in
         ret None) w1.
Proof.
  intros Hcomp. unfold setupPhase, compileStep. rewrite Hcomp.
  unfold beforeCompile. unfold bind at 1 2 3 4 5 6.
  destruct (perform (Mkdir sd) w0) as [[?|?] wa]; [|done].
  destruct (perform (WriteFile _ code) wa) as [[?|?] wb]; [|done].
  destruct (try_catch (ensureDir CACHE_DIR) _ wb) as [[?|?] wc]; [|done].
  unfold bind at 1. by intros ->.
Qed.

(** What [executeCode] returns, from what its [try] block does. *)
Lemma executeCode_from_body languages code language input cases lc w o w1 :
  languages !! language = Some lc ->
  tryBody lc code input cases (sessionDirOf w) (startTimeOf w) (entered w) = (o, w1) ->
  exists w2,
    executeCode languages code language input cases w
    = (Ret match o with
           | Ret r => r
           | Throw e => failure e (hd 0 (clock w1) - startTimeOf w)
           end, w2)
    /\ spawnsOf (log w2) = spawnsOf (log w1).
Proof.
  intros Hlc Hbody. rewrite (executeCode_registered _ _ _ _ _ lc) by done.
  destruct (guarded_returns
              (tryBody lc code input cases (sessionDirOf w) (startTimeOf w))
              (startTimeOf w) (sessionDirOf w) (entered w)) as (r & w2 & Hrun & Hb).
  rewrite Hbody in Hb. exists w2. rewrite Hrun.
  by destruct o as [r0|e]; destruct Hb as [-> ->].
Qed.

(** The single run, from how its child settles. *)
Lemma runPhase_single lc fp sd fn input cases t0 w :
  hasTestCases cases = false ->
  runPhase lc fp sd fn input cases t0 w
  = match awaitChild (childAt w 0) with
    | Resolved result =>
        (Ret {| output := stdout result; error := stderr result;
                executionTime := hd 0 (clock w) - t0; status := StatusSuccess;
                testCases := None |},
         ticked (spawned (runCall lc fp sd fn input) w))
    | Rejected e => (Throw e, spawned (runCall lc fp sd fn input) w)
    end.
Proof.
  intros Hmode. unfold runPhase. rewrite Hmode. unfold bind at 1.
  rewrite runCommand_eq, <- childAt_0. by destruct (awaitChild (childAt w 0)).
Qed.

End QuietExecutor.

(** ** How a run settles *)

Section Settling.

Implicit Types (events chunks rest : list proc_event) (out err : jsstring).

Lemma awaitChild_timesOut events chunks rest :
  timesOut events chunks rest ->
  awaitChild events = Rejected (ErrorObj (js "Execution timeout"))
  /\ ps_killed (childProcess (chunks ++ [TimerFired])) = true
  /\ ps_sigkills (childProcess (chunks ++ [TimerFired])) = 1%nat.
Proof.
  intros (-> & Hdata & Hout & Herr).
  assert (Hst : childProcess (chunks ++ [TimerFired])
                = killAndReject (js "Execution timeout")
                    (clearTimeout (listening (stdoutOf chunks) (stderrOf chunks)))).
  { rewrite childProcess_app. unfold childProcess, ps_init.
    by rewrite (run_data chunks [] []). }
  split; [|by rewrite Hst].
  change (chunks ++ TimerFired :: rest) with (chunks ++ [TimerFired] ++ rest).
  rewrite app_assoc. apply awaitChild_settled. by rewrite Hst.
Qed.

(** A resolved promise comes from data within the caps and a [close]. *)
Lemma resolved_inv events out err r :
  jslength out <= MAX_OUTPUT_SIZE -> jslength err <= MAX_OUTPUT_SIZE ->
  ps_promise (fold_left handle events (listening out err)) = Some (Resolved r) ->
  exists chunks code rest,
    events = chunks ++ Close code :: rest
    /\ forallb isData chunks = true
    /\ jslength (out ++ stdoutOf chunks) <= MAX_OUTPUT_SIZE
    /\ jslength (err ++ stderrOf chunks) <= MAX_OUTPUT_SIZE
    /\ r = {| stdout := trim (out ++ stdoutOf chunks);
              stderr := trim (err ++ stderrOf chunks);
              exitCode := exitCodeOf code |}.
Proof.
  revert out err.
  induction events as [|ev events IH]; intros out err Hout Herr; [done|].
  destruct ev as [data|data|code|message| |message]; cbn [fold_left].
  - unfold handle. cbn [listening ps_stdout ps_stderr ps_killed ps_timer
                        ps_sigkills ps_promise].
    destruct (jslength (out ++ data) >? MAX_OUTPUT_SIZE) eqn:E.
    + intros H. rewrite (run_settled _ _ (Rejected (ErrorObj (js "Output size exceeded limit")))) in H;
        [done|reflexivity].
    + rewrite Z.gtb_ltb in E. apply Z.ltb_ge in E. intros H.
      destruct (IH (out ++ data) err E Herr H)
        as (chunks & code & rest & -> & Hdata & Ho & He & ->).
      exists (StdoutData data :: chunks), code, rest. cbn [stdoutOf stderrOf forallb isData].
      rewrite <- !app_assoc in *. done.
  - unfold handle. cbn [listening ps_stdout ps_stderr ps_killed ps_timer
                        ps_sigkills ps_promise].
    destruct (jslength (err ++ data) >? MAX_OUTPUT_SIZE) eqn:E.
    + intros H. rewrite (run_settled _ _ (Rejected (ErrorObj (js "Error output size exceeded limit")))) in H;
        [done|reflexivity].
    + rewrite Z.gtb_ltb in E. apply Z.ltb_ge in E. intros H.
      destruct (IH out (err ++ data) Hout E H)
        as (chunks & code & rest & -> & Hdata & Ho & He & ->).
      exists (StderrData data :: chunks), code, rest. cbn [stdoutOf stderrOf forallb isData].
      rewrite <- !app_assoc in *. done.
  - intros H. erewrite run_settled in H; [|reflexivity]. injection H as <-.
    exists [], code, events. cbn [stdoutOf stderrOf forallb app].
    by rewrite !app_nil_r.
  - intros H. erewrite run_settled in H; [|reflexivity]. done.
  - intros H. erewrite run_settled in H; [|reflexivity]. done.
  - intros H. erewrite run_settled in H; [|reflexivity]. done.
Qed.

(** The message of a rejection: made up by [runCommand], carried by an
    [error] event, or thrown by [spawn]. *)
Lemma handle_message st ev (events : list proc_event) :
  ev ∈ events ->
  (forall e, ps_promise st = Some (Rejected e) ->
     exists m, e = ErrorObj m
       /\ (m ∈ ownMessages \/ ProcError m ∈ events \/ SpawnThrew m ∈ events)) ->
  forall e, ps_promise (handle st ev) = Some (Rejected e) ->
    exists m, e = ErrorObj m
      /\ (m ∈ ownMessages \/ ProcError m ∈ events \/ SpawnThrew m ∈ events).
Proof.
  intros Hev Hst e.
  assert (H1 : js "Execution timeout" ∈ ownMessages) by (by left).
  assert (H2 : js "Output size exceeded limit" ∈ ownMessages) by (right; by left).
  assert (H3 : js "Error output size exceeded limit" ∈ ownMessages)
    by (right; right; by left).
  destruct ev as [data|data|code|message| |message];
    [| | | | |
     unfold handle, settle; destruct (ps_promise st) eqn:Hs;
     [rewrite Hs; apply Hst | simpl; intros [= <-]; eauto]];
    unfold handle, killAndReject, settle, clearTimeout; simpl;
    repeat (match goal with
            | |- context [if ?b then _ else _] => destruct b
            | |- context [match ps_promise st with _ => _ end] =>
                destruct (ps_promise st) eqn:?
            end; simpl);
    try (intros [= <-]); try done; eauto.
Qed.

Lemma run_message (all events : list proc_event) st :
  (forall ev, ev ∈ events -> ev ∈ all) ->
  (forall e, ps_promise st = Some (Rejected e) ->
     exists m, e = ErrorObj m
       /\ (m ∈ ownMessages \/ ProcError m ∈ all \/ SpawnThrew m ∈ all)) ->
  forall e, ps_promise (fold_left handle events st) = Some (Rejected e) ->
    exists m, e = ErrorObj m
      /\ (m ∈ ownMessages \/ ProcError m ∈ all \/ SpawnThrew m ∈ all).
Proof.
  revert st. induction events as [|ev events IH]; intros st Hsub Hst; [done|].
  simpl. apply IH.
  - intros ev' Hev'. apply Hsub. by right.
  - apply handle_message; [|done]. apply Hsub. by left.
Qed.

End Settling.

(** X2. In single-run mode a child that is still running when the timer
    fires is killed with SIGKILL, and [executeCode] returns [status = error]
    with "Execution timeout" and an empty [output]: what the child had
    printed is dropped. *)
Theorem single_run_timeout_drops_output
    (languages : gmap jsstring LanguageConfig) (code language input : jsstring)
    (cases : option (list TestCase)) (langConfig : LanguageConfig) (w w1 : World)
    (chunks rest : list proc_event) :
  languages !! language = Some langConfig ->
  hasTestCases cases = false ->
  setupPhase langConfig code (sessionDirOf w) (startTimeOf w) (entered w)
  = (Ret None, w1) ->
  timesOut (childAt w1 0) chunks rest ->
  ps_killed (childProcess (chunks ++ [TimerFired])) = true
  /\ ps_sigkills (childProcess (chunks ++ [TimerFired])) = 1%nat
  /\ exists w2,
       executeCode languages code language input cases w
       = (Ret {| output := []; error := js "Execution timeout";
                 executionTime := hd 0 (clock w1) - startTimeOf w;
                 status := StatusError; testCases := None |}, w2).
Proof.
  intros Hlc Hmode Hsetup Hout.
  destruct (awaitChild_timesOut _ _ _ Hout) as (Hrej & Hk & Hs).
  split; [done|]. split; [done|].
  destruct (executeCode_from_body languages code language input cases langConfig w
              (Throw (ErrorObj (js "Execution timeout")))
              (spawned (runCall langConfig (filepathOf langConfig w) (sessionDirOf w)
                          (filenameOf langConfig) input) w1) Hlc) as (w2 & Hrun & _).
  - unfold tryBody. rewrite (bind_ret _ _ _ _ _ Hsetup).
    by rewrite runPhase_single, Hrej.
  - by exists w2.
Qed.

Lemma single_run_timeout_drops_output_witness :
  exists w2,
    executeCode Sample.languages (js "while True: print(1)") (js "python") [] None
      (Sample.world [] [[StdoutData (js "1"); StdoutData (js "1"); TimerFired;
                         Close None]])
    = (Ret {| output := []; error := js "Execution timeout";
              executionTime := 10; status := StatusError; testCases := None |}, w2).
Proof.
  refine (proj2 (proj2
    (single_run_timeout_drops_output Sample.languages (js "while True: print(1)")
       (js "python") [] None Sample.pythonConfig
       (Sample.world [] [[StdoutData (js "1"); StdoutData (js "1"); TimerFired;
                          Close None]])
       (logged (WriteFile (js "/tmp/code-execution/s1/main.py")
                  (js "while True: print(1)"))
          (logged (Mkdir (js "/tmp/code-execution/s1"))
             (entered (Sample.world []
                [[StdoutData (js "1"); StdoutData (js "1"); TimerFired;
                  Close None]]))))
       [StdoutData (js "1"); StdoutData (js "1")] [Close None] _ _ _ _))).
  - reflexivity.
  - reflexivity.
  - reflexivity.
  - repeat split; vm_compute; discriminate.
Defined.

(** X3. [runCommand] resolves exactly when the child closes after nothing
    but data within the caps, before any timeout or [error] event; the
    result then carries the two trimmed streams and [code || 0]. *)
Theorem runCommand_resolves_iff_completes
    (events : list proc_event) (r : CommandResult) :
  awaitChild events = Resolved r
  <-> exists chunks code rest,
        completes events chunks code rest
        /\ r = {| stdout := trim (stdoutOf chunks);
                  stderr := trim (stderrOf chunks);
                  exitCode := exitCodeOf code |}.
Proof.
  split.
  - unfold awaitChild, childProcess.
    destruct (ps_promise (fold_left handle events ps_init)) as [s|] eqn:E; [|done].
    intros ->.
    destruct (resolved_inv events [] [] r)
      as (chunks & code & rest & Hev & Hdata & Hout & Herr & Hr); [done..|].
    exists chunks, code, rest. by split.
  - intros (chunks & code & rest & Hdone & ->). by apply (awaitChild_completes events chunks code rest).
Qed.

(** X4. A rejection of [runCommand] is an [Error] whose message is one
    of "Execution timeout", "Output size exceeded limit", "Error output size
    exceeded limit", the message of an [error] event of the child, or the
    message of what [spawn] threw; and when [spawn] throws, as it does for a
    negative [timeout], [runCommand] is rejected with what was thrown,
    whatever follows, and nothing is written to a standard input. *)
Theorem runCommand_rejection_messages (events : list proc_event) (e : thrown) :
  (awaitChild events = Rejected e ->
   exists m, e = ErrorObj m
     /\ (m ∈ ownMessages \/ ProcError m ∈ events \/ SpawnThrew m ∈ events))
  /\ (forall m rest, awaitChild (SpawnThrew m :: rest) = Rejected (ErrorObj m))
  /\ (forall cmd argv cwd input ms w m rest breaks,
        hd [] (proc_script w) = SpawnThrew m :: rest ->
        inProcess breaks (runCommand cmd argv cwd input ms) w
        = Some (Throw (ErrorObj m), spawned (Spawn cmd argv cwd input ms) w)).
Proof.
  assert (Hthrew : forall m rest,
            awaitChild (SpawnThrew m :: rest) = Rejected (ErrorObj m)).
  { intros m rest. by apply (awaitChild_settled [SpawnThrew m] rest). }
  split; [|split; [exact Hthrew|]].
  - unfold awaitChild.
    destruct (ps_promise (childProcess events)) as [s|] eqn:E.
    + intros ->. by apply (run_message events events ps_init).
    + intros [= <-]. eexists. split; [done|]. left. by left.
  - intros cmd argv cwd input ms w m rest breaks Hhd.
    unfold inProcess, spawnedBy. rewrite runCommand_eq, Hhd, Hthrew.
    cbn [snd spawned log]. rewrite spawnsOf_app, drop_app_length.
    cbn [spawnsOf brokenPipe writesInput]. rewrite Hhd. cbn [spawnThrew negb].
    by rewrite andb_false_r.
Qed.

Lemma runCommand_rejection_messages_witness :
  (exists m,
     ErrorObj (js "spawn python3 ENOENT") = ErrorObj m
     /\ (m ∈ ownMessages
         \/ ProcError m ∈ [ProcError (js "spawn python3 ENOENT"); Close (Some (-2))]
         \/ SpawnThrew m ∈ [ProcError (js "spawn python3 ENOENT"); Close (Some (-2))]))
  /\ awaitChild [SpawnThrew Sample.timeoutOutOfRange]
     = Rejected (ErrorObj Sample.timeoutOutOfRange).
Proof.
  split.
  - apply (proj1 (runCommand_rejection_messages
                    [ProcError (js "spawn python3 ENOENT"); Close (Some (-2))]
                    (ErrorObj (js "spawn python3 ENOENT")))).
    reflexivity.
  - apply (proj1 (proj2 (runCommand_rejection_messages [] (ErrorObj [])))).
Defined.

(** ** The compile cache *)

Section Cache.

Implicit Types (lc : LanguageConfig) (comp : CompileConfig) (w : World).

Lemma runPhase_spawns lc fp sd fn input cases t0 w :
  spawnsOf (log (runPhase lc fp sd fn input cases t0 w).2)
  = spawnsOf (log w) ++ runCalls lc fp sd fn input cases.
Proof.
  unfold runCalls. destruct (hasTestCases cases) eqn:Hmode.
  - unfold runPhase. rewrite Hmode. unfold bind at 1.
    rewrite testCaseLoop_eq. cbn. apply afterCases_spawns.
  - rewrite runPhase_single by done.
    destruct (awaitChild (childAt w 0)); cbn; by rewrite spawnsOf_app.
Qed.

Lemma beforeCompile_world lc comp code sd w hit w1 :
  beforeCompile lc comp code sd w = (hit, w1) ->
  clock w1 = clock w /\ proc_script w1 = proc_script w
  /\ spawnsOf (log w1) = spawnsOf (log w).
Proof.
  intros H. destruct (quiet_beforeCompile lc comp code sd w)
    as (Hc & _ & Hp & l & Hl & Hs).
  rewrite H in Hc, Hp, Hl. cbn in Hc, Hp, Hl.
  by rewrite Hl, spawnsOf_app, Hs, app_nil_r.
Qed.

Lemma cacheSave_world lc cacheDir sd w :
  exists w', cacheSave lc cacheDir sd w = (Ret tt, w')
    /\ clock w' = clock w /\ proc_script w' = proc_script w
    /\ spawnsOf (log w') = spawnsOf (log w).
Proof.
  destruct (cacheSave_returns lc cacheDir sd w) as (w' & H). exists w'.
  split; [done|].
  destruct (quiet_cacheSave lc cacheDir sd w) as (Hc & _ & Hp & l & Hl & Hs).
  rewrite H in Hc, Hp, Hl. cbn in Hc, Hp, Hl.
  by rewrite Hl, spawnsOf_app, Hs, app_nil_r.
Qed.

Lemma tryBody_after_setup lc code input cases sd t0 w w1 :
  setupPhase lc code sd t0 w = (Ret None, w1) ->
  tryBody lc code input cases sd t0 w
  = runPhase lc (path_join sd (filenameOf lc)) sd (filenameOf lc) input cases t0 w1.
Proof. intros H. unfold tryBody. by rewrite (bind_ret _ _ _ _ _ H). Qed.

End Cache.

(** X5. When the cache lookup reports a hit, which it does only for
    cpp, java and typescript, no compiler is spawned: [executeCode] returns,
    and the children it spawns are those of the run phase alone. In single-run
    mode the first child of the world is then the program, and its streams are
    the result. *)
Theorem cache_hit_skips_compilation
    (languages : gmap jsstring LanguageConfig) (code language input : jsstring)
    (cases : option (list TestCase)) (langConfig : LanguageConfig)
    (comp : CompileConfig) (w w1 : World) :
  languages !! language = Some langConfig ->
  compile langConfig = Some comp ->
  beforeCompile langConfig comp code (sessionDirOf w) (entered w) = (Ret true, w1) ->
  cacheFamily langConfig = true
  /\ exists r w2,
       executeCode languages code language input cases w = (Ret r, w2)
       /\ spawnsOf (log w2)
          = spawnsOf (log w)
            ++ runCalls langConfig (filepathOf langConfig w) (sessionDirOf w)
                 (filenameOf langConfig) input cases
       /\ (hasTestCases cases = false ->
           forall result, awaitChild (childAt w 0) = Resolved result ->
             r = {| output := stdout result; error := stderr result;
                    executionTime := hd 0 (tl (clock w)) - startTimeOf w;
                    status := StatusSuccess; testCases := None |}).
Proof.
  intros Hlc Hcomp Hhit. split; [by eapply beforeCompile_hit|].
  destruct (beforeCompile_world _ _ _ _ _ _ _ Hhit) as (Hclock & Hprocs & Hspawns).
  assert (Hsetup : setupPhase langConfig code (sessionDirOf w) (startTimeOf w) (entered w)
                   = (Ret None, w1))
    by (by rewrite (setupPhase_after_lookup _ _ _ _ _ _ _ _ Hcomp Hhit)).
  destruct (runPhase langConfig (filepathOf langConfig w) (sessionDirOf w)
              (filenameOf langConfig) input cases (startTimeOf w) w1)
    as [o w1'] eqn:Hrun.
  destruct (executeCode_from_body languages code language input cases langConfig w
              o w1' Hlc) as (w2 & Hexec & Hsp).
  { by rewrite (tryBody_after_setup _ _ _ _ _ _ _ _ Hsetup). }
  eexists _, w2. split; [exact Hexec|]. split.
  - rewrite Hsp.
    pose proof (runPhase_spawns langConfig (filepathOf langConfig w) (sessionDirOf w)
                  (filenameOf langConfig) input cases (startTimeOf w) w1) as H.
    rewrite Hrun in H. cbn in H. by rewrite H, Hspawns.
  - intros Hmode result Hres. rewrite runPhase_single in Hrun by done.
    unfold childAt in *. rewrite Hprocs in Hrun. cbn [entered proc_script] in Hrun.
    rewrite Hres in Hrun. injection Hrun as <- <-.
    by rewrite Hclock.
Qed.

Lemma cache_hit_skips_compilation_witness :
  cacheFamily Sample.cppConfig = true
  /\ exists r w2,
       executeCode Sample.languages (js "int main() {}") (js "cpp") [] None
         (Sample.world [] [[StdoutData (js "hi"); Close (Some 0)]])
       = (Ret r, w2)
       /\ spawnsOf (log w2)
          = [] ++ runCalls Sample.cppConfig
                    (filepathOf Sample.cppConfig (Sample.world [] [[StdoutData (js "hi"); Close (Some 0)]]))
                    (js "/tmp/code-execution/s1") (js "main.cpp") [] None
       /\ (hasTestCases None = false ->
           forall result,
             awaitChild [StdoutData (js "hi"); Close (Some 0)] = Resolved result ->
             r = {| output := stdout result; error := stderr result;
                    executionTime := 10;
                    status := StatusSuccess; testCases := None |}).
Proof.
  refine (cache_hit_skips_compilation Sample.languages (js "int main() {}") (js "cpp")
            [] None Sample.cppConfig Sample.gpp
            (Sample.world [] [[StdoutData (js "hi"); Close (Some 0)]])
            (beforeCompile Sample.cppConfig Sample.gpp (js "int main() {}")
               (js "/tmp/code-execution/s1")
               (entered (Sample.world [] [[StdoutData (js "hi"); Close (Some 0)]]))).2
            _ _ _).
  - reflexivity.
  - reflexivity.
  - vm_compute. reflexivity.
Defined.

(** X6. Once the compiler has exited with code 0, saving the artifacts
    to the cache cannot fail the job, whatever the file system answers: the
    run phase is entered, [executeCode] spawns the compiler and then the
    children of the run phase, and in single-run mode the second child's
    streams are the result. *)
Theorem cache_save_failure_is_ignored
    (languages : gmap jsstring LanguageConfig) (code language input : jsstring)
    (cases : option (list TestCase)) (langConfig : LanguageConfig)
    (comp : CompileConfig) (w w1 : World) (chunks : list proc_event)
    (exit : option Z) (rest : list proc_event) :
  languages !! language = Some langConfig ->
  compile langConfig = Some comp ->
  beforeCompile langConfig comp code (sessionDirOf w) (entered w) = (Ret false, w1) ->
  completes (childAt w 0) chunks exit rest ->
  exitCodeOf exit = 0 ->
  exists r w2,
    executeCode languages code language input cases w = (Ret r, w2)
    /\ spawnsOf (log w2)
       = spawnsOf (log w)
         ++ compileCall langConfig comp (sessionDirOf w)
            :: runCalls langConfig (filepathOf langConfig w) (sessionDirOf w)
                 (filenameOf langConfig) input cases
    /\ (hasTestCases cases = false ->
        forall result, awaitChild (childAt w 1) = Resolved result ->
          output r = stdout result /\ error r = stderr result
          /\ status r = StatusSuccess).
Proof.
  intros Hlc Hcomp Hmiss Hdone Hexit.
  destruct (beforeCompile_world _ _ _ _ _ _ _ Hmiss) as (Hclock & Hprocs & Hspawns).
  cbn [entered proc_script clock log] in Hclock, Hprocs, Hspawns.
  assert (Hchild : awaitChild (hd [] (proc_script w1))
                   = Resolved {| stdout := trim (stdoutOf chunks);
                                 stderr := trim (stderrOf chunks);
                                 exitCode := exitCodeOf exit |}).
  { rewrite Hprocs, <- childAt_0. by apply (awaitChild_completes _ chunks exit rest). }
  pose (w1c := spawned (compileCall langConfig comp (sessionDirOf w)) w1).
  destruct (cacheSave_world langConfig
              (path_join (path_join CACHE_DIR (name langConfig))
                 (cacheKeyOf langConfig comp code))
              (sessionDirOf w) w1c) as (ws & Hsave & Hsc & Hsp & Hss).
  assert (Hsetup : setupPhase langConfig code (sessionDirOf w) (startTimeOf w) (entered w)
                   = (Ret None, ws)).
  { rewrite (setupPhase_after_lookup _ _ _ _ _ _ _ _ Hcomp Hmiss).
    unfold bind at 1. rewrite runCommand_eq, Hchild.
    cbn [exitCode]. rewrite Hexit. cbn [Z.eqb negb].
    fold (compileCall langConfig comp (sessionDirOf w)). fold w1c.
    by rewrite (bind_ret _ _ _ _ _ Hsave). }
  destruct (runPhase langConfig (filepathOf langConfig w) (sessionDirOf w)
              (filenameOf langConfig) input cases (startTimeOf w) ws)
    as [o ws'] eqn:Hrun.
  destruct (executeCode_from_body languages code language input cases langConfig w
              o ws' Hlc) as (w2 & Hexec & Hsp2).
  { by rewrite (tryBody_after_setup _ _ _ _ _ _ _ _ Hsetup). }
  eexists _, w2. split; [exact Hexec|]. split.
  - rewrite Hsp2.
    pose proof (runPhase_spawns langConfig (filepathOf langConfig w) (sessionDirOf w)
                  (filenameOf langConfig) input cases (startTimeOf w) ws) as H.
    rewrite Hrun in H. cbn in H. rewrite H, Hss. unfold w1c. cbn [spawned log].
    rewrite spawnsOf_app, Hspawns. cbn. by rewrite <- app_assoc.
  - intros Hmode result Hres. rewrite runPhase_single in Hrun by done.
    assert (Hsame : childAt ws 0 = childAt w 1).
    { unfold childAt. rewrite Hsp. unfold w1c. cbn [spawned proc_script].
      rewrite Hprocs. by destruct (proc_script w). }
    rewrite Hsame, Hres in Hrun. by injection Hrun as <- <-.
Qed.

Lemma cache_save_failure_is_ignored_witness :
  exists r w2,
    executeCode Sample.languages (js "int main() {}") (js "cpp") [] None
      (Sample.world (Sample.coldCache ++ [Sample.enoent; FsOk []; Sample.enoent])
         [[Close (Some 0)]; [StdoutData (js "hi"); Close (Some 0)]])
    = (Ret r, w2)
    /\ spawnsOf (log w2)
       = [] ++ compileCall Sample.cppConfig Sample.gpp (js "/tmp/code-execution/s1")
               :: runCalls Sample.cppConfig (js "/tmp/code-execution/s1/main.cpp")
                    (js "/tmp/code-execution/s1") (js "main.cpp") [] None
    /\ (hasTestCases None = false ->
        forall result,
          awaitChild [StdoutData (js "hi"); Close (Some 0)] = Resolved result ->
          output r = stdout result /\ error r = stderr result
          /\ status r = StatusSuccess).
Proof.
  refine (cache_save_failure_is_ignored Sample.languages (js "int main() {}") (js "cpp")
            [] None Sample.cppConfig Sample.gpp
            (Sample.world (Sample.coldCache ++ [Sample.enoent; FsOk []; Sample.enoent])
               [[Close (Some 0)]; [StdoutData (js "hi"); Close (Some 0)]])
            (beforeCompile Sample.cppConfig Sample.gpp (js "int main() {}")
               (js "/tmp/code-execution/s1")
               (entered (Sample.world
                  (Sample.coldCache ++ [Sample.enoent; FsOk []; Sample.enoent])
                  [[Close (Some 0)]; [StdoutData (js "hi"); Close (Some 0)]]))).2
            [] (Some 0) [] _ _ _ _ _).
  - reflexivity.
  - reflexivity.
  - vm_compute. reflexivity.
  - repeat split; vm_compute; discriminate.
  - reflexivity.
Defined.

(** X7. When the compiler does not run to completion (timeout, spawn
    error, output cap), [executeCode] returns [status = error] with the bare
    message of the rejection, without the "Compilation failed: " prefix, and
    spawns nothing after the compiler. *)
Theorem compile_rejection_is_reported
    (languages : gmap jsstring LanguageConfig) (code language input : jsstring)
    (cases : option (list TestCase)) (langConfig : LanguageConfig)
    (comp : CompileConfig) (w w1 : World) (e : thrown) :
  languages !! language = Some langConfig ->
  compile langConfig = Some comp ->
  beforeCompile langConfig comp code (sessionDirOf w) (entered w) = (Ret false, w1) ->
  awaitChild (childAt w 0) = Rejected e ->
  exists w2,
    executeCode languages code language input cases w
    = (Ret {| output := []; error := messageOf e;
              executionTime := hd 0 (tl (clock w)) - startTimeOf w;
              status := StatusError; testCases := None |}, w2)
    /\ spawnsOf (log w2)
       = spawnsOf (log w) ++ [compileCall langConfig comp (sessionDirOf w)].
Proof.
  intros Hlc Hcomp Hmiss Hrej.
  destruct (beforeCompile_world _ _ _ _ _ _ _ Hmiss) as (Hclock & Hprocs & Hspawns).
  cbn [entered proc_script clock log] in Hclock, Hprocs, Hspawns.
  destruct (executeCode_from_body languages code language input cases langConfig w
              (Throw e) (spawned (compileCall langConfig comp (sessionDirOf w)) w1) Hlc)
    as (w2 & Hexec & Hsp).
  - unfold tryBody, bind at 1.
    rewrite (setupPhase_after_lookup _ _ _ _ _ _ _ _ Hcomp Hmiss).
    unfold bind at 1. rewrite runCommand_eq, Hprocs, <- childAt_0, Hrej. done.
  - exists w2. rewrite Hexec. cbn [spawned clock log] in *.
    rewrite Hsp, spawnsOf_app, Hspawns, Hclock. done.
Qed.

Lemma compile_rejection_is_reported_witness :
  exists w2,
    executeCode Sample.languages (js "int main() {}") (js "cpp") [] None
      (Sample.world Sample.coldCache [[TimerFired]])
    = (Ret {| output := []; error := js "Execution timeout";
              executionTime := 10; status := StatusError; testCases := None |}, w2)
    /\ spawnsOf (log w2)
       = [] ++ [compileCall Sample.cppConfig Sample.gpp (js "/tmp/code-execution/s1")].
Proof.
  refine (compile_rejection_is_reported Sample.languages (js "int main() {}") (js "cpp")
            [] None Sample.cppConfig Sample.gpp
            (Sample.world Sample.coldCache [[TimerFired]])
            (beforeCompile Sample.cppConfig Sample.gpp (js "int main() {}")
               (js "/tmp/code-execution/s1")
               (entered (Sample.world Sample.coldCache [[TimerFired]]))).2
            (ErrorObj (js "Execution timeout")) _ _ _ _).
  - reflexivity.
  - reflexivity.
  - vm_compute. reflexivity.
  - reflexivity.
Defined.

(** ** A cache entry that cannot be copied *)

Lemma perform_eq c w :
  perform c w
  = (match fs_script w with
     | [] => Ret []
     | FsOk entries :: _ => Ret entries
     | FsThrow e :: _ => Throw e
     end, answered c w).
Proof. unfold perform, answered. by destruct (fs_script w) as [|[|]]. Qed.

Lemma beforeCompile_cpp_copy_fails lc comp code sd w e1 e2 a3 e4 e5 e rest :
  name lc = js "cpp" ->
  fs_script w = FsOk e1 :: FsOk e2 :: a3 :: FsOk e4 :: FsOk e5 :: FsThrow e :: rest ->
  exists w1,
    beforeCompile lc comp code sd w = (Throw e, w1)
    /\ clock w1 = clock w
    /\ fs_script w1 = rest
    /\ log w1
       = log w
         ++ [Mkdir sd; WriteFile (path_join sd (filenameOf lc)) code; Mkdir CACHE_DIR;
             Stat (cachedBinOf lc comp code);
             Mkdir (dirname (path_join sd (js "program")));
             CopyFile (cachedBinOf lc comp code) (path_join sd (js "program"))].
Proof.
  intros Hname Hfs.
  exists (answered (CopyFile (cachedBinOf lc comp code) (path_join sd (js "program")))
            (answered (Mkdir (dirname (path_join sd (js "program"))))
               (answered (Stat (cachedBinOf lc comp code))
                  (answered (Mkdir CACHE_DIR)
                     (answered (WriteFile (path_join sd (filenameOf lc)) code)
                        (answered (Mkdir sd) w)))))).
  split.
  - unfold beforeCompile, cacheLookup, cachedBinOf.
    rewrite Hname. change (jseqb (js "cpp") (js "cpp")) with true. cbv iota.
    unfold pathExists, copyFile, ensureDir, try_catch, bind.
    rewrite (perform_eq (Mkdir sd)), Hfs.
    rewrite (perform_eq (WriteFile _ _)). cbn [answered fs_script tl]. rewrite Hfs. cbn [tl].
    rewrite (perform_eq (Mkdir CACHE_DIR)). cbn [answered fs_script tl]. rewrite Hfs. cbn [tl].
    destruct a3; cbn [ret];
      do 3 (rewrite perform_eq; cbn [answered fs_script tl ret]; rewrite Hfs;
            cbn [tl ret]);
      reflexivity.
  - cbn [answered clock fs_script log tl]. rewrite Hfs. cbn [tl].
    by rewrite <- !app_assoc.
Qed.

(** X8. For cpp, when the cached binary is found but copying it into
    the workspace fails, the job fails with the copy's error: [executeCode]
    returns [status = error] and spawns neither the compiler nor the program;
    the workspace is still removed. *)
Theorem cached_binary_copy_failure_fails_the_job
    (languages : gmap jsstring LanguageConfig) (code language input : jsstring)
    (cases : option (list TestCase)) (langConfig : LanguageConfig)
    (comp : CompileConfig) (w : World) (e1 e2 e4 e5 : list dirent)
    (a3 : fs_answer) (e : thrown) (rest : list fs_answer) :
  languages !! language = Some langConfig ->
  compile langConfig = Some comp ->
  name langConfig = js "cpp" ->
  fs_script w = FsOk e1 :: FsOk e2 :: a3 :: FsOk e4 :: FsOk e5 :: FsThrow e :: rest ->
  exists w2 tail,
    executeCode languages code language input cases w
    = (Ret {| output := []; error := messageOf e;
              executionTime := hd 0 (tl (clock w)) - startTimeOf w;
              status := StatusError; testCases := None |}, w2)
    /\ log w2
       = log w
         ++ [Mkdir (sessionDirOf w); WriteFile (filepathOf langConfig w) code;
             Mkdir CACHE_DIR; Stat (cachedBinOf langConfig comp code);
             Mkdir (dirname (path_join (sessionDirOf w) (js "program")));
             CopyFile (cachedBinOf langConfig comp code)
               (path_join (sessionDirOf w) (js "program"));
             Rm (sessionDirOf w)] ++ tail
    /\ spawnsOf (log w2) = spawnsOf (log w).
Proof.
  intros Hlc Hcomp Hname Hfs.
  destruct (beforeCompile_cpp_copy_fails langConfig comp code (sessionDirOf w)
              (entered w) e1 e2 a3 e4 e5 e rest Hname Hfs)
    as (w1 & Hbefore & Hclock & Hrest & Hlog).
  assert (Hbody : tryBody langConfig code input cases (sessionDirOf w) (startTimeOf w)
                    (entered w) = (Throw e, w1)).
  { unfold tryBody, bind at 1, setupPhase. rewrite Hcomp.
    revert Hbefore. unfold beforeCompile, compileStep, bind.
    repeat (match goal with
            | |- context [perform ?c ?x] => destruct (perform c x) as [[?|?] ?]
            | |- context [try_catch ?m ?h ?x] => destruct (try_catch m h x) as [[?|?] ?]
            | |- context [cacheLookup ?a ?b ?c ?x] =>
                destruct (cacheLookup a b c x) as [[?|?] ?]
            end; try done).
    all: by intros [= <- <-]. }
  rewrite (executeCode_registered _ _ _ _ _ langConfig) by done.
  unfold try_finally, try_catch. rewrite Hbody.
  unfold catchClause, bind, now, ret. cbn [fst snd].
  unfold cleanup, try_catch, bind. rewrite perform_eq.
  cbn [answered clock log fs_script]. rewrite Hclock, Hlog.
  cbn [entered clock log].
  destruct (fs_script w1) as [|[|] ?].
  - eexists _, []. split; [reflexivity|]. cbn [answered log].
    split; [by rewrite <- app_assoc|].
    by rewrite !spawnsOf_app, !app_nil_r.
  - eexists _, []. split; [reflexivity|]. cbn [answered log].
    split; [by rewrite <- app_assoc|].
    by rewrite !spawnsOf_app, !app_nil_r.
  - eexists _, [ConsoleError (js "Cleanup error:")]. split; [reflexivity|].
    unfold consoleError. cbn [answered logged log snd].
    split; [by rewrite <- !app_assoc|].
    by rewrite !spawnsOf_app, !app_nil_r.
Qed.

Lemma cached_binary_copy_failure_fails_the_job_witness :
  exists w2 tail,
    executeCode Sample.languages (js "int main() {}") (js "cpp") [] None
      (Sample.world [FsOk []; FsOk []; FsOk []; FsOk []; FsOk [];
                     FsThrow (ErrorObj (js "EACCES: permission denied"))] [])
    = (Ret {| output := []; error := js "EACCES: permission denied";
              executionTime := 10; status := StatusError; testCases := None |}, w2)
    /\ log w2
       = [] ++ [Mkdir (js "/tmp/code-execution/s1");
                WriteFile (js "/tmp/code-execution/s1/main.cpp") (js "int main() {}");
                Mkdir CACHE_DIR;
                Stat (cachedBinOf Sample.cppConfig Sample.gpp (js "int main() {}"));
                Mkdir (dirname (js "/tmp/code-execution/s1/program"));
                CopyFile (cachedBinOf Sample.cppConfig Sample.gpp (js "int main() {}"))
                  (js "/tmp/code-execution/s1/program");
                Rm (js "/tmp/code-execution/s1")] ++ tail
    /\ spawnsOf (log w2) = spawnsOf [].
Proof.
  refine (cached_binary_copy_failure_fails_the_job Sample.languages (js "int main() {}")
            (js "cpp") [] None Sample.cppConfig Sample.gpp
            (Sample.world [FsOk []; FsOk []; FsOk []; FsOk []; FsOk [];
                           FsThrow (ErrorObj (js "EACCES: permission denied"))] [])
            [] [] [] [] (FsOk []) (ErrorObj (js "EACCES: permission denied")) [] _ _ _ _).
  - reflexivity.
  - reflexivity.
  - reflexivity.
  - reflexivity.
Defined.

(** ** Modes, tokens and the two executors *)

(** X9. An empty [testCases] array selects the single run, as an absent
    one does; with at least one test case the top-level [input] is ignored. *)
Theorem input_is_for_the_single_run_only
    (languages : gmap jsstring LanguageConfig) (code language input input' : jsstring)
    (testCase : TestCase) (cases : list TestCase) (w : World) :
  executeCode languages code language input (Some []) w
  = executeCode languages code language input None w
  /\ executeCode languages code language input (Some (testCase :: cases)) w
     = executeCode languages code language input' (Some (testCase :: cases)) w.
Proof. split; reflexivity. Qed.

(** X10. The three chained [replace] calls do not interfere: in an
    argument that names each token once, in either order, each token gets its
    own value ([{filename}] is not taken for [{file}]), and an argument
    without a brace is passed on as it is. *)
Theorem substitute_expands_each_token
    (filepath sessionDir filename pre mid mid' post : jsstring) :
  braceFree pre -> braceFree mid -> braceFree mid' -> braceFree post ->
  braceFree filepath -> braceFree sessionDir -> braceFree filename ->
  plain filepath -> plain sessionDir -> plain filename ->
  substitute filepath sessionDir filename
    (pre ++ js "{file}" ++ mid ++ js "{dir}" ++ mid' ++ js "{filename}" ++ post)
  = pre ++ filepath ++ mid ++ sessionDir ++ mid' ++ filename ++ post
  /\ substitute filepath sessionDir filename
       (pre ++ js "{filename}" ++ mid ++ js "{dir}" ++ mid' ++ js "{file}" ++ post)
     = pre ++ filename ++ mid ++ sessionDir ++ mid' ++ filepath ++ post
  /\ substitute filepath sessionDir filename pre = pre.
Proof.
  intros Hpre Hmid Hmid' Hpost Hfp Hsd Hfn Pfp Psd Pfn.
  repeat split; expose_tokens; by repeat replace_step.
Qed.

Lemma substitute_expands_each_token_witness :
  substitute (js "/tmp/code-execution/s1/Main.java") (js "/tmp/code-execution/s1")
    (js "Main.java") (js "{filename}:{dir}:{file}")
  = js "Main.java:/tmp/code-execution/s1:/tmp/code-execution/s1/Main.java".
Proof.
  refine (proj1 (proj2
    (substitute_expands_each_token
       (js "/tmp/code-execution/s1/Main.java") (js "/tmp/code-execution/s1")
       (js "Main.java") [] (js ":") (js ":") [] _ _ _ _ _ _ _ _ _ _)));
    unfold braceFree, plain; apply (bool_decide_unpack _); vm_compute; exact I.
Defined.

(** X11. For a language without a compile step the two executors of the
    repository agree, the file system and the children behaving the same:
    same result or error, same calls, same world. *)
Theorem executors_agree_without_compile_step
    (languages : gmap jsstring LanguageConfig) (code language input : jsstring)
    (cases : option (list TestCase)) (w : World) :
  (forall langConfig,
      languages !! language = Some langConfig -> compile langConfig = None) ->
  Uncached.executeCode languages code language input cases w
  = executeCode languages code language input cases w.
Proof.
  intros Hnone. unfold Uncached.executeCode, executeCode, bind, now, uuidv4.
  destruct (languages !! language) as [langConfig|] eqn:Hlc; [|done].
  specialize (Hnone langConfig eq_refl).
  unfold try_finally, try_catch.
  match goal with
  | |- context [Uncached.tryBody ?lc ?c ?i ?cs ?sd ?t0 ?x] =>
      replace (Uncached.tryBody lc c i cs sd t0 x) with (tryBody lc c i cs sd t0 x);
      [done|]
  end.
  unfold tryBody, Uncached.tryBody, setupPhase. rewrite Hnone. unfold bind, ret.
  destruct (perform (Mkdir _) _) as [[?|?] w2]; [|done].
  by destruct (perform (WriteFile _ _) w2) as [[?|?] w3].
Qed.

Lemma executors_agree_without_compile_step_witness :
  Uncached.executeCode Sample.languages Sample.hello (js "python") [] None
    (Sample.world [] [[StdoutData (js "1"); Close (Some 0)]])
  = executeCode Sample.languages Sample.hello (js "python") [] None
      (Sample.world [] [[StdoutData (js "1"); Close (Some 0)]]).
Proof.
  apply (executors_agree_without_compile_step Sample.languages Sample.hello
           (js "python") [] None).
  intros langConfig Hlc.
  change (Sample.languages !! js "python") with (Some Sample.pythonConfig) in Hlc.
  by injection Hlc as <-.
Defined.

(** ** The language registry *)

Section Registry.

Import LanguageManager.

Implicit Types (m : Manager) (env : Env) (config : parsed) (n : jsstring).

Lemma Map_get_set key value k (l : Map) :
  Map_get k (Map_set key value l)
  = if decide (key = k) then Some value else Map_get k l.
Proof.
  induction l as [|[k0 v0] l IH]; cbn [Map_set Map_get].
  - by destruct (decide (key = k)).
  - destruct (decide (k0 = key)) as [->|Hne]; cbn [Map_get].
    + by destruct (decide (key = k)).
    + rewrite IH. destruct (decide (k0 = k)) as [->|]; [|done].
      by destruct (decide (key = k)) as [<-|].
Qed.

Lemma Map_set_keys key value (l : Map) :
  map fst (Map_set key value l)
  = if Map_has key l then map fst l else map fst l ++ [key].
Proof.
  unfold Map_has. induction l as [|[k0 v0] l IH]; cbn [Map_set Map_get map fst]; [done|].
  destruct (decide (k0 = key)) as [->|Hne]; cbn [map fst present]; [done|].
  rewrite IH. by destruct (present (Map_get key l)).
Qed.

Lemma Map_has_keys key (l : Map) : Map_has key l = true <-> key ∈ map fst l.
Proof.
  unfold Map_has. induction l as [|[k0 v0] l IH]; cbn [Map_get map fst present].
  - split; [done|]. by intros ?%elem_of_nil.
  - destruct (decide (k0 = key)) as [->|Hne]; cbn [present].
    + split; [|done]. intros _. by left.
    + rewrite IH. split; [by right|]. by intros [?|?]%elem_of_cons.
Qed.

Lemma Map_get_elem key value (l : Map) :
  Map_get key l = Some value -> (key, value) ∈ l.
Proof.
  induction l as [|[k0 v0] l IH]; cbn [Map_get]; [done|].
  destruct (decide (k0 = key)) as [->|Hne].
  - intros [= ->]. by left.
  - intros H. right. by apply IH.
Qed.

Lemma Map_set_elem key value (l : Map) k v :
  (k, v) ∈ Map_set key value l -> (k, v) = (key, value) \/ (k, v) ∈ l.
Proof.
  induction l as [|[k0 v0] l IH]; cbn [Map_set].
  - intros ->%list_elem_of_singleton. by left.
  - destruct (decide (k0 = key)) as [->|Hne].
    + intros [->|H]%elem_of_cons; [by left|]. right. by right.
    + intros [->|H]%elem_of_cons; [right; by left|].
      destruct (IH H) as [?|?]; [by left|]. right. by right.
Qed.

(** A valid descriptor is an object with a name and a display name. *)
Lemma validate_object config :
  validateLanguageConfig config = true ->
  exists o name displayName,
    config = Object o /\ o_name o = Some name /\ o_displayName o = Some displayName.
Proof.
  destruct config as [| |o]; [done..|].
  unfold validateLanguageConfig, required. cbn [forallb].
  change (hasProperty (js "name") o) with (present (o_name o)).
  change (hasProperty (js "displayName") o) with (present (o_displayName o)).
  destruct (o_name o) as [name|] eqn:Hname; cbn [present andb]; [|done].
  destruct (o_displayName o) as [displayName|] eqn:Hdn; cbn [present andb]; [|done].
  intros _. by exists o, name, displayName.
Qed.

(** One iteration of the loop. *)
Lemma loadLoop_step env file rest m config :
  parses env file config ->
  loadLoop env (file :: rest) m
  = loadLoop env rest
      (if validateLanguageConfig config then
         match config with
         | Object o =>
             traced (SaidLoaded (o_displayName o) (o_name o))
               (setLanguage (o_name o) config
                  (traced (ReadFile (path_join (configDir env) file)) m))
         | _ => m
         end
       else traced (SaidInvalid file)
              (traced (ReadFile (path_join (configDir env) file)) m)).
Proof.
  intros (content & Hread & Hparse). cbn [loadLoop]. rewrite Hread, Hparse.
  destruct (validateLanguageConfig config) eqn:Hvalid; cbn [negb]; [|done].
  by destruct (validate_object _ Hvalid) as (o & name & displayName & -> & _ & _).
Qed.

Lemma loadLoop_fails env file rest m e :
  fails env file e ->
  loadLoop env (file :: rest) m
  = (Throw e, traced (ReadFile (path_join (configDir env) file)) m).
Proof.
  intros [Hread|(content & Hread & Hparse)]; cbn [loadLoop]; rewrite Hread; [done|].
  by rewrite Hparse.
Qed.

Lemma registeredBy_app n configs config :
  registeredBy n (configs ++ [config])
  = if namedBy n config then Some config else registeredBy n configs.
Proof.
  induction configs as [|c configs IH]; cbn [app registeredBy]; [done|].
  rewrite IH. by destruct (namedBy n config).
Qed.

Lemma namedBy_set n config o m :
  config = Object o ->
  validateLanguageConfig config = true ->
  Map_get (Some n) (Map_set (o_name o) config (languages m))
  = if namedBy n config then Some config else Map_get (Some n) (languages m).
Proof.
  intros -> Hvalid. rewrite Map_get_set. cbn [namedBy]. rewrite Hvalid. cbn [andb].
  destruct (decide (o_name o = Some n)) as [Heq|Hne].
  - by rewrite bool_decide_eq_true_2.
  - by rewrite bool_decide_eq_false_2.
Qed.

(** The loop over files that all parse. *)
Lemma loadLoop_parsed env jsonFiles configs m :
  Forall2 (parses env) jsonFiles configs ->
  exists m',
    loadLoop env jsonFiles m = (Ret tt, m')
    /\ (forall n,
          Map_get (Some n) (languages m')
          = match registeredBy n configs with
            | Some config => Some config
            | None => Map_get (Some n) (languages m)
            end)
    /\ readsOf (trace m')
       = readsOf (trace m) ++ map (path_join (configDir env)) jsonFiles.
Proof.
  intros Hall. revert m.
  induction Hall as [|file config jsonFiles configs Hparse Hall IH]; intros m.
  - exists m. cbn. by rewrite app_nil_r.
  - rewrite (loadLoop_step _ _ _ _ _ Hparse).
    match goal with |- context [loadLoop env jsonFiles ?x] => destruct (IH x) as (m' & Hrun & Hget & Hreads) end.
    exists m'. split; [done|].
    assert (Hr : forall evs ev, readsOf (evs ++ [ev])
                   = readsOf evs ++ match ev with ReadFile p => [p] | _ => [] end).
    { intros evs ev. induction evs as [|[] evs IHe]; cbn [app readsOf];
        rewrite ?IHe; by destruct ev. }
    destruct (validateLanguageConfig config) eqn:Hvalid.
    + destruct (validate_object _ Hvalid) as (o & name & displayName & -> & Hname & Hdn).
      split.
      * intros n. rewrite Hget. cbn [registeredBy traced setLanguage languages].
        destruct (registeredBy n configs); [done|].
        rewrite (namedBy_set n (Object o) o m eq_refl Hvalid).
        by destruct (namedBy n (Object o)).
      * rewrite Hreads. cbn [traced setLanguage trace map]. rewrite !Hr.
        by rewrite app_nil_r, <- app_assoc.
    + split.
      * intros n. rewrite Hget. cbn [registeredBy traced languages].
        destruct (registeredBy n configs); [done|].
        destruct config as [| |o]; cbn [namedBy]; [done..|]. by rewrite Hvalid.
      * rewrite Hreads. cbn [traced trace map]. rewrite !Hr.
        by rewrite app_nil_r, <- app_assoc.
Qed.

Lemma ordered_set (l : Map) config o :
  config = Object o -> validateLanguageConfig config = true ->
  ordered l -> ordered (Map_set (o_name o) config l).
Proof.
  intros -> Hvalid [Hnodup Hall]. split.
  - rewrite Map_set_keys. destruct (Map_has (o_name o) l) eqn:Hhas; [done|].
    apply NoDup_app. split; [done|]. split; [|apply NoDup_singleton].
    intros k Hk ->%list_elem_of_singleton.
    apply Map_has_keys in Hk. by rewrite Hk in Hhas.
  - intros k config [[= -> ->]|Hin]%Map_set_elem; [done|]. by apply Hall.
Qed.

Lemma ordered_loadLoop env jsonFiles m :
  ordered (languages m) -> ordered (languages (loadLoop env jsonFiles m).2).
Proof.
  revert m. induction jsonFiles as [|file rest IH]; intros m Hm; [done|].
  cbn [loadLoop].
  destruct (readFile env _) as [content|e]; [|done].
  destruct (JSON_parse env content) as [config|e]; [|done].
  destruct (validateLanguageConfig config) eqn:Hvalid; cbn [negb].
  - destruct (validate_object _ Hvalid) as (o & name & displayName & -> & Hname & Hdn).
    cbn [get_name get_displayName]. apply IH. cbn [traced setLanguage languages].
    by apply ordered_set.
  - by apply IH.
Qed.

Lemma ordered_loadLanguages env m :
  ordered (languages m) -> ordered (languages (loadLanguages env m).2).
Proof.
  intros Hm. unfold loadLanguages, loadBody.
  destruct (readdir env) as [files|e]; [|done].
  pose proof (ordered_loadLoop env
                (List.filter (fun file => endsWith file (js ".json")) files)
                (traced (ReadDir (configDir env)) m) Hm) as H.
  by destruct (loadLoop env _ _) as [[[]|e] m'].
Qed.

Lemma ordered_afterLoads envs : ordered (languages (afterLoads envs)).
Proof.
  unfold afterLoads.
  assert (H : ordered (languages fresh)).
  { split; [apply NoDup_nil_2|]. by intros k config ?%elem_of_nil. }
  revert H. generalize fresh.
  induction envs as [|env envs IH]; intros m Hm; [done|].
  cbn [fold_left]. by apply IH, ordered_loadLanguages.
Qed.

(** Keys are only ever added, at the end. *)
Lemma keys_loadLoop env jsonFiles m :
  exists added,
    map fst (languages (loadLoop env jsonFiles m).2) = map fst (languages m) ++ added.
Proof.
  revert m. induction jsonFiles as [|file rest IH]; intros m.
  - exists []. cbn. by rewrite app_nil_r.
  - cbn [loadLoop].
    destruct (readFile env _) as [content|e]; [|exists []; cbn; by rewrite app_nil_r].
    destruct (JSON_parse env content) as [config|e];
      [|exists []; cbn; by rewrite app_nil_r].
    destruct (validateLanguageConfig config) eqn:Hvalid; cbn [negb].
    + destruct (validate_object _ Hvalid) as (o & name & displayName & -> & Hname & Hdn).
      cbn [get_name get_displayName].
      match goal with |- context [loadLoop env rest ?x] => destruct (IH x) as (added & ->) end.
      cbn [traced setLanguage languages]. rewrite Map_set_keys.
      destruct (Map_has (o_name o) (languages m)); [by exists added|].
      exists (o_name o :: added). by rewrite <- app_assoc.
    + match goal with |- context [loadLoop env rest ?x] => destruct (IH x) as (added & ->) end.
      by exists added.
Qed.

End Registry.

(** X12. When every [.json] file of the configuration directory reads
    and parses, [loadLanguages] returns; afterwards [getLanguage(n)] is the
    last valid descriptor named [n] among those files, in directory order, or
    what it was before when there is none; the files read are the [.json]
    files and no others, each once, in order. *)
Theorem loadLanguages_registers_last_valid_descriptor
    (env : LanguageManager.Env) (m : LanguageManager.Manager)
    (files : list jsstring) (configs : list LanguageManager.parsed) :
  LanguageManager.readdir env = Ret files ->
  Forall2 (LanguageManager.parses env) (LanguageManager.jsonFilesOf files) configs ->
  exists m',
    LanguageManager.loadLanguages env m = (Ret tt, m')
    /\ (forall n,
          LanguageManager.getLanguage n m'
          = match LanguageManager.registeredBy n configs with
            | Some config => Some config
            | None => LanguageManager.getLanguage n m
            end)
    /\ LanguageManager.readsOf (LanguageManager.trace m')
       = LanguageManager.readsOf (LanguageManager.trace m)
         ++ map (path_join (LanguageManager.configDir env))
              (LanguageManager.jsonFilesOf files).
Proof.
  intros Hdir Hall.
  destruct (loadLoop_parsed env _ configs
              (LanguageManager.traced
                 (LanguageManager.ReadDir (LanguageManager.configDir env)) m) Hall)
    as (m' & Hrun & Hget & Hreads).
  exists (LanguageManager.traced
            (LanguageManager.SaidCount (length (LanguageManager.languages m'))) m').
  unfold LanguageManager.loadLanguages, LanguageManager.loadBody.
  rewrite Hdir. unfold LanguageManager.jsonFilesOf in Hrun. rewrite Hrun.
  split; [done|]. split.
  - intros n. unfold LanguageManager.getLanguage.
    cbn [LanguageManager.traced LanguageManager.languages]. by rewrite Hget.
  - cbn [LanguageManager.traced LanguageManager.trace] in *.
    assert (Hr : forall evs ev, LanguageManager.readsOf (evs ++ [ev])
                   = LanguageManager.readsOf evs
                     ++ match ev with LanguageManager.ReadFile p => [p] | _ => [] end).
    { intros evs ev. induction evs as [|[] evs IHe]; cbn [app LanguageManager.readsOf];
        rewrite ?IHe; by destruct ev. }
    rewrite Hr, app_nil_r, Hreads, Hr, app_nil_r. done.
Qed.

Lemma loadLanguages_registers_last_valid_descriptor_witness :
  exists m',
    LanguageManager.loadLanguages
      (SampleRegistry.env [js "a.json"; js "README.md"; js "b.json"; js "c.json"])
      LanguageManager.fresh = (Ret tt, m')
    /\ (forall n,
          LanguageManager.getLanguage n m'
          = match LanguageManager.registeredBy n
                    [LanguageManager.Object SampleRegistry.python;
                     LanguageManager.Object SampleRegistry.draft;
                     LanguageManager.Object SampleRegistry.pypy] with
            | Some config => Some config
            | None => LanguageManager.getLanguage n LanguageManager.fresh
            end)
    /\ LanguageManager.readsOf (LanguageManager.trace m')
       = [] ++ map (path_join (js "/app/config/languages"))
                 [js "a.json"; js "b.json"; js "c.json"].
Proof.
  apply (loadLanguages_registers_last_valid_descriptor
           (SampleRegistry.env [js "a.json"; js "README.md"; js "b.json"; js "c.json"])
           LanguageManager.fresh
           [js "a.json"; js "README.md"; js "b.json"; js "c.json"]).
  - reflexivity.
  - repeat constructor; eexists; split; reflexivity.
Defined.

Section RegistryFailure.

Import LanguageManager.

Lemma readsOf_snoc evs ev :
  readsOf (evs ++ [ev])
  = readsOf evs ++ match ev with ReadFile p => [p] | _ => [] end.
Proof.
  induction evs as [|[] evs IHe]; cbn [app readsOf]; rewrite ?IHe; by destruct ev.
Qed.

Lemma loadLoop_app env good rest m m1 :
  loadLoop env good m = (Ret tt, m1) ->
  loadLoop env (good ++ rest) m = loadLoop env rest m1.
Proof.
  revert m. induction good as [|file good IH]; intros m; [by intros [= ->]|].
  cbn [app loadLoop].
  destruct (readFile env _) as [content|e]; [|done].
  destruct (JSON_parse env content) as [config|e]; [|done].
  destruct (negb (validateLanguageConfig config)); [apply IH|].
  destruct (get_name config) as [name|e]; [|done].
  destruct (get_displayName config) as [displayName|e]; [|done].
  apply IH.
Qed.

End RegistryFailure.

(** X13. When reading or parsing a [.json] file throws, [loadLanguages]
    logs the error and throws it on; the files after it are not read, and the
    descriptors registered from the files before it stay registered. *)
Theorem loadLanguages_failure_keeps_earlier_descriptors
    (env : LanguageManager.Env) (m : LanguageManager.Manager)
    (files good rest : list jsstring) (bad : jsstring)
    (configs : list LanguageManager.parsed) (e : thrown) :
  LanguageManager.readdir env = Ret files ->
  LanguageManager.jsonFilesOf files = good ++ bad :: rest ->
  Forall2 (LanguageManager.parses env) good configs ->
  LanguageManager.fails env bad e ->
  exists m',
    LanguageManager.loadLanguages env m = (Throw e, m')
    /\ last (LanguageManager.trace m') = Some (LanguageManager.SaidError e)
    /\ (forall n,
          LanguageManager.getLanguage n m'
          = match LanguageManager.registeredBy n configs with
            | Some config => Some config
            | None => LanguageManager.getLanguage n m
            end)
    /\ LanguageManager.readsOf (LanguageManager.trace m')
       = LanguageManager.readsOf (LanguageManager.trace m)
         ++ map (path_join (LanguageManager.configDir env)) (good ++ [bad]).
Proof.
  intros Hdir Hfiles Hgood Hbad.
  destruct (loadLoop_parsed env good configs
              (LanguageManager.traced
                 (LanguageManager.ReadDir (LanguageManager.configDir env)) m) Hgood)
    as (m1 & Hrun & Hget & Hreads).
  eexists. unfold LanguageManager.loadLanguages, LanguageManager.loadBody.
  rewrite Hdir. fold (LanguageManager.jsonFilesOf files). rewrite Hfiles.
  rewrite (loadLoop_app _ _ _ _ _ Hrun), (loadLoop_fails _ _ _ _ _ Hbad).
  split; [reflexivity|].
  cbn [LanguageManager.traced LanguageManager.trace LanguageManager.languages] in *.
  split; [by rewrite last_snoc|]. split.
  - intros n. unfold LanguageManager.getLanguage. by rewrite Hget.
  - rewrite !readsOf_snoc, Hreads, readsOf_snoc, !app_nil_r, map_app, <- app_assoc.
    done.
Qed.

Lemma loadLanguages_failure_keeps_earlier_descriptors_witness :
  exists m',
    LanguageManager.loadLanguages
      (SampleRegistry.env [js "a.json"; js "d.json"; js "c.json"])
      LanguageManager.fresh = (Throw SampleRegistry.syntaxError, m')
    /\ last (LanguageManager.trace m')
       = Some (LanguageManager.SaidError SampleRegistry.syntaxError)
    /\ (forall n,
          LanguageManager.getLanguage n m'
          = match LanguageManager.registeredBy n
                    [LanguageManager.Object SampleRegistry.python] with
            | Some config => Some config
            | None => LanguageManager.getLanguage n LanguageManager.fresh
            end)
    /\ LanguageManager.readsOf (LanguageManager.trace m')
       = [] ++ map (path_join (js "/app/config/languages")) ([js "a.json"] ++ [js "d.json"]).
Proof.
  apply (loadLanguages_failure_keeps_earlier_descriptors
           (SampleRegistry.env [js "a.json"; js "d.json"; js "c.json"])
           LanguageManager.fresh [js "a.json"; js "d.json"; js "c.json"]
           [js "a.json"] [js "c.json"] (js "d.json")).
  - reflexivity.
  - reflexivity.
  - repeat constructor; eexists; split; reflexivity.
  - right. eexists. split; reflexivity.
Defined.

(** X14. After any number of [loadLanguages] calls on a new registry,
    whatever the file system and the parser answered and whether the calls
    returned or threw: the supported names are strings without duplicates,
    [isSupported] and [getLanguage] agree with them, every descriptor is
    registered under its own [name] and has passed the validation, and
    [getLanguageInfo] returns, one entry per name in the same order. *)
Theorem registry_api_is_consistent (envs : list LanguageManager.Env) :
  exists names,
    LanguageManager.getSupportedLanguages (LanguageManager.afterLoads envs)
    = map Some names
    /\ NoDup names
    /\ (forall n,
          LanguageManager.isSupported n (LanguageManager.afterLoads envs) = true
          <-> n ∈ names)
    /\ (forall n,
          n ∈ names
          <-> is_Some (LanguageManager.getLanguage n (LanguageManager.afterLoads envs)))
    /\ (forall n config,
          LanguageManager.getLanguage n (LanguageManager.afterLoads envs) = Some config ->
          LanguageManager.validateLanguageConfig config = true
          /\ LanguageManager.get_name config = Ret (Some n))
    /\ exists infos,
         LanguageManager.getLanguageInfo (LanguageManager.afterLoads envs) = Ret infos
         /\ map LanguageManager.li_name infos = map Some names.
Proof.
  destruct (ordered_afterLoads envs) as [Hnodup Hall].
  unfold LanguageManager.getSupportedLanguages, LanguageManager.isSupported,
    LanguageManager.getLanguage, LanguageManager.getLanguageInfo,
    LanguageManager.getAllLanguages.
  generalize dependent (LanguageManager.languages (LanguageManager.afterLoads envs)).
  intros l Hnodup Hall.
  assert (Hkeys : exists names, map fst l = map Some names
            /\ exists infos, LanguageManager.infoOf (map snd l) = Ret infos
                 /\ map LanguageManager.li_name infos = map Some names).
  { clear Hnodup. induction l as [|[k config] l IH].
    - exists []. split; [done|]. by exists [].
    - destruct IH as (names & Hn & infos & Hi & Hin).
      { intros k' c' Hin. apply Hall. by right. }
      destruct (Hall k config) as [Hvalid Hname]; [by left|].
      destruct (validate_object _ Hvalid) as (o & name & displayName & -> & Ho & Hd).
      cbn [LanguageManager.get_name] in Hname. injection Hname as <-.
      exists (name :: names). cbn [map fst snd]. rewrite Hn, Ho. split; [done|].
      cbn [LanguageManager.infoOf LanguageManager.get_name
             LanguageManager.get_displayName]. rewrite Hi.
      eexists. split; [reflexivity|]. cbn [map LanguageManager.li_name].
      by rewrite Hin, Ho. }
  destruct Hkeys as (names & Hnames & Hinfos). exists names.
  split; [done|]. split.
  { rewrite Hnames in Hnodup. by apply (NoDup_fmap_1 Some). }
  assert (Hsup : forall n, LanguageManager.Map_has (Some n) l = true <-> n ∈ names).
  { intros n. rewrite Map_has_keys, Hnames. rewrite list_elem_of_fmap. split.
    - by intros (n' & [= ->] & Hin).
    - intros Hin. by exists n. }
  split; [done|]. split.
  { intros n. rewrite <- Hsup. unfold LanguageManager.Map_has.
    destruct (LanguageManager.Map_get (Some n) l); cbn; split; try done.
    all: by intros [? [=]]. }
  split; [|done].
  intros n config Hget. by apply Hall, Map_get_elem.
Qed.

(** X15. [loadLanguages] never unregisters a language: the names
    supported before the call are still supported after it, in the same
    places, and new names come after them. *)
Theorem loadLanguages_only_adds_names
    (env : LanguageManager.Env) (m : LanguageManager.Manager) :
  exists added,
    LanguageManager.getSupportedLanguages (LanguageManager.loadLanguages env m).2
    = LanguageManager.getSupportedLanguages m ++ added.
Proof.
  unfold LanguageManager.getSupportedLanguages, LanguageManager.loadLanguages,
    LanguageManager.loadBody.
  destruct (LanguageManager.readdir env) as [files|e];
    [|exists []; cbn; by rewrite app_nil_r].
  destruct (keys_loadLoop env
              (List.filter (fun file => endsWith file (js ".json")) files)
              (LanguageManager.traced
                 (LanguageManager.ReadDir (LanguageManager.configDir env)) m))
    as (added & Hadded).
  exists added.
  by destruct (LanguageManager.loadLoop env _ _) as [[[]|e] m'].
Qed.

(** ** The dispatcher's routes *)

Section Routes.

Import Routes.

Implicit Types (s : State) (bull : Bull) (req : ExecuteCodeRequest).

Lemma andThen_eq {A B} (m : R A) (k : A -> R B) s a s' :
  m s = (Ret a, s') -> andThen m k s = k a s'.
Proof. intros H. unfold andThen. by rewrite H. Qed.

(** The containers of a routed language: one or two, each with a queue
    of its own. *)
Lemma containers_cases language containers :
  Master.getContainersForLanguage language = Ret containers ->
  (language = js "python" /\ containers = [js "python-1"; js "python-2"])
  \/ (language = js "java" /\ containers = [js "java-1"; js "java-2"])
  \/ (language = js "javascript" /\ containers = [js "javascript-1"])
  \/ (language = js "cpp" /\ containers = [js "cpp-1"])
  \/ (language = js "go" /\ containers = [js "go-1"]).
Proof.
  unfold Master.getContainersForLanguage, jseqb.
  repeat case_bool_decide; intros [= <-]; subst; tauto.
Qed.

Lemma unrouted_throws language :
  language ∉ [js "python"; js "java"; js "javascript"; js "cpp"; js "go"] ->
  Master.getContainersForLanguage language
  = Throw (ErrorObj (js "Unsupported language: " ++ language)).
Proof.
  intros Hnot. unfold Master.getContainersForLanguage, jseqb.
  repeat case_bool_decide; subst; try done;
    exfalso; apply Hnot; repeat first [by left | right].
Qed.

(** The selection among the containers of a routed language. *)
Lemma selectContainer_routed (codeQueues : gmap jsstring Master.Queue)
    language containers :
  Master.getContainersForLanguage language = Ret containers ->
  Master.reachable codeQueues containers ->
  exists winner lookups,
    Master.selectContainer codeQueues language = (Ret winner, lookups)
    /\ winner ∈ containers
    /\ (lookups = [] \/ lookups = containers)
    /\ forall c, c ∈ containers ->
         (Master.waitingDepth codeQueues winner
          <= Master.waitingDepth codeQueues c)%nat.
Proof.
  intros Hroute Hreach. unfold Master.selectContainer. rewrite Hroute.
  destruct (decide (1 < length containers)%nat) as [Hmany|Hone].
  - destruct (selectAmong_spec codeQueues containers Hmany Hreach)
      as (i & winner & Hi & Hsel & Hleast & _).
    exists winner, containers. split; [done|].
    split; [by eapply list_elem_of_lookup_2|]. split; [by right|done].
  - destruct (containers_cases _ _ Hroute)
      as [[_ ->]|[[_ ->]|[[_ ->]|[[_ ->]|[_ ->]]]]]; cbn in Hone; try lia.
    all: eexists _, []; split; [reflexivity|]; split; [by left|];
      split; [by left|]; by intros c ->%list_elem_of_singleton.
Qed.

End Routes.

(** X16. [POST /execute] answers 400 with an empty id and status
    [failed]: with "Code and language are required" when [code] or
    [language] is missing or empty, and with "Unsupported language: " and
    the language when both are there and the language has no descriptor. In
    both cases it draws no job id and calls neither the broker nor the
    console. *)
Theorem execute_rejects_bad_requests_without_side_effects
    (languages : gmap jsstring LanguageConfig) (bull : Routes.Bull)
    (codeQueues : list (jsstring * Master.Queue))
    (req : Routes.ExecuteCodeRequest) (s : Routes.State) :
  (Routes.truthyOpt (Routes.b_code req) = false
   \/ Routes.truthyOpt (Routes.b_language req) = false ->
   Routes.execute languages bull codeQueues req s
   = (Ret (Routes.failed 400 [] (hd [] (Routes.dates s))
             (Some (js "Code and language are required")) None),
      {| Routes.uuids := Routes.uuids s; Routes.dates := tl (Routes.dates s);
         Routes.calls := Routes.calls s |}))
  /\ (Routes.truthyOpt (Routes.b_code req) = true ->
      Routes.truthyOpt (Routes.b_language req) = true ->
      languages !! default [] (Routes.b_language req) = None ->
      Routes.execute languages bull codeQueues req s
      = (Ret (Routes.failed 400 [] (hd [] (Routes.dates s))
                (Some (js "Unsupported language: "
                         ++ default [] (Routes.b_language req))) None),
         {| Routes.uuids := Routes.uuids s; Routes.dates := tl (Routes.dates s);
            Routes.calls := Routes.calls s |})).
Proof.
  split.
  - intros Hmissing. unfold Routes.execute, Routes.catching.
    assert (negb (Routes.truthyOpt (Routes.b_code req))
            || negb (Routes.truthyOpt (Routes.b_language req)) = true) as ->.
    { destruct Hmissing as [-> | ->]; [done|]. apply orb_true_r. }
    reflexivity.
  - intros Hc Hl Hnone. unfold Routes.execute, Routes.catching.
    rewrite Hc, Hl, Hnone. reflexivity.
Qed.

Lemma execute_rejects_bad_requests_without_side_effects_witness :
  Routes.execute SampleBroker.languages SampleBroker.bull
    (Routes.initializeQueues SampleBroker.bull)
    {| Routes.b_code := Some []; Routes.b_language := Some (js "cobol");
       Routes.b_input := None; Routes.b_testCases := None |} SampleBroker.state
  = (Ret (Routes.failed 400 [] (js "2025-01-01T00:00:00.000Z")
            (Some (js "Code and language are required")) None),
     {| Routes.uuids := [js "u1"]; Routes.dates := [js "2025-01-01T00:00:00.001Z"];
        Routes.calls := [] |})
  /\ Routes.execute SampleBroker.languages SampleBroker.bull
       (Routes.initializeQueues SampleBroker.bull) (SampleBroker.request (js "cobol"))
       SampleBroker.state
     = (Ret (Routes.failed 400 [] (js "2025-01-01T00:00:00.000Z")
               (Some (js "Unsupported language: " ++ js "cobol")) None),
        {| Routes.uuids := [js "u1"]; Routes.dates := [js "2025-01-01T00:00:00.001Z"];
           Routes.calls := [] |}).
Proof.
  split.
  - apply (proj1 (execute_rejects_bad_requests_without_side_effects
                    SampleBroker.languages SampleBroker.bull
                    (Routes.initializeQueues SampleBroker.bull)
                    {| Routes.b_code := Some []; Routes.b_language := Some (js "cobol");
                       Routes.b_input := None; Routes.b_testCases := None |}
                    SampleBroker.state)).
    left. reflexivity.
  - apply (proj2 (execute_rejects_bad_requests_without_side_effects
                    SampleBroker.languages SampleBroker.bull
                    (Routes.initializeQueues SampleBroker.bull)
                    (SampleBroker.request (js "cobol")) SampleBroker.state));
      reflexivity.
Defined.

(** X17. A language that has a descriptor but no container
    ([getContainersForLanguage] knows python, java, javascript, cpp and go
    only) is answered with 500 and "Unsupported language: ...", not with 400;
    no job id is drawn and nothing is sent to the broker. *)
Theorem execute_unrouted_language_is_a_server_error
    (languages : gmap jsstring LanguageConfig) (bull : Routes.Bull)
    (codeQueues : list (jsstring * Master.Queue))
    (req : Routes.ExecuteCodeRequest) (s : Routes.State)
    (language : jsstring) (langConfig : LanguageConfig) :
  Routes.truthyOpt (Routes.b_code req) = true ->
  Routes.b_language req = Some language ->
  language <> [] ->
  languages !! language = Some langConfig ->
  language ∉ [js "python"; js "java"; js "javascript"; js "cpp"; js "go"] ->
  Routes.execute languages bull codeQueues req s
  = (Ret (Routes.failed 500 [] (hd [] (Routes.dates s)) None
            (Some (js "Unsupported language: " ++ language))),
     {| Routes.uuids := Routes.uuids s; Routes.dates := tl (Routes.dates s);
        Routes.calls :=
          Routes.calls s
          ++ [Routes.ConsoleError (js "Error creating job:")
                (ErrorObj (js "Unsupported language: " ++ language))] |}).
Proof.
  intros Hcode Hlanguage Hne Hlc Hroute.
  assert (Hl : truthy language = true) by (by destruct language).
  unfold Routes.execute, Routes.catching.
  rewrite Hcode, Hlanguage. cbn [Routes.truthyOpt]. rewrite Hl. cbn [negb orb from_option id].
  rewrite Hlc. unfold Routes.andThen at 1, Routes.selectContainer at 1.
  unfold Master.selectContainer. rewrite (unrouted_throws _ Hroute).
  cbn. by rewrite app_nil_r.
Qed.

Lemma execute_unrouted_language_is_a_server_error_witness :
  Routes.execute SampleBroker.languages SampleBroker.bull
    (Routes.initializeQueues SampleBroker.bull) (SampleBroker.request (js "rust"))
    SampleBroker.state
  = (Ret (Routes.failed 500 [] (js "2025-01-01T00:00:00.000Z") None
            (Some (js "Unsupported language: " ++ js "rust"))),
     {| Routes.uuids := [js "u1"]; Routes.dates := [js "2025-01-01T00:00:00.001Z"];
        Routes.calls :=
          [] ++ [Routes.ConsoleError (js "Error creating job:")
                   (ErrorObj (js "Unsupported language: " ++ js "rust"))] |}).
Proof.
  apply (execute_unrouted_language_is_a_server_error SampleBroker.languages
           SampleBroker.bull (Routes.initializeQueues SampleBroker.bull)
           (SampleBroker.request (js "rust")) SampleBroker.state (js "rust")
           Sample.pythonConfig).
  - reflexivity.
  - reflexivity.
  - discriminate.
  - apply lookup_insert_eq.
  - apply (bool_decide_unpack _). vm_compute. exact I.
Defined.

(** X18. For a request with code and a language that has a descriptor
    and containers, when the queues answer: [POST /execute] adds exactly one
    job, to the queue of a container of that language with the fewest waiting
    jobs, under a fresh id that is the job's [jobId], the [id] of its data and
    the [id] of the 200 response; an absent [input] is sent as the empty
    string. *)
Theorem execute_enqueues_on_least_loaded_container
    (languages : gmap jsstring LanguageConfig) (bull : Routes.Bull)
    (codeQueues : list (jsstring * Master.Queue))
    (req : Routes.ExecuteCodeRequest) (s : Routes.State)
    (code language : jsstring) (langConfig : LanguageConfig)
    (containers : list jsstring) :
  Routes.b_code req = Some code -> code <> [] ->
  Routes.b_language req = Some language -> language <> [] ->
  languages !! language = Some langConfig ->
  Master.getContainersForLanguage language = Ret containers ->
  Master.reachable (Routes.asObject codeQueues) containers ->
  (forall queue data, Routes.add bull queue data = Ret tt) ->
  exists winner lookups s',
    let jobId := hd [] (Routes.uuids s) in
    let jobData :=
      {| Routes.jd_id := jobId; Routes.jd_code := code;
         Routes.jd_language := language;
         Routes.jd_input := default [] (Routes.b_input req);
         Routes.jd_testCases := Routes.b_testCases req;
         Routes.jd_timestamp := hd [] (Routes.dates s) |} in
    Routes.execute languages bull codeQueues req s
    = (Ret {| Routes.statusCode := 200;
              Routes.body :=
                {| Routes.jr_id := jobId; Routes.jr_status := Routes.Queued;
                   Routes.jr_output := None; Routes.jr_error := None;
                   Routes.jr_executionTime := None; Routes.jr_testCases := None;
                   Routes.jr_timestamp := hd [] (tl (Routes.dates s));
                   Routes.jr_message := Some (js "Job queued on " ++ winner);
                   Routes.jr_progress := None |} |}, s')
    /\ Routes.calls s'
       = Routes.calls s ++ map Routes.GetWaiting lookups
         ++ [Routes.Add winner (js "execute") jobData (Routes.options jobId);
             Routes.ConsoleLog (js "Job " ++ jobId ++ js " queued on container "
                                  ++ winner)]
    /\ winner ∈ containers
    /\ (lookups = [] \/ lookups = containers)
    /\ forall c, c ∈ containers ->
         (Master.waitingDepth (Routes.asObject codeQueues) winner
          <= Master.waitingDepth (Routes.asObject codeQueues) c)%nat.
Proof.
  intros Hcode Hc Hlanguage Hl Hlc Hroute Hreach Hadd.
  destruct (selectContainer_routed _ _ _ Hroute Hreach)
    as (winner & lookups & Hsel & Hin & Hlook & Hleast).
  destruct (Hreach winner Hin) as (q & jobs & Hq & _).
  exists winner, lookups. eexists. cbv zeta.
  unfold Routes.execute, Routes.catching.
  rewrite Hcode, Hlanguage. cbn [Routes.truthyOpt].
  assert (Htc : truthy code = true) by (by destruct code).
  assert (Htl : truthy language = true) by (by destruct language).
  rewrite Htc, Htl. cbn [negb orb from_option id]. rewrite Hlc.
  unfold Routes.andThen at 1, Routes.selectContainer at 1. rewrite Hsel.
  rewrite Hq. unfold Routes.andThen, Routes.uuidv4, Routes.toISOString, Routes.call,
    Routes.pure, Routes.called.
  cbn [Routes.uuids Routes.dates Routes.calls]. rewrite Hadd.
  split; [reflexivity|]. cbn [Routes.calls]. split; [by rewrite <- !app_assoc|].
  done.
Qed.

Lemma execute_enqueues_on_least_loaded_container_witness :
  exists winner lookups s',
    Routes.execute SampleBroker.languages SampleBroker.bull
      (Routes.initializeQueues SampleBroker.bull) (SampleBroker.request (js "python"))
      SampleBroker.state
    = (Ret {| Routes.statusCode := 200;
              Routes.body :=
                {| Routes.jr_id := js "u1"; Routes.jr_status := Routes.Queued;
                   Routes.jr_output := None; Routes.jr_error := None;
                   Routes.jr_executionTime := None; Routes.jr_testCases := None;
                   Routes.jr_timestamp := js "2025-01-01T00:00:00.001Z";
                   Routes.jr_message := Some (js "Job queued on " ++ winner);
                   Routes.jr_progress := None |} |}, s')
    /\ Routes.calls s'
       = [] ++ map Routes.GetWaiting lookups
         ++ [Routes.Add winner (js "execute")
               {| Routes.jd_id := js "u1"; Routes.jd_code := js "print(1)";
                  Routes.jd_language := js "python"; Routes.jd_input := [];
                  Routes.jd_testCases := None;
                  Routes.jd_timestamp := js "2025-01-01T00:00:00.000Z" |}
               (Routes.options (js "u1"));
             Routes.ConsoleLog (js "Job " ++ js "u1" ++ js " queued on container "
                                  ++ winner)]
    /\ winner ∈ [js "python-1"; js "python-2"]
    /\ (lookups = [] \/ lookups = [js "python-1"; js "python-2"])
    /\ forall c, c ∈ [js "python-1"; js "python-2"] ->
         (Master.waitingDepth
            (Routes.asObject (Routes.initializeQueues SampleBroker.bull)) winner
          <= Master.waitingDepth
               (Routes.asObject (Routes.initializeQueues SampleBroker.bull)) c)%nat.
Proof.
  apply (execute_enqueues_on_least_loaded_container SampleBroker.languages
           SampleBroker.bull (Routes.initializeQueues SampleBroker.bull)
           (SampleBroker.request (js "python")) SampleBroker.state
           (js "print(1)") (js "python") Sample.pythonConfig
           [js "python-1"; js "python-2"]).
  - reflexivity.
  - discriminate.
  - reflexivity.
  - discriminate.
  - vm_compute. reflexivity.
  - reflexivity.
  - intros c Hc. apply elem_of_cons in Hc as [->|Hc];
      [|apply list_elem_of_singleton in Hc as ->];
      eexists _, _; split; vm_compute; reflexivity.
  - reflexivity.
Defined.

Section JobLookup.

Import Routes.

Lemma search_misses bull (before rest : list (jsstring * Master.Queue)) id s :
  (forall entry, entry ∈ before ->
     getJob bull (Master.queueName entry.2) id = Ret None) ->
  search bull (before ++ rest) id s
  = search bull rest id
      {| uuids := uuids s; dates := dates s;
         calls := calls s ++ map (fun entry => GetJob entry.1 id) before |}.
Proof.
  revert s. induction before as [|[c q] before IH]; intros s Hmiss.
  - cbn. rewrite app_nil_r. by destruct s.
  - cbn [app search]. unfold andThen at 1, call at 1.
    assert (Hq : getJob bull (Master.queueName q) id = Ret None)
      by (apply (Hmiss (c, q)); by left).
    rewrite Hq, IH.
    + unfold called. cbn [uuids dates calls map fst]. by rewrite <- app_assoc.
    + intros entry Hentry. apply Hmiss. by right.
Qed.

End JobLookup.

(** X19. [GET /job/:id] asks the queues in the order of their creation
    and stops at the first that holds the job: the response is built from
    that job, and the queues after it are not asked. *)
Theorem job_lookup_stops_at_first_queue_holding_the_job
    (bull : Routes.Bull) (before after : list (jsstring * Master.Queue))
    (container : jsstring) (queue : Master.Queue) (id state : jsstring)
    (job : Routes.Job) (s : Routes.State) :
  (forall entry, entry ∈ before ->
     Routes.getJob bull (Master.queueName entry.2) id = Ret None) ->
  Routes.getJob bull (Master.queueName queue) id = Ret (Some job) ->
  Routes.getState job = Ret state ->
  Routes.jobStatus bull (before ++ (container, queue) :: after) id s
  = (Ret {| Routes.statusCode := 200;
            Routes.body := Routes.reported id state (hd [] (Routes.dates s)) job |},
     {| Routes.uuids := Routes.uuids s; Routes.dates := tl (Routes.dates s);
        Routes.calls :=
          Routes.calls s ++ map (fun entry => Routes.GetJob entry.1 id) before
          ++ [Routes.GetJob container id; Routes.GetState container id] |}).
Proof.
  intros Hmiss Hjob Hstate.
  unfold Routes.jobStatus, Routes.catching, Routes.andThen at 1.
  rewrite (search_misses _ _ _ _ _ Hmiss). cbn [Routes.search].
  unfold Routes.andThen, Routes.call, Routes.toISOString, Routes.pure, Routes.called.
  rewrite Hjob, Hstate. cbn [Routes.uuids Routes.dates Routes.calls].
  by rewrite <- !app_assoc.
Qed.

Lemma job_lookup_stops_at_first_queue_holding_the_job_witness :
  Routes.jobStatus SampleBroker.bull
    (take 2 (Routes.initializeQueues SampleBroker.bull)
     ++ (js "java-1", {| Master.queueName := js "java-executor-1";
                         Master.getWaiting := Ret [] |})
        :: drop 3 (Routes.initializeQueues SampleBroker.bull))
    (js "job-9") SampleBroker.state
  = (Ret {| Routes.statusCode := 200;
            Routes.body :=
              Routes.reported (js "job-9") (js "completed")
                (js "2025-01-01T00:00:00.000Z") SampleBroker.finished |},
     {| Routes.uuids := [js "u1"]; Routes.dates := [js "2025-01-01T00:00:00.001Z"];
        Routes.calls :=
          [] ++ map (fun entry => Routes.GetJob entry.1 (js "job-9"))
                  (take 2 (Routes.initializeQueues SampleBroker.bull))
          ++ [Routes.GetJob (js "java-1") (js "job-9");
              Routes.GetState (js "java-1") (js "job-9")] |}).
Proof.
  apply (job_lookup_stops_at_first_queue_holding_the_job SampleBroker.bull
           (take 2 (Routes.initializeQueues SampleBroker.bull))
           (drop 3 (Routes.initializeQueues SampleBroker.bull))
           (js "java-1")
           {| Master.queueName := js "java-executor-1"; Master.getWaiting := Ret [] |}
           (js "job-9") (js "completed") SampleBroker.finished SampleBroker.state).
  - intros entry Hentry. cbn in Hentry.
    apply elem_of_cons in Hentry as [->|Hentry];
      [|apply list_elem_of_singleton in Hentry as ->]; reflexivity.
  - reflexivity.
  - reflexivity.
Defined.

(** X20. When no queue holds the job, [GET /job/:id] has asked every
    queue once, in order, and answers 404 with the id and "Job not found";
    when the [getJob] of a queue rejects after the queues before it have
    missed, the queues after it are not asked, the error is logged and the
    answer is 500 with the error's message. *)
Theorem job_lookup_not_found_or_broken
    (bull : Routes.Bull) (codeQueues : list (jsstring * Master.Queue))
    (id : jsstring) (s : Routes.State) :
  ((forall entry, entry ∈ codeQueues ->
      Routes.getJob bull (Master.queueName entry.2) id = Ret None) ->
   Routes.jobStatus bull codeQueues id s
   = (Ret (Routes.failed 404 id (hd [] (Routes.dates s)) (Some (js "Job not found")) None),
      {| Routes.uuids := Routes.uuids s; Routes.dates := tl (Routes.dates s);
         Routes.calls :=
           Routes.calls s ++ map (fun entry => Routes.GetJob entry.1 id) codeQueues |}))
  /\ (forall before container queue after e,
        codeQueues = before ++ (container, queue) :: after ->
        (forall entry, entry ∈ before ->
           Routes.getJob bull (Master.queueName entry.2) id = Ret None) ->
        Routes.getJob bull (Master.queueName queue) id = Throw e ->
        Routes.jobStatus bull codeQueues id s
        = (Ret (Routes.failed 500 id (hd [] (Routes.dates s)) None (Some (messageOf e))),
           {| Routes.uuids := Routes.uuids s; Routes.dates := tl (Routes.dates s);
              Routes.calls :=
                Routes.calls s ++ map (fun entry => Routes.GetJob entry.1 id) before
                ++ [Routes.GetJob container id;
                    Routes.ConsoleError (js "Error fetching job:") e] |})).
Proof.
  split.
  - intros Hmiss. unfold Routes.jobStatus, Routes.catching, Routes.andThen at 1.
    rewrite <- (app_nil_r codeQueues) at 1.
    rewrite (search_misses _ _ _ _ _ Hmiss). reflexivity.
  - intros before container queue after e -> Hmiss Hbroken.
    unfold Routes.jobStatus, Routes.catching, Routes.andThen at 1.
    rewrite (search_misses _ _ _ _ _ Hmiss). cbn [Routes.search].
    unfold Routes.andThen, Routes.call, Routes.toISOString, Routes.pure, Routes.called.
    rewrite Hbroken. cbn [Routes.uuids Routes.dates Routes.calls].
    by rewrite <- !app_assoc.
Qed.

Lemma job_lookup_not_found_or_broken_witness :
  Routes.jobStatus SampleBroker.bull (Routes.initializeQueues SampleBroker.bull)
    (js "job-7") SampleBroker.state
  = (Ret (Routes.failed 404 (js "job-7") (js "2025-01-01T00:00:00.000Z")
            (Some (js "Job not found")) None),
     {| Routes.uuids := [js "u1"]; Routes.dates := [js "2025-01-01T00:00:00.001Z"];
        Routes.calls :=
          [] ++ map (fun entry => Routes.GetJob entry.1 (js "job-7"))
                  (Routes.initializeQueues SampleBroker.bull) |})
  /\ Routes.jobStatus SampleBroker.broken
       (Routes.initializeQueues SampleBroker.broken) (js "job-7") SampleBroker.state
     = (Ret (Routes.failed 500 (js "job-7") (js "2025-01-01T00:00:00.000Z") None
               (Some (messageOf (ErrorObj (js "Connection is closed."))))),
        {| Routes.uuids := [js "u1"]; Routes.dates := [js "2025-01-01T00:00:00.001Z"];
           Routes.calls :=
             [] ++ map (fun entry => Routes.GetJob entry.1 (js "job-7"))
                     (take 2 (Routes.initializeQueues SampleBroker.broken))
             ++ [Routes.GetJob (js "java-1") (js "job-7");
                 Routes.ConsoleError (js "Error fetching job:")
                   (ErrorObj (js "Connection is closed."))] |}).
Proof.
  split.
  - apply (proj1 (job_lookup_not_found_or_broken SampleBroker.bull
                    (Routes.initializeQueues SampleBroker.bull) (js "job-7")
                    SampleBroker.state)).
    intros entry Hentry. cbn in Hentry.
    repeat (apply elem_of_cons in Hentry as [->|Hentry]; [reflexivity|]).
    by apply elem_of_nil in Hentry.
  - apply (proj2 (job_lookup_not_found_or_broken SampleBroker.broken
                    (Routes.initializeQueues SampleBroker.broken) (js "job-7")
                    SampleBroker.state)
             (take 2 (Routes.initializeQueues SampleBroker.broken))
             (js "java-1")
             {| Master.queueName := js "java-executor-1";
                Master.getWaiting := Ret [] |}
             (drop 3 (Routes.initializeQueues SampleBroker.broken))
             (ErrorObj (js "Connection is closed."))).
    + reflexivity.
    + intros entry Hentry. cbn in Hentry.
      apply elem_of_cons in Hentry as [->|Hentry];
        [|apply list_elem_of_singleton in Hentry as ->]; reflexivity.
    + reflexivity.
Defined.

(** X21. The dispatcher and the workers agree on the queues: every
    container that [getContainersForLanguage] returns for a language has a
    queue in [codeQueues]; the worker started with that container as its
    [EXECUTOR_ID] listens on the queue of that very name; and [/load] reports
    the container under that language. Conversely every queue of
    [codeQueues] belongs to a container of the language it is reported under,
    and no two containers share a queue. *)
Theorem containers_queues_and_workers_agree (bull : Routes.Bull) :
  (forall language containers container,
      Master.getContainersForLanguage language = Ret containers ->
      container ∈ containers ->
      exists queue,
        Routes.asObject (Routes.initializeQueues bull) !! container = Some queue
        /\ Worker.getQueueName container = Some (Master.queueName queue)
        /\ Master.getWaiting queue = Routes.waitingOf bull (Master.queueName queue)
        /\ Routes.languageOf container = language)
  /\ (forall container queue,
        (container, queue) ∈ Routes.initializeQueues bull ->
        exists containers,
          Master.getContainersForLanguage (Routes.languageOf container) = Ret containers
          /\ container ∈ containers)
  /\ NoDup (map (fun entry => Master.queueName entry.2) (Routes.initializeQueues bull))
  /\ NoDup (map fst (Routes.initializeQueues bull)).
Proof.
  split; [|split; [|split]].
  - intros language containers container Hroute Hin.
    destruct (containers_cases _ _ Hroute)
      as [[-> ->]|[[-> ->]|[[-> ->]|[[-> ->]|[-> ->]]]]];
      repeat (apply elem_of_cons in Hin as [->|Hin]);
      try (by apply elem_of_nil in Hin);
      eexists; (split; [by vm_compute|]); done.
  - intros container queue Hin. unfold Routes.initializeQueues in Hin.
    cbn [map fst snd] in Hin.
    repeat (apply elem_of_cons in Hin as [[= -> ->]|Hin]);
      try (by apply elem_of_nil in Hin);
      eexists; (split; [by vm_compute|]);
      apply (bool_decide_unpack _); by vm_compute.
  - apply (bool_decide_unpack _). by vm_compute.
  - apply (bool_decide_unpack _). by vm_compute.
Qed.

(** ** The job processors *)

Lemma executeCode_returns languages code language input cases lc w :
  languages !! language = Some lc ->
  exists r w', executeCode languages code language input cases w = (Ret r, w').
Proof.
  intros Hlc. rewrite (executeCode_registered _ _ _ _ _ lc) by done.
  destruct (guarded_returns
              (tryBody lc code input cases (sessionDirOf w) (startTimeOf w))
              (startTimeOf w) (sessionDirOf w) (entered w)) as (r & w' & Hrun & _).
  by exists r, w'.
Qed.

Lemma executeCode_unregistered languages code language input cases w :
  languages !! language = None ->
  executeCode languages code language input cases w
  = (Throw (ErrorObj (js "Unsupported language: " ++ language)),
     {| clock := tl (clock w); uuids := uuids w; fs_script := fs_script w;
        proc_script := proc_script w; log := log w |}).
Proof. intros Hlc. unfold executeCode, bind, now, throw. by rewrite Hlc. Qed.

(** X22. For a job whose language is registered, and a broker that
    takes the two progress reports, the worker's processor fares as
    [executeCode] does. As long as no write to a child's standard input
    fails it returns exactly what [executeCode] returns and never throws: a
    run that failed (compile error, timeout, ...) still completes the job,
    with [status = error] inside the result. When such a write fails the
    process of the worker ends and the job is not completed. *)
Theorem worker_returns_what_executeCode_returns
    (languages : gmap jsstring LanguageConfig) (executorId : jsstring)
    (progress : Z -> outcome unit) (data : Routes.JobData)
    (langConfig : LanguageConfig) (w : World) (breaks : list bool) :
  languages !! Routes.jd_language data = Some langConfig ->
  progress 10 = Ret tt ->
  progress 100 = Ret tt ->
  inProcess breaks (Processor.processJob languages executorId progress data) w
  = inProcess breaks
      (executeCode languages (Routes.jd_code data) (Routes.jd_language data)
         (Routes.jd_input data) (Routes.jd_testCases data)) w
  /\ (brokenPipe
        (spawnedBy
           (executeCode languages (Routes.jd_code data) (Routes.jd_language data)
              (Routes.jd_input data) (Routes.jd_testCases data)) w)
        (proc_script w) breaks = false ->
      exists result w',
        inProcess breaks (Processor.processJob languages executorId progress data) w
        = Some (Ret result, w'))
  /\ (brokenPipe
        (spawnedBy
           (executeCode languages (Routes.jd_code data) (Routes.jd_language data)
              (Routes.jd_input data) (Routes.jd_testCases data)) w)
        (proc_script w) breaks = true ->
      inProcess breaks (Processor.processJob languages executorId progress data) w
      = None).
Proof.
  intros Hlc H10 H100.
  destruct (executeCode_returns languages (Routes.jd_code data)
              (Routes.jd_language data) (Routes.jd_input data)
              (Routes.jd_testCases data) langConfig w Hlc) as (r & w' & Hrun).
  assert (Hjob : Processor.processJob languages executorId progress data w
                 = (Ret r, w')).
  { unfold Processor.processJob, try_catch, bind, Processor.reportProgress.
    by rewrite H10, Hrun, H100. }
  unfold inProcess, spawnedBy. rewrite Hjob, Hrun.
  split; [done|]. split; intros ->; [by exists r, w'|done].
Qed.

Lemma worker_returns_what_executeCode_returns_witness :
  exists result w',
    inProcess [false]
      (Processor.processJob Sample.languages (js "python-1") (fun _ => Ret tt)
         {| Routes.jd_id := js "u1"; Routes.jd_code := js "while True: pass";
            Routes.jd_language := js "python"; Routes.jd_input := js "5";
            Routes.jd_testCases := None;
            Routes.jd_timestamp := js "2025-01-01T00:00:00.000Z" |})
      (Sample.world [] [[TimerFired]])
    = Some (Ret result, w')
    /\ status result = StatusError
    /\ error result = js "Execution timeout".
Proof.
  destruct (worker_returns_what_executeCode_returns Sample.languages (js "python-1")
              (fun _ => Ret tt)
              {| Routes.jd_id := js "u1"; Routes.jd_code := js "while True: pass";
                 Routes.jd_language := js "python"; Routes.jd_input := js "5";
                 Routes.jd_testCases := None;
                 Routes.jd_timestamp := js "2025-01-01T00:00:00.000Z" |}
              Sample.pythonConfig (Sample.world [] [[TimerFired]]) [false])
    as (_ & Halive & _).
  - reflexivity.
  - reflexivity.
  - reflexivity.
  - destruct (Halive eq_refl) as (result & w' & Hrun).
    exists result, w'. split; [exact Hrun|].
    revert Hrun. vm_compute. intros [= <- _]. split; reflexivity.
Defined.

Lemma quoteUnits_plain s :
  forallb Processor.isPlain s = true -> Processor.quoteUnits s = s.
Proof.
  assert (Hunit : forall c, Processor.isPlain c = true ->
            Processor.quoteUnit c = [c] /\ Processor.isLeading c = false).
  { intros c. unfold Processor.isPlain, Processor.quoteUnit.
    intros ((((Hge & Hq)%andb_true_iff & Hb)%andb_true_iff & Hl)%andb_true_iff
            & Ht)%andb_true_iff.
    apply negb_true_iff in Hq, Hb, Hl, Ht. rewrite Hq, Hb, Hl, Ht.
    apply N.leb_le in Hge.
    assert (Hlt : (c <? 32)%N = false) by (apply N.ltb_ge; lia).
    rewrite Hlt. cbn [orb].
    repeat match goal with
           | |- context [(c =? ?k)%N] =>
               replace (c =? k)%N with false by (symmetry; apply N.eqb_neq; lia)
           end.
    done. }
  induction s as [|c s IH]; [done|]. cbn [forallb].
  intros [Hc Hs]%andb_true_iff. destruct (Hunit c Hc) as [Hq Hl].
  cbn [Processor.quoteUnits]. destruct s as [|d s]; [done|].
  rewrite Hl. cbn [andb]. rewrite Hq. cbn [app]. f_equal. by apply IH.
Qed.

(** X23. When the first progress report is rejected, or the job's
    language is not registered, the worker's processor logs the error and
    throws a new [Error] whose message is the JSON text of
    [{output: '', error: <the error's message>, executionTime: 0, status:
    'error'}], the message being copied as it is when it has no quote,
    backslash, control character or surrogate; nothing is written to the file
    system and no child is spawned. *)
Theorem worker_wraps_a_failure_as_json
    (languages : gmap jsstring LanguageConfig) (executorId : jsstring)
    (progress : Z -> outcome unit) (data : Routes.JobData) (e : thrown) (w : World) :
  progress 10 = Throw e
  \/ (progress 10 = Ret tt
      /\ languages !! Routes.jd_language data = None
      /\ e = ErrorObj (js "Unsupported language: " ++ Routes.jd_language data)) ->
  exists w',
    Processor.processJob languages executorId progress data w
    = (Throw (ErrorObj (Processor.JSON_failedResult [] (messageOf e))), w')
    /\ log w'
       = log w ++ [ConsoleError (js "Executor " ++ executorId ++ js ": Job "
                                   ++ Routes.jd_id data ++ js " failed:")]
    /\ fs_script w' = fs_script w /\ proc_script w' = proc_script w
    /\ (forallb Processor.isPlain (messageOf e) = true ->
        Processor.JSON_failedResult [] (messageOf e)
        = js "{" ++ Processor.quote ++ js "output" ++ Processor.quote ++ js ":"
          ++ Processor.quote ++ Processor.quote ++ js ","
          ++ Processor.quote ++ js "error" ++ Processor.quote ++ js ":"
          ++ Processor.quote ++ messageOf e ++ Processor.quote ++ js ","
          ++ Processor.quote ++ js "executionTime" ++ Processor.quote ++ js ":0,"
          ++ Processor.quote ++ js "status" ++ Processor.quote ++ js ":"
          ++ Processor.quote ++ js "error" ++ Processor.quote ++ js "}").
Proof.
  intros Hfail.
  assert (Htext : forallb Processor.isPlain (messageOf e) = true ->
            Processor.JSON_failedResult [] (messageOf e)
            = js "{" ++ Processor.quote ++ js "output" ++ Processor.quote ++ js ":"
              ++ Processor.quote ++ Processor.quote ++ js ","
              ++ Processor.quote ++ js "error" ++ Processor.quote ++ js ":"
              ++ Processor.quote ++ messageOf e ++ Processor.quote ++ js ","
              ++ Processor.quote ++ js "executionTime" ++ Processor.quote ++ js ":0,"
              ++ Processor.quote ++ js "status" ++ Processor.quote ++ js ":"
              ++ Processor.quote ++ js "error" ++ Processor.quote ++ js "}").
  { intros Hplain. unfold Processor.JSON_failedResult, Processor.JSON_string.
    rewrite (quoteUnits_plain _ Hplain).
    change (Processor.quoteUnits (js "output")) with (js "output").
    change (Processor.quoteUnits (js "error")) with (js "error").
    change (Processor.quoteUnits (js "executionTime")) with (js "executionTime").
    change (Processor.quoteUnits (js "status")) with (js "status").
    change (Processor.quoteUnits []) with (@nil N).
    by rewrite <- !app_assoc. }
  destruct Hfail as [H10|(H10 & Hlc & ->)];
    unfold Processor.processJob, try_catch, bind, Processor.reportProgress;
    rewrite H10.
  - eexists. split; [reflexivity|]. done.
  - rewrite (executeCode_unregistered _ _ _ _ _ _ Hlc).
    eexists. split; [reflexivity|]. done.
Qed.

Lemma worker_wraps_a_failure_as_json_witness :
  exists w',
    Processor.processJob Sample.languages (js "go-1") (fun _ => Ret tt)
      {| Routes.jd_id := js "u1"; Routes.jd_code := js "package main";
         Routes.jd_language := js "go"; Routes.jd_input := [];
         Routes.jd_testCases := None;
         Routes.jd_timestamp := js "2025-01-01T00:00:00.000Z" |}
      (Sample.world [] [])
    = (Throw (ErrorObj (Processor.JSON_failedResult []
                          (messageOf (ErrorObj (js "Unsupported language: " ++ js "go"))))),
       w')
    /\ log w'
       = [] ++ [ConsoleError (js "Executor " ++ js "go-1" ++ js ": Job "
                                ++ js "u1" ++ js " failed:")]
    /\ fs_script w' = [] /\ proc_script w' = []
    /\ (forallb Processor.isPlain
          (messageOf (ErrorObj (js "Unsupported language: " ++ js "go"))) = true ->
        Processor.JSON_failedResult []
          (messageOf (ErrorObj (js "Unsupported language: " ++ js "go")))
        = js "{" ++ Processor.quote ++ js "output" ++ Processor.quote ++ js ":"
          ++ Processor.quote ++ Processor.quote ++ js ","
          ++ Processor.quote ++ js "error" ++ Processor.quote ++ js ":"
          ++ Processor.quote
          ++ messageOf (ErrorObj (js "Unsupported language: " ++ js "go"))
          ++ Processor.quote ++ js ","
          ++ Processor.quote ++ js "executionTime" ++ Processor.quote ++ js ":0,"
          ++ Processor.quote ++ js "status" ++ Processor.quote ++ js ":"
          ++ Processor.quote ++ js "error" ++ Processor.quote ++ js "}").
Proof.
  apply (worker_wraps_a_failure_as_json Sample.languages (js "go-1") (fun _ => Ret tt)
           {| Routes.jd_id := js "u1"; Routes.jd_code := js "package main";
              Routes.jd_language := js "go"; Routes.jd_input := [];
              Routes.jd_testCases := None;
              Routes.jd_timestamp := js "2025-01-01T00:00:00.000Z" |}
           (ErrorObj (js "Unsupported language: " ++ js "go")) (Sample.world [] [])).
  right. split; [reflexivity|]. split; [|reflexivity]. vm_compute. reflexivity.
Defined.

(** X24. For a job whose language is registered, when Redis takes the
    write, the server's processor returns and has written one entry, under
    [result:<id>] with an expiry of 3600 seconds, whose status is
    [completed] whatever the status of the run: the run's [output] and
    [error] are stored, its [status] is not. *)
Theorem server_stores_completed_whatever_the_run_status
    (languages : gmap jsstring LanguageConfig) (data : Routes.JobData)
    (langConfig : LanguageConfig) (sv : Processor.Server) :
  languages !! Routes.jd_language data = Some langConfig ->
  hd (Ret tt) (Processor.redis sv) = Ret tt ->
  exists result w',
    executeCode languages (Routes.jd_code data) (Routes.jd_language data)
      (Routes.jd_input data) (Routes.jd_testCases data) (Processor.world sv)
    = (Ret result, w')
    /\ Processor.processStored languages data sv
       = (Ret tt,
          {| Processor.world := w';
             Processor.redis := tl (Processor.redis sv);
             Processor.dates := tl (Processor.dates sv);
             Processor.written :=
               Processor.written sv
               ++ [{| Processor.key := js "result:" ++ Routes.jd_id data;
                      Processor.seconds := 3600;
                      Processor.value :=
                        {| Routes.jr_id := Routes.jd_id data;
                           Routes.jr_status := Routes.Completed;
                           Routes.jr_output := Some (output result);
                           Routes.jr_error := Some (error result);
                           Routes.jr_executionTime := Some (executionTime result);
                           Routes.jr_testCases := testCases result;
                           Routes.jr_timestamp := hd [] (Processor.dates sv);
                           Routes.jr_message := None;
                           Routes.jr_progress := None |} |}] |}).
Proof.
  intros Hlc Hredis.
  destruct (executeCode_returns languages (Routes.jd_code data)
              (Routes.jd_language data) (Routes.jd_input data)
              (Routes.jd_testCases data) langConfig (Processor.world sv) Hlc)
    as (r & w' & Hrun).
  exists r, w'. split; [done|].
  unfold Processor.processStored. rewrite Hrun. unfold Processor.store.
  cbn [Processor.redis Processor.world Processor.dates Processor.written].
  by destruct (Processor.redis sv) as [|[[]|] ?]; cbn in Hredis |- *.
Qed.

Lemma server_stores_completed_whatever_the_run_status_witness :
  exists result w',
    executeCode Sample.languages (js "while True: pass") (js "python") [] None
      (Sample.world [] [[TimerFired]]) = (Ret result, w')
    /\ Processor.processStored Sample.languages
         {| Routes.jd_id := js "u1"; Routes.jd_code := js "while True: pass";
            Routes.jd_language := js "python"; Routes.jd_input := [];
            Routes.jd_testCases := None;
            Routes.jd_timestamp := js "2025-01-01T00:00:00.000Z" |}
         {| Processor.world := Sample.world [] [[TimerFired]];
            Processor.redis := []; Processor.dates := [js "2025-01-01T00:00:01.000Z"];
            Processor.written := [] |}
       = (Ret tt,
          {| Processor.world := w'; Processor.redis := []; Processor.dates := [];
             Processor.written :=
               [] ++ [{| Processor.key := js "result:" ++ js "u1";
                         Processor.seconds := 3600;
                         Processor.value :=
                           {| Routes.jr_id := js "u1";
                              Routes.jr_status := Routes.Completed;
                              Routes.jr_output := Some (output result);
                              Routes.jr_error := Some (error result);
                              Routes.jr_executionTime := Some (executionTime result);
                              Routes.jr_testCases := testCases result;
                              Routes.jr_timestamp := js "2025-01-01T00:00:01.000Z";
                              Routes.jr_message := None;
                              Routes.jr_progress := None |} |}] |}).
Proof.
  apply (server_stores_completed_whatever_the_run_status Sample.languages
           {| Routes.jd_id := js "u1"; Routes.jd_code := js "while True: pass";
              Routes.jd_language := js "python"; Routes.jd_input := [];
              Routes.jd_testCases := None;
              Routes.jd_timestamp := js "2025-01-01T00:00:00.000Z" |}
           Sample.pythonConfig
           {| Processor.world := Sample.world [] [[TimerFired]];
              Processor.redis := []; Processor.dates := [js "2025-01-01T00:00:01.000Z"];
              Processor.written := [] |}).
  - reflexivity.
  - reflexivity.
Defined.

(** X25. For a job whose language is not registered, the server's
    processor writes one entry with status [failed] and the message
    "Unsupported language: ...", and throws: the error of [executeCode]
    itself when Redis took the write, the error of Redis otherwise. *)
Theorem server_stores_failed_for_unregistered_language
    (languages : gmap jsstring LanguageConfig) (data : Routes.JobData)
    (sv : Processor.Server) :
  languages !! Routes.jd_language data = None ->
  exists sv',
    Processor.processStored languages data sv
    = (Throw match hd (Ret tt) (Processor.redis sv) with
             | Ret _ => ErrorObj (js "Unsupported language: " ++ Routes.jd_language data)
             | Throw e => e
             end, sv')
    /\ Processor.written sv'
       = Processor.written sv
         ++ [{| Processor.key := js "result:" ++ Routes.jd_id data;
                Processor.seconds := 3600;
                Processor.value :=
                  {| Routes.jr_id := Routes.jd_id data;
                     Routes.jr_status := Routes.Failed;
                     Routes.jr_output := None;
                     Routes.jr_error :=
                       Some (js "Unsupported language: " ++ Routes.jd_language data);
                     Routes.jr_executionTime := None;
                     Routes.jr_testCases := None;
                     Routes.jr_timestamp := hd [] (Processor.dates sv);
                     Routes.jr_message := None;
                     Routes.jr_progress := None |} |}]
    /\ fs_script (Processor.world sv') = fs_script (Processor.world sv)
    /\ proc_script (Processor.world sv') = proc_script (Processor.world sv).
Proof.
  intros Hlc. unfold Processor.processStored.
  rewrite (executeCode_unregistered _ _ _ _ _ _ Hlc). unfold Processor.store.
  cbn [Processor.redis Processor.world Processor.dates Processor.written].
  destruct (Processor.redis sv) as [|[[]|] ?]; cbn; eexists; split; reflexivity || done.
Qed.

Lemma server_stores_failed_for_unregistered_language_witness :
  exists sv',
    Processor.processStored Sample.languages
      {| Routes.jd_id := js "u1"; Routes.jd_code := js "package main";
         Routes.jd_language := js "go"; Routes.jd_input := [];
         Routes.jd_testCases := None;
         Routes.jd_timestamp := js "2025-01-01T00:00:00.000Z" |}
      {| Processor.world := Sample.world [] [];
         Processor.redis := []; Processor.dates := [js "2025-01-01T00:00:01.000Z"];
         Processor.written := [] |}
    = (Throw (ErrorObj (js "Unsupported language: " ++ js "go")), sv')
    /\ Processor.written sv'
       = [] ++ [{| Processor.key := js "result:" ++ js "u1";
                   Processor.seconds := 3600;
                   Processor.value :=
                     {| Routes.jr_id := js "u1";
                        Routes.jr_status := Routes.Failed;
                        Routes.jr_output := None;
                        Routes.jr_error := Some (js "Unsupported language: " ++ js "go");
                        Routes.jr_executionTime := None;
                        Routes.jr_testCases := None;
                        Routes.jr_timestamp := js "2025-01-01T00:00:01.000Z";
                        Routes.jr_message := None;
                        Routes.jr_progress := None |} |}]
    /\ fs_script (Processor.world sv') = []
    /\ proc_script (Processor.world sv') = [].
Proof.
  apply (server_stores_failed_for_unregistered_language Sample.languages
           {| Routes.jd_id := js "u1"; Routes.jd_code := js "package main";
              Routes.jd_language := js "go"; Routes.jd_input := [];
              Routes.jd_testCases := None;
              Routes.jd_timestamp := js "2025-01-01T00:00:00.000Z" |}
           {| Processor.world := Sample.world [] [];
              Processor.redis := []; Processor.dates := [js "2025-01-01T00:00:01.000Z"];
              Processor.written := [] |}).
  vm_compute. reflexivity.
Defined.

(** ** [/load] and [/health] *)

Section Monitoring.

Import Routes.

Implicit Types (s : State) (bull : Bull).

Lemma gather_listed bull entries infos acc s :
  Forall2 (listed bull) entries infos ->
  gather bull entries acc s
  = (Ret (acc ++ infos),
     {| uuids := uuids s; dates := dates s;
        calls := calls s ++ flat_map loadCalls entries |}).
Proof.
  intros Hall. revert acc s.
  induction Hall as [|[c q] info entries infos Hone Hall IH]; intros acc s.
  - cbn. rewrite !app_nil_r. by destruct s.
  - destruct Hone as (wl & al & cl & fl & Hw & Ha & Hc & Hf & ->).
    cbn [fst snd] in *. cbn [gather].
    unfold andThen at 1, call at 1. rewrite Hw.
    unfold andThen at 1, call at 1. rewrite Ha.
    unfold andThen at 1, call at 1. rewrite Hc.
    unfold andThen at 1, call at 1. rewrite Hf.
    rewrite IH. unfold called, loadCalls.
    cbn [uuids dates calls flat_map fst app]. by rewrite <- !app_assoc.
Qed.

Lemma gather_unlisted bull entry rest acc s e k :
  unlisted bull entry e k ->
  gather bull (entry :: rest) acc s
  = (Throw e,
     {| uuids := uuids s; dates := dates s;
        calls := calls s ++ take (S k) (loadCalls entry) |}).
Proof.
  destruct entry as [c q]. cbn [gather]. unfold unlisted. cbn [fst snd].
  intros [(-> & Hw)|[(-> & [wl Hw] & Ha)|[(-> & [wl Hw] & [al Ha] & Hc)
                    |(-> & [wl Hw] & [al Ha] & [cl Hc] & Hf)]]];
    unfold andThen, call, called, loadCalls;
    rewrite ?Hw, ?Ha, ?Hc, ?Hf; cbn [uuids dates calls take fst];
    by rewrite <- ?app_assoc.
Qed.

Lemma gather_app bull before rest acc acc' s s' :
  gather bull before acc s = (Ret acc', s') ->
  gather bull (before ++ rest) acc s = gather bull rest acc' s'.
Proof.
  revert acc s. induction before as [|[c q] before IH]; intros acc s.
  - by intros [= -> ->].
  - cbn [app gather]. unfold andThen, call.
    destruct (Master.getWaiting q) as [wl|e]; [|done].
    destruct (activeOf bull _) as [al|e]; [|done].
    destruct (completedOf bull _) as [cl|e]; [|done].
    destruct (failedOf bull _) as [fl|e]; [|done].
    apply IH.
Qed.

Lemma fold_left_sum {A} (f : A -> nat) (l : list A) (n : nat) :
  fold_left (fun sum c => (sum + f c)%nat) l n = (n + sum_list (map f l))%nat.
Proof.
  revert n. induction l as [|a l IH]; intros n; cbn; [lia|]. rewrite IH. lia.
Qed.

Lemma all_queueStatus bull entries s :
  all (queueStatus bull) entries s
  = (Ret (map (fun entry => (entry.1, healthOf bull entry)) entries),
     {| uuids := uuids s; dates := dates s;
        calls := calls s ++ map (fun entry => IsReady entry.1) entries |}).
Proof.
  revert s. induction entries as [|entry entries IH]; intros s.
  - cbn. rewrite app_nil_r. by destruct s.
  - cbn [all map]. unfold andThen at 1, queueStatus at 1, catching, andThen at 1,
      call at 1, healthOf.
    destruct (isReady bull _) as [[]|e]; unfold pure at 1;
      unfold andThen at 1; rewrite IH; unfold pure, called;
      cbn [uuids dates calls]; by rewrite <- app_assoc.
Qed.

Lemma spread_fresh acc name value :
  name ∉ map fst acc -> spread acc name value = acc ++ [(name, value)].
Proof.
  induction acc as [|[k v] acc IH]; cbn [spread map fst app]; [done|].
  intros Hnot. apply not_elem_of_cons in Hnot as [Hne Hnot].
  unfold jseqb. rewrite bool_decide_eq_false_2 by done. by rewrite IH.
Qed.

Lemma spread_all (statuses acc : list (jsstring * jsstring)) :
  NoDup (map fst (acc ++ statuses)) ->
  fold_left (fun acc status => spread acc status.1 status.2) statuses acc
  = acc ++ statuses.
Proof.
  revert acc. induction statuses as [|[k v] statuses IH]; intros acc Hnodup.
  - by rewrite app_nil_r.
  - cbn [fold_left fst snd]. rewrite spread_fresh.
    + rewrite IH; [by rewrite <- app_assoc|]. by rewrite <- app_assoc.
    + rewrite map_app in Hnodup. apply NoDup_app in Hnodup as (_ & Hdisj & _).
      intros Hin. apply (Hdisj k Hin). by left.
Qed.

Lemma forallb_mapped {A B} (f : B -> bool) (g : A -> B) (l : list A) :
  forallb f (map g l) = forallb (fun a => f (g a)) l.
Proof. induction l as [|a l IH]; cbn; by rewrite ?IH. Qed.

End Monitoring.

(** X26. [GET /load] reports every queue or nothing: when the broker
    gives the four lists of every queue, the 200 answer has one entry per
    queue, in the order of [codeQueues], and the totals are the sums over
    them; when a call rejects, the queues after it are not asked, and the 500
    answer carries the error's message, no entry (those gathered before are
    dropped) and zero totals. *)
Theorem load_reports_every_queue_or_nothing
    (bull : Routes.Bull) (before : list (jsstring * Master.Queue))
    (infos : list Routes.ContainerLoadInfo) (s : Routes.State) :
  Forall2 (Routes.listed bull) before infos ->
  Routes.load bull before s
  = (Ret (200,
          {| Routes.l_timestamp := hd [] (Routes.dates s); Routes.l_error := None;
             Routes.l_containers := infos;
             Routes.l_totalWaiting := sum_list (map Routes.cl_waiting infos);
             Routes.l_totalActive := sum_list (map Routes.cl_active infos) |}),
     {| Routes.uuids := Routes.uuids s; Routes.dates := tl (Routes.dates s);
        Routes.calls := Routes.calls s ++ flat_map Routes.loadCalls before |})
  /\ forall entry after e k,
       Routes.unlisted bull entry e k ->
       Routes.load bull (before ++ entry :: after) s
       = (Ret (500,
               {| Routes.l_timestamp := hd [] (Routes.dates s);
                  Routes.l_error := Some (messageOf e);
                  Routes.l_containers := []; Routes.l_totalWaiting := 0;
                  Routes.l_totalActive := 0 |}),
          {| Routes.uuids := Routes.uuids s; Routes.dates := tl (Routes.dates s);
             Routes.calls :=
               Routes.calls s ++ flat_map Routes.loadCalls before
               ++ take (S k) (Routes.loadCalls entry) |}).
Proof.
  intros Hall. pose proof (gather_listed bull before infos [] s Hall) as Hgather.
  split.
  - unfold Routes.load, Routes.catching, Routes.andThen at 1. rewrite Hgather.
    unfold Routes.andThen, Routes.toISOString, Routes.pure.
    cbn [Routes.uuids Routes.dates Routes.calls app]. by rewrite !fold_left_sum.
  - intros entry after e k Hbad.
    unfold Routes.load, Routes.catching, Routes.andThen at 1.
    rewrite (gather_app _ _ _ _ _ _ _ Hgather), (gather_unlisted _ _ _ _ _ _ _ Hbad).
    unfold Routes.andThen, Routes.toISOString, Routes.pure.
    cbn [Routes.uuids Routes.dates Routes.calls]. by rewrite <- app_assoc.
Qed.

Lemma load_reports_every_queue_or_nothing_witness :
  Routes.load SampleBroker.broken (take 2 (Routes.initializeQueues SampleBroker.broken))
    SampleBroker.state
  = (Ret (200,
          {| Routes.l_timestamp := js "2025-01-01T00:00:00.000Z";
             Routes.l_error := None;
             Routes.l_containers :=
               [Routes.loadInfo (js "python-1") [js "job-1"; js "job-2"] [js "job-0"] [] [];
                Routes.loadInfo (js "python-2") [js "job-3"] [] [] []];
             Routes.l_totalWaiting :=
               sum_list (map Routes.cl_waiting
                 [Routes.loadInfo (js "python-1") [js "job-1"; js "job-2"] [js "job-0"] [] [];
                  Routes.loadInfo (js "python-2") [js "job-3"] [] [] []]);
             Routes.l_totalActive :=
               sum_list (map Routes.cl_active
                 [Routes.loadInfo (js "python-1") [js "job-1"; js "job-2"] [js "job-0"] [] [];
                  Routes.loadInfo (js "python-2") [js "job-3"] [] [] []]) |}),
     {| Routes.uuids := [js "u1"]; Routes.dates := [js "2025-01-01T00:00:00.001Z"];
        Routes.calls :=
          [] ++ flat_map Routes.loadCalls
                  (take 2 (Routes.initializeQueues SampleBroker.broken)) |})
  /\ Routes.load SampleBroker.broken
       (take 2 (Routes.initializeQueues SampleBroker.broken)
        ++ (js "java-1", {| Master.queueName := js "java-executor-1";
                            Master.getWaiting := Ret [] |})
           :: drop 3 (Routes.initializeQueues SampleBroker.broken))
       SampleBroker.state
     = (Ret (500,
             {| Routes.l_timestamp := js "2025-01-01T00:00:00.000Z";
                Routes.l_error := Some (messageOf (ErrorObj (js "Connection is closed.")));
                Routes.l_containers := []; Routes.l_totalWaiting := 0;
                Routes.l_totalActive := 0 |}),
        {| Routes.uuids := [js "u1"]; Routes.dates := [js "2025-01-01T00:00:00.001Z"];
           Routes.calls :=
             [] ++ flat_map Routes.loadCalls
                     (take 2 (Routes.initializeQueues SampleBroker.broken))
             ++ take 3 (Routes.loadCalls
                          (js "java-1", {| Master.queueName := js "java-executor-1";
                                           Master.getWaiting := Ret [] |})) |}).
Proof.
  pose proof (load_reports_every_queue_or_nothing SampleBroker.broken
                (take 2 (Routes.initializeQueues SampleBroker.broken))
                [Routes.loadInfo (js "python-1") [js "job-1"; js "job-2"] [js "job-0"] [] [];
                 Routes.loadInfo (js "python-2") [js "job-3"] [] [] []]
                SampleBroker.state) as H.
  destruct H as [Hok Hbad].
  - repeat constructor; eexists _, _, _, _; repeat split; reflexivity.
  - split; [exact Hok|].
    apply (Hbad (js "java-1", {| Master.queueName := js "java-executor-1";
                                Master.getWaiting := Ret [] |})
             (drop 3 (Routes.initializeQueues SampleBroker.broken))
             (ErrorObj (js "Connection is closed.")) 2%nat).
    right. right. left. split; [done|]. split; [by eexists|]. split; [by eexists|].
    reflexivity.
Defined.

(** X27. [GET /health] answers 503 'unhealthy' only when the Redis
    [ping] rejects, and then asks no queue. Otherwise it asks every queue
    once and answers 200: with status 'healthy' when every [isReady]
    resolved and 'degraded' when one rejected, and with one entry per queue,
    in order, saying which. *)
Theorem health_is_degraded_not_unhealthy_when_a_queue_is_down
    (ping : outcome unit) (bull : Routes.Bull)
    (codeQueues : list (jsstring * Master.Queue)) (s : Routes.State) :
  NoDup (map fst codeQueues) ->
  Routes.health ping bull codeQueues s
  = match ping with
    | Ret _ =>
        (Ret (200,
              {| Routes.h_status :=
                   if forallb (fun entry =>
                                 jseqb (Routes.healthOf bull entry) (js "healthy"))
                        codeQueues
                   then js "healthy" else js "degraded";
                 Routes.h_timestamp := hd [] (Routes.dates s);
                 Routes.h_redis := js "connected";
                 Routes.h_queues :=
                   map (fun entry => (entry.1, Routes.healthOf bull entry)) codeQueues;
                 Routes.h_error := None |}),
         {| Routes.uuids := Routes.uuids s; Routes.dates := tl (Routes.dates s);
            Routes.calls :=
              Routes.calls s
              ++ Routes.Ping :: map (fun entry => Routes.IsReady entry.1) codeQueues |})
    | Throw e =>
        (Ret (503,
              {| Routes.h_status := js "unhealthy";
                 Routes.h_timestamp := hd [] (Routes.dates s);
                 Routes.h_redis := js "disconnected"; Routes.h_queues := [];
                 Routes.h_error := Some (messageOf e) |}),
         {| Routes.uuids := Routes.uuids s; Routes.dates := tl (Routes.dates s);
            Routes.calls := Routes.calls s ++ [Routes.Ping] |})
    end.
Proof.
  intros Hnodup. unfold Routes.health, Routes.catching, Routes.andThen at 1,
    Routes.call at 1.
  destruct ping as [[]|e]; [|done].
  unfold Routes.andThen at 1. rewrite all_queueStatus.
  unfold Routes.andThen, Routes.toISOString, Routes.pure, Routes.called.
  cbn [Routes.uuids Routes.dates Routes.calls].
  rewrite spread_all.
  - rewrite forallb_mapped. cbn [snd app]. by rewrite <- app_assoc.
  - cbn [app]. rewrite map_map. cbn [fst]. done.
Qed.

Lemma health_is_degraded_not_unhealthy_when_a_queue_is_down_witness :
  Routes.health (Ret tt) SampleBroker.broken
    (Routes.initializeQueues SampleBroker.broken) SampleBroker.state
  = (Ret (200,
          {| Routes.h_status := js "degraded";
             Routes.h_timestamp := js "2025-01-01T00:00:00.000Z";
             Routes.h_redis := js "connected";
             Routes.h_queues :=
               [(js "python-1", js "healthy"); (js "python-2", js "healthy");
                (js "java-1", js "unhealthy"); (js "java-2", js "healthy");
                (js "javascript-1", js "healthy"); (js "cpp-1", js "healthy");
                (js "go-1", js "healthy")];
             Routes.h_error := None |}),
     {| Routes.uuids := [js "u1"]; Routes.dates := [js "2025-01-01T00:00:00.001Z"];
        Routes.calls :=
          [Routes.Ping; Routes.IsReady (js "python-1"); Routes.IsReady (js "python-2");
           Routes.IsReady (js "java-1"); Routes.IsReady (js "java-2");
           Routes.IsReady (js "javascript-1"); Routes.IsReady (js "cpp-1");
           Routes.IsReady (js "go-1")] |}).
Proof.
  exact (health_is_degraded_not_unhealthy_when_a_queue_is_down (Ret tt)
           SampleBroker.broken (Routes.initializeQueues SampleBroker.broken)
           SampleBroker.state
           (bool_decide_unpack _ (I : Is_true (bool_decide
              (NoDup (map fst (Routes.initializeQueues SampleBroker.broken))))))).
Defined.

(** ** What is copied *)

Section Copies.

Implicit Types (w : World) (entries : list dirent).

Lemma perform_ok c w :
  Forall isOk (fs_script w) ->
  exists es, perform c w = (Ret es, answered c w)
    /\ Forall isOk (fs_script (answered c w)).
Proof.
  intros Hok. rewrite perform_eq. cbn [answered fs_script].
  destruct (fs_script w) as [|ans rest]; [by exists []|].
  apply Forall_cons in Hok as [[es ->] Hrest]. by exists es.
Qed.

Lemma perform_empty c w :
  Forall (fun a => a = FsOk []) (fs_script w) ->
  perform c w = (Ret [], answered c w)
  /\ Forall (fun a => a = FsOk []) (fs_script (answered c w)).
Proof.
  intros Hok. rewrite perform_eq. cbn [answered fs_script].
  destruct (fs_script w) as [|ans rest]; [done|].
  by apply Forall_cons in Hok as [-> Hrest].
Qed.

Lemma ensureDir_swallowed dir w :
  try_catch (ensureDir dir) (fun _ => ret tt) w = (Ret tt, answered (Mkdir dir) w).
Proof.
  unfold try_catch, ensureDir, bind. rewrite perform_eq.
  by destruct (fs_script w) as [|[|] ?].
Qed.

Lemma ensureDir_ok dir w :
  Forall isOk (fs_script w) ->
  ensureDir dir w = (Ret tt, answered (Mkdir dir) w)
  /\ Forall isOk (fs_script (answered (Mkdir dir) w)).
Proof.
  intros Hok. unfold ensureDir, bind.
  by destruct (perform_ok (Mkdir dir) w Hok) as (es & -> & Hok1).
Qed.

Lemma copyFile_ok src dest w :
  Forall isOk (fs_script w) ->
  exists w',
    copyFile src dest w = (Ret tt, w')
    /\ log w' = log w ++ [Mkdir (dirname dest); CopyFile src dest]
    /\ Forall isOk (fs_script w').
Proof.
  intros Hok. unfold copyFile, ensureDir, bind.
  destruct (perform_ok (Mkdir (dirname dest)) w Hok) as (es & -> & Hok1).
  cbn [ret]. destruct (perform_ok (CopyFile src dest) _ Hok1) as (es' & -> & Hok2).
  eexists. split; [reflexivity|]. cbn [answered log]. by rewrite <- app_assoc.
Qed.

Lemma forEach_classes src dest entries w :
  Forall isOk (fs_script w) ->
  exists w',
    forEach entries (fun entry =>
      if endsWith (d_name entry) (js ".class")
      then copyFile (path_join src (d_name entry)) (path_join dest (d_name entry))
      else ret tt) w = (Ret tt, w')
    /\ log w'
       = log w
         ++ flat_map (copyCalls src dest)
              (List.filter (fun entry => endsWith (d_name entry) (js ".class")) entries).
Proof.
  revert w. induction entries as [|entry entries IH]; intros w Hok.
  - exists w. cbn. by rewrite app_nil_r.
  - cbn [forEach List.filter]. unfold bind at 1.
    destruct (endsWith (d_name entry) (js ".class")).
    + destruct (copyFile_ok (path_join src (d_name entry))
                  (path_join dest (d_name entry)) w Hok) as (w1 & -> & Hlog & Hok1).
      destruct (IH w1 Hok1) as (w' & -> & Hlog'). exists w'. split; [done|].
      rewrite Hlog', Hlog. cbn [flat_map copyCalls app]. by rewrite <- app_assoc.
    + cbn [ret]. destruct (IH w Hok) as (w' & -> & Hlog'). by exists w'.
Qed.

Lemma forEach_level fuel src dest entries w :
  Forall (fun a => a = FsOk []) (fs_script w) ->
  exists w',
    forEach entries (fun entry =>
      let srcPath := path_join src (d_name entry) in
      let destPath := path_join dest (d_name entry) in
      if isDirectory entry then copyDirFuel (S fuel) srcPath destPath
      else if isFile entry then copyFile srcPath destPath
      else ret tt) w = (Ret tt, w')
    /\ log w' = log w ++ flat_map (entryCalls src dest) entries.
Proof.
  set (f := fun entry : dirent => _). revert w.
  induction entries as [|entry entries IH]; intros w Hok.
  - exists w. cbn. by rewrite app_nil_r.
  - cbn [forEach flat_map]. unfold bind at 1, f at 1, entryCalls at 1. cbv zeta.
    destruct (isDirectory entry); [|destruct (isFile entry)].
    + cbn [copyDirFuel]. unfold ensureDir, bind.
      destruct (perform_empty (Mkdir (path_join dest (d_name entry))) w Hok)
        as [-> Hok1]. cbn [ret].
      destruct (perform_empty (Readdir (path_join src (d_name entry))) _ Hok1)
        as [-> Hok2]. cbn [forEach ret].
      destruct (IH _ Hok2) as (w' & -> & Hlog'). exists w'. split; [done|].
      rewrite Hlog'. cbn [answered log app]. by rewrite <- !app_assoc.
    + unfold copyFile, ensureDir, bind.
      destruct (perform_empty
                  (Mkdir (dirname (path_join dest (d_name entry)))) w Hok)
        as [-> Hok1]. cbn [ret].
      destruct (perform_empty
                  (CopyFile (path_join src (d_name entry))
                     (path_join dest (d_name entry))) _ Hok1) as [-> Hok2].
      cbn [ret].
      destruct (IH _ Hok2) as (w' & -> & Hlog'). exists w'. split; [done|].
      rewrite Hlog'. unfold copyCalls. cbn [answered log app].
      by rewrite <- !app_assoc.
    + cbn [ret]. destruct (IH w Hok) as (w' & -> & Hlog'). exists w'.
      split; [done|]. by rewrite Hlog'.
Qed.

End Copies.

(** X28. For java, after a successful compilation and with a file
    system that takes every call after the listing of the workspace, the
    cache receives the [.class] files of the workspace, each by one
    [copyFile], in the order of the listing, and nothing else: the source
    file is not cached. A failure to create the cache directory beforehand
    changes nothing. *)
Theorem java_cache_receives_class_files_only
    (langConfig : LanguageConfig) (langCacheDir sessionDir : jsstring) (w : World)
    (first : fs_answer) (entries : list dirent) (rest : list fs_answer) :
  name langConfig = js "java" ->
  fs_script w = first :: FsOk entries :: rest ->
  Forall isOk rest ->
  exists w',
    cacheSave langConfig langCacheDir sessionDir w = (Ret tt, w')
    /\ log w'
       = log w
         ++ [Mkdir langCacheDir; Readdir sessionDir; Mkdir langCacheDir]
         ++ flat_map (copyCalls sessionDir langCacheDir)
              (List.filter (fun entry => endsWith (d_name entry) (js ".class"))
                 entries).
Proof.
  intros Hname Hfs Hrest. unfold cacheSave. rewrite Hname.
  change (jseqb (js "java") (js "cpp")) with false.
  change (jseqb (js "java") (js "java")) with true. cbv iota.
  rewrite (bind_ret _ _ _ _ _ (ensureDir_swallowed langCacheDir w)).
  set (w1 := answered (Mkdir langCacheDir) w).
  assert (Hlist : perform (Readdir sessionDir) w1
                  = (Ret entries, answered (Readdir sessionDir) w1)).
  { rewrite perform_eq. unfold w1. cbn [answered fs_script]. by rewrite Hfs. }
  set (w2 := answered (Readdir sessionDir) w1) in *.
  assert (Hok2 : Forall isOk (fs_script w2)).
  { unfold w2, w1. cbn [answered fs_script]. by rewrite Hfs. }
  destruct (ensureDir_ok langCacheDir w2 Hok2) as [Hdir Hok3].
  destruct (forEach_classes sessionDir langCacheDir entries _ Hok3)
    as (w' & Hcopies & Hlog').
  exists w'. split.
  - unfold try_catch.
    by rewrite (bind_ret _ _ _ _ _ Hlist), (bind_ret _ _ _ _ _ Hdir), Hcopies.
  - rewrite Hlog'. unfold w2, w1. cbn [answered log]. by rewrite <- !app_assoc.
Qed.

Lemma java_cache_receives_class_files_only_witness :
  exists w',
    cacheSave
      {| name := js "java"; displayName := js "Java"; extension := js ".java";
         command := js "java"; args := [js "Main"]; timeout := 5000;
         compile := None; filename := Some (js "Main.java") |}
      (js "/tmp/sentinel-cache/java/k") (js "/tmp/code-execution/s1")
      (Sample.world
         [Sample.enoent;
          FsOk [{| d_name := js "Main.java"; isDirectory := false; isFile := true |};
                {| d_name := js "Main.class"; isDirectory := false; isFile := true |}]]
         [])
    = (Ret tt, w')
    /\ log w'
       = [] ++ [Mkdir (js "/tmp/sentinel-cache/java/k");
                Readdir (js "/tmp/code-execution/s1");
                Mkdir (js "/tmp/sentinel-cache/java/k")]
         ++ flat_map (copyCalls (js "/tmp/code-execution/s1")
                        (js "/tmp/sentinel-cache/java/k"))
              [{| d_name := js "Main.class"; isDirectory := false; isFile := true |}].
Proof.
  apply (java_cache_receives_class_files_only
           {| name := js "java"; displayName := js "Java"; extension := js ".java";
              command := js "java"; args := [js "Main"]; timeout := 5000;
              compile := None; filename := Some (js "Main.java") |}
           (js "/tmp/sentinel-cache/java/k") (js "/tmp/code-execution/s1")
           (Sample.world
              [Sample.enoent;
               FsOk [{| d_name := js "Main.java"; isDirectory := false; isFile := true |};
                     {| d_name := js "Main.class"; isDirectory := false; isFile := true |}]]
              [])
           Sample.enoent
           [{| d_name := js "Main.java"; isDirectory := false; isFile := true |};
            {| d_name := js "Main.class"; isDirectory := false; isFile := true |}] []).
  - reflexivity.
  - reflexivity.
  - constructor.
Defined.

(** X29. [copyDir] on a directory whose subdirectories are empty, with
    a file system that takes every call: it creates the destination, lists
    the source, and then goes through the entries in order, creating and
    listing each subdirectory and copying each regular file by [copyFile];
    an entry that is neither (a symbolic link, a socket) is skipped. *)
Theorem copyDir_copies_one_level
    (srcDir destDir : jsstring) (w : World) (made entries : list dirent)
    (rest : list fs_answer) :
  fs_script w = FsOk made :: FsOk entries :: rest ->
  Forall (fun a => a = FsOk []) rest ->
  exists w',
    copyDir srcDir destDir w = (Ret tt, w')
    /\ log w'
       = log w ++ [Mkdir destDir; Readdir srcDir]
         ++ flat_map (entryCalls srcDir destDir) entries.
Proof.
  intros Hfs Hrest. unfold copyDir. rewrite Hfs.
  cbn [length copyDirFuel]. unfold ensureDir, bind.
  rewrite perform_eq, Hfs. cbn [ret].
  rewrite perform_eq. cbn [answered fs_script]. rewrite Hfs. cbn [tl].
  match goal with
  | |- context [forEach entries ?f ?x] =>
      destruct (forEach_level (S (length rest)) srcDir destDir entries x)
        as (w' & Hrun & Hlog')
  end.
  { cbn [answered fs_script]. by rewrite Hfs. }
  exists w'. split; [exact Hrun|].
  rewrite Hlog'. cbn [answered log]. by rewrite <- !app_assoc.
Qed.

Lemma copyDir_copies_one_level_witness :
  exists w',
    copyDir (js "/tmp/sentinel-cache/typescript/k/dist") (js "/tmp/code-execution/s1/dist")
      (Sample.world
         [FsOk [];
          FsOk [{| d_name := js "main.js"; isDirectory := false; isFile := true |};
                {| d_name := js "lib"; isDirectory := true; isFile := false |};
                {| d_name := js "latest"; isDirectory := false; isFile := false |}]]
         [])
    = (Ret tt, w')
    /\ log w'
       = [] ++ [Mkdir (js "/tmp/code-execution/s1/dist");
                Readdir (js "/tmp/sentinel-cache/typescript/k/dist")]
         ++ flat_map (entryCalls (js "/tmp/sentinel-cache/typescript/k/dist")
                        (js "/tmp/code-execution/s1/dist"))
              [{| d_name := js "main.js"; isDirectory := false; isFile := true |};
               {| d_name := js "lib"; isDirectory := true; isFile := false |};
               {| d_name := js "latest"; isDirectory := false; isFile := false |}].
Proof.
  apply (copyDir_copies_one_level (js "/tmp/sentinel-cache/typescript/k/dist")
           (js "/tmp/code-execution/s1/dist")
           (Sample.world
              [FsOk [];
               FsOk [{| d_name := js "main.js"; isDirectory := false; isFile := true |};
                     {| d_name := js "lib"; isDirectory := true; isFile := false |};
                     {| d_name := js "latest"; isDirectory := false; isFile := false |}]]
              [])
           []
           [{| d_name := js "main.js"; isDirectory := false; isFile := true |};
            {| d_name := js "lib"; isDirectory := true; isFile := false |};
            {| d_name := js "latest"; isDirectory := false; isFile := false |}] []).
  - reflexivity.
  - constructor.
Defined.
